(* ===== verification/_CoqProject ===== *)
-Q . S2P
Prelude.v
Numeric.v
Floats.v
Normalizer.v
Kaiser.v
Designs.v
Window.v
Bessel.v
WindowGain.v
FreqResponse.v
FreqSampling.v
Remez.v
RemezInv.v
Nyquist.v
Report.v
Figure.v
Script.v
