(* ===== verification/Prelude.v ===== *)
(** * FIR low-pass filter design script: a verification development

    ** The program

    [src/66.py] is a single Python script that designs four FIR low-pass
    filters for one specification (sampling rate 5000 Hz, passband edge
    1000 Hz, stopband edge 1500 Hz, 1 dB ripple, 30 dB attenuation) and
    plots their magnitude responses.  Its own code is the parameter block,
    the normalisation of the band edges, the choice of every design
    argument (lengths, cut-offs, band lists, gains, sampling-rate keywords),
    the decibel conversion and the presentation; the numerical routines
    ([kaiserord], [firwin], [remez], [firwin2], [freqz]) are library calls,
    described by [spec.md] sections 4.2 to 4.6.

    ** Numbers

    The script computes with Python [int] and [float].  Every definition
    that translates a line of the script is written once, over the
    interface [Numeric.Num] (integer literals, [+ - * /], comparisons), and
    is read at three instances:
    - [b64]: IEEE 754 binary64 as defined by [SpecFloat] with precision 53
      and maximal exponent 1024, executable, bit-for-bit what Python's
      [float] operators compute; integers are [Z] and are exact in this
      format below 2^53, which covers every literal of the script;
    - [Q]: exact rational arithmetic, executable, the reference value;
    - [R]: the real numbers of the Standard Library, in which the
      transcendental operations ([PI], powers, ceiling) live and in which
      the general theorems are proved.
    The last two are not what the interpreter computes: they are the
    arithmetic in which the formulas of the specification are stated.
    [Numeric.NumHom] states that [Q2R] commutes with every operation, so a
    value computed in [Q] is the value in [R]; the binary64 value is related
    to the exact one by an explicit error bound obtained from
    [Numeric.b64_to_Q].

    ** Files

    - [Prelude] (this file): the error taxonomy of spec section 7 as the
      type [error], the [result] monad and its notation (scope [res_scope]),
      the tactics and hint databases of the development, and the lemmas
      shared by the components: bounds on [PI], rational roots through
      [Rpower], ceilings, parity, boolean comparison on [R].
    - [Numeric]: the interfaces [Num], [Round] and [Transc], their
      instances at [Q], [R] and [b64], the morphism [Q2R], decimal literals.
    - [Floats]: the integers inside binary64: [b64_integer], the way back
      from a float to the integer it equals, and the exactness of the
      conversion [b64_of_Z] below 2^53.
    - [Normalizer]: the parameter block (lines 7-11), the record
      [FilterSpec] with its validation, the normalised edges [wp], [ws]
      (lines 14-15) and the linear tolerances [A_pass], [A_stop]
      (lines 19-20).
    - [Kaiser]: the Kaiser estimate ([kaiser_beta], [kaiser_length],
      [kaiserord], spec section 4.3), the script's use of it ([delta_w],
      [M_kaiser], [beta_kaiser], lines 31-37) and the contract [estimate]
      of the specification with the length forced odd.
    - [Designs]: the arguments the script passes to each designer
      (lines 24-27, 40-43, 47-58, 62-70), the input contracts of the
      designers (length, band edges, breakpoints, grid size) as validators
      returning [result], and what they answer on the script's arguments.
    - [Window]: the window designer [firwin] of spec section 4.2 (ideal
      response [ideal_lowpass] built on [sinc], the windows [hann] and
      [kaiser_coeff], the Bessel series [bessel_i0], the normalisation
      [normalize_dc]) and the script's two calls [h_window] (line 27) and
      [h_kaiser] (line 43).
    - [Bessel]: the series of I0 as a sum ([i0_term], [i0_partial]); the
      loop [Window.i0_loop] returns its partial sum at the first term below
      the tolerance, and reaches that term before the fuel is spent.
    - [WindowGain]: the raw taps of the Hann design at cut-off 1/2 sum to
      at least 1/2, so the normalisation is a division by a non-zero
      number.
    - [FreqResponse]: the evaluator [evaluate] of spec section 4.6 (grid
      of [numPoints] frequencies from 0 in steps of [(fs/2)/numPoints],
      transform by direct summation, magnitude), the decibel conversion of
      lines 81-84 ([to_dB]) beside the clamped conversion of the spec
      ([to_dB_clamped]), and the responses of the two window designs
      (lines 75-76 and 81-82).
    - [FreqSampling]: the frequency-sampling designer [firwin2] of spec
      section 4.5 (interpolated gain, linear phase, inverse Fourier
      relation, taper), the script's call [h_firls] (line 70) and its
      evaluation (lines 78 and 84), each a function of the taper, which
      line 70 does not name.
    - [Remez]: the equiripple designer [remez] of spec section 4.4 (dense
      grid, closed-form trial response and error magnitude, exchange of
      the extremal candidates, loop bounded by 250 iterations, taps), the
      script's call [h_remez] (line 58) and its evaluation (lines 77
      and 83).
    - [RemezInv]: the invariant of the exchange loop: the candidates are
      the requested number of strictly increasing indices into the grid,
      so their abscissas are distinct on bands that do not touch.
    - [Nyquist]: symmetric taps of even length, which is what lines 47
      and 62 ask of the Remez and the frequency-sampling designers, have
      no response at the Nyquist frequency.
    - [Report]: the data of the calls of lines 88-117: the size of the
      figure, the labels of the curves (lines 89-92), the requirement lines
      (lines 96-100), the title (line 103), the axis texts and limits
      (lines 104-107), the grid (line 108) and the printed summary
      (lines 113-117), with the printers they use: [string_of_Z] for an
      integer, [format_2f] for the format [:.2f], [repr_float] for a float
      without a format.
    - [Figure]: the state of pyplot and of the standard output as the
      record [world], the calls the script makes on them as the type
      [call], their effect as the function [exec], runs of calls as the
      function [run] and the relation [runs], and the well-formedness of a
      world, which every call preserves.  The specification leaves
      presentation out of its scope: the effect of each call follows the
      documented behaviour of the library.
    - [Script]: the program as a whole.  [curves_of] sequences the four
      designs, the evaluations and the conversions in the order of lines
      27-84; [presentation] and [printing] are the calls of lines 88-110
      and 113-117; [program] runs them on the empty world and [script] is
      the program at the script's designs, for a given taper.

    Components interact through values of [result]: a designer that
    rejects its arguments returns [Err], and [FreqResponse.freqz]
    and [FreqResponse.decibels] pass that error on, as an exception
    raised in line 43 would end the script before line 76.  [Script.program]
    turns the first such error into the exception the run ends with, and
    the world it leaves is then the empty one.  The calls on pyplot
    interact through [Figure.world]: [plot] appends to the current figure,
    [legend] reads the lines plotted so far, [show] moves the open figures
    to the displayed ones.

    ** What is proved

    - Normalisation: for every valid specification the normalised edges
      satisfy [0 < wp < ws < 1]; on the script's parameters [wp = 2/5],
      [ws = 3/5], the cut-off is [1/2]; the binary64 values are the doubles
      nearest to these, while [ws - wp] is not the double nearest to [1/5].
    - Tolerances: enclosures of [A_pass] and [A_stop] that justify the
      values quoted in the comments of lines 19-20.
    - Kaiser estimate: the length formula gives 17 on the script's inputs,
      in [R] and in binary64 alike; the script's unconditional increment
      makes [M_kaiser = 18], an even length, where the specification forces
      the length odd; [kaiser_beta] is non-decreasing, continuous at 21 dB
      and has a jump at 50 dB; enclosure of [beta_kaiser].
    - Designer contracts: which calls of the script satisfy the input
      contract of spec sections 4.2 to 4.6 and which are rejected, with the
      error each returns.
    - Window designs: the result of [firwin] has the requested length, is
      symmetric about the centre tap and sums
      to 1 whenever the raw taps do not sum to zero; at cut-off 1/2 the
      Hann design sums to 1 for every odd length, and its taps at even
      distance from the centre vanish; the Hann design of line 27 is such a
      filter with 47 taps, the Kaiser design of line 43 is rejected.
    - Bessel series: for arguments up to 33 in absolute value, hence for
      every shape parameter below 300 dB, the loop returns the partial sum
      of the series at the first index from 1 on whose term is below the
      tolerance times the sum, that index is at most 64, and more fuel
      gives the same value; the value is at least 1.
    - Frequency response: the grid starts at 0, rises strictly and stays
      below [fs/2]; a unit tap reads 0 dB everywhere, with the floor and
      without; the
      response at frequency zero is the absolute sum of the taps, so the
      Hann design reads exactly 0 dB there; the conversion of lines 81-84
      and the clamped conversion of the spec agree from [1e-12] upwards and
      differ at zero (minus infinity against -240 dB).
    - Frequency sampling: the result of [firwin2] has the requested
      length, odd or even, and is symmetric, for either taper; the gain
      interpolated from lines 65-66; the design of line 70 succeeds with
      18 taps.
    - Equiripple design: the call of line 58 is rejected; for the
      designer itself, the error of the
      trial response alternates with equal magnitude at the candidates,
      the loop stops within its fuel and reports convergence only at a
      fixed point of the exchange, and the design has the requested length
      and is symmetric; the initial candidates are well formed and every
      exchange keeps them so (strictly increasing indices inside the
      grid, errors of alternating sign), hence on bands that do not touch
      the candidates the loop ends with are distinct points at which the
      error read on the grid has the common magnitude with alternating
      sign.
    - Even lengths: the transform of symmetric taps of even length
      vanishes at [PI], so every design of [firwin2] and of [remez] with
      an even length, the 18 taps of line 70 among them, has magnitude
      zero at the Nyquist frequency, where the expression of lines 81-84
      yields minus infinity and the conversion of the spec -240 dB; the
      grid of lines 75-78 does not contain that frequency.
    - Floats: converting an integer below 2^53 in magnitude to binary64
      and back returns it, and a float of the format with such a value is
      the conversion of that value; reading back the text printed for such
      a float, or for a zero, an infinity or NaN, returns the float.
    - Presentation: the strings the legend, the title and the summary
      print and the data of the requirement lines; a run of calls stops
      exactly at
      the first plot of two sequences of different lengths; a legend lists
      what was plotted before it was asked for, hidden labels excepted.
    - The whole script: under the contracts of the specification the
      script stops at line 43, with nothing drawn or printed, whichever
      taper line 70 gets; whenever the four designs succeed, whatever
      their taps, the program runs to its last print, the figure
      displayed has the eight lines, the texts, the limits and the five
      legend entries of the source, and the summary is printed after the
      figure has been displayed.

    ** Bounds and fuel

    [Remez.remez_loop] is bounded by [max_iterations] = 250, the bound of
    the specification; reaching it is reported as the warning
    [NonConvergence], and [Remez.remez_loop_stops] states what each exit
    means.  [Remez.trim] uses the length of its input as fuel, one unit per
    candidate dropped.  [Window.i0_loop], the series of the Bessel
    function, has [i0_fuel] = 64 terms and tolerance [i0_tol] = 1e-12
    relative to the running sum; [Bessel.kaiser_window_computed] shows
    that for arguments up to 33 the loop ends by the tolerance test: once
    [k^2 >= 2 (x/2)^2], which holds from [k = 24] on, every term is at most
    half the previous one and no term exceeds the partial sum, and
    [2^-40 < 1e-12]; 24 + 40 = 64.  Every other function is structurally
    recursive or closed-form.  Enclosures of irrational values are proved
    from rational bounds ([PI] from the Machin-like series of the Standard
    Library, powers with rational exponent from integer powers).

    Division by zero in [R] is total ([x / 0 = 0]); no theorem relies on
    it: the theorems on the gain of a design carry, or discharge, the
    hypothesis that the sum of the raw taps is not zero, the Bessel values
    that the Kaiser window divides by are at least 1, and the alternation
    of the Remez trial response assumes distinct candidates, which
    [RemezInv.remez_extrema_equiripple] establishes for the candidates of
    the loop on bands that do not touch.

    ** Not modelled

    Minimax optimality of a converged Remez design and the value of its
    ripple (spec section 8 asks for -30 dB at length 47) are not proved:
    the development shows the alternation at the candidates, not that the
    exchange decreases the error.  [kaiserord], [firwin], [firwin2],
    [remez] and [freqz] are library code outside [src/] and are modelled
    from the specification, contracts included: a library that accepts
    more than those contracts (an even length, a band list that stops
    short of the Nyquist frequency) runs lines 43 and 58 where the model
    raises, which is why [Script.program_completes] and
    [Script.figure_content] are stated for any four lists of taps.  Where
    the specification leaves a choice open (tolerance and fuel of the
    Bessel series, density of the grids, the tie-breaks of the extremum
    search, the step of the frequency grid) the file that makes the choice
    says so; the taper of the frequency-sampling designer is left a
    parameter.  The designs and the
    response are defined over the interfaces but proved over [R] only: the
    binary64 instance has no cosine, sine, square root or logarithm.
    What matplotlib paints is I/O: the model ends at the state the calls
    build ([Figure.world]), with colours, fonts and the position of the
    legend left out.  [Report.repr_float] gives the text of a float for
    zeros, infinities, NaN and integers below 2^53 in magnitude, which
    covers [Fs/1000]; the shortest-digits algorithm Python uses for other
    floats is not modelled, and [Script.statements] is [None] where the
    title would need it.  The imports of lines 1-4 bind library names and
    have no behaviour of their own. *)

From Stdlib Require Import ZArith QArith Qreals Reals Lra Lia List Bool.
From Stdlib Require Import Zfloor Machin.
Import ListNotations.

(** ** Errors and results (spec section 7) *)

Inductive error : Type :=
| InvalidSpec
| InvalidLength
| InvalidTransitionWidth
| InvalidBandSpec
| InvalidBreakpoints
| InvalidGridSize
| NonConvergence.

Inductive result (A : Type) : Type :=
| Ok (a : A)
| Err (e : error).

Arguments Ok {A} a.
Arguments Err {A} e.

Definition bind {A B : Type} (r : result A) (k : A -> result B) : result B :=
  match r with
  | Ok a => k a
  | Err e => Err e
  end.

Definition guard (b : bool) (e : error) : result unit :=
  if b then Ok tt else Err e.

Definition is_ok {A : Type} (r : result A) : bool :=
  match r with Ok _ => true | Err _ => false end.

Definition error_eqb (e1 e2 : error) : bool :=
  match e1, e2 with
  | InvalidSpec, InvalidSpec
  | InvalidLength, InvalidLength
  | InvalidTransitionWidth, InvalidTransitionWidth
  | InvalidBandSpec, InvalidBandSpec
  | InvalidBreakpoints, InvalidBreakpoints
  | InvalidGridSize, InvalidGridSize
  | NonConvergence, NonConvergence => true
  | _, _ => false
  end.

Declare Scope res_scope.
Delimit Scope res_scope with res.

Notation "x <- r ;; k" := (bind r (fun x => k))
  (at level 61, r at next level, right associativity) : res_scope.
Notation "'check' b 'else' e ;; k" := (bind (guard b e) (fun _ => k))
  (at level 61, b at level 200, e at level 0, right associativity) : res_scope.

(** ** Boolean comparison on the reals *)

Definition Rltb (x y : R) : bool := if Rlt_dec x y then true else false.
Definition Rleb (x y : R) : bool := if Rle_dec x y then true else false.

(** ** Parity *)

Definition force_odd (n : Z) : Z := if Z.even n then (n + 1)%Z else n.

(** ** Sums over lists *)

Definition Rsum (l : list R) : R := fold_right Rplus 0%R l.
Definition Qsum (l : list Q) : Q := fold_right Qplus 0%Q l.

(** ** Tactics and hint databases *)

Create HintDb fir discriminated.
Create Rewrite HintDb q2r.

Ltac inv H := inversion H; subst; clear H.

Ltac destr_guard :=
  match goal with
  | |- context [guard ?b _] => let E := fresh "E" in destruct b eqn:E; simpl
  | H : context [guard ?b _] |- _ =>
      let E := fresh "E" in destruct b eqn:E; simpl in H
  end.

(** [as_nat_quot p q] turns the literal exponent of a power into the
    quotient of two naturals expected by the root lemmas below. *)
Ltac as_nat_quot p q :=
  match goal with
  | |- context [Rpower ?b ?e] =>
      replace e with (INR p / INR q)%R by (simpl; lra)
  end.

(** ** Lemmas: results *)

Lemma error_eqb_eq (e1 e2 : error) : error_eqb e1 e2 = true <-> e1 = e2.
Proof. destruct e1, e2; simpl; split; intros H; try reflexivity; discriminate. Qed.

Lemma error_eq_dec (e1 e2 : error) : {e1 = e2} + {e1 <> e2}.
Proof. decide equality. Defined.

Lemma bind_Ok {A B} (r : result A) (k : A -> result B) (b : B) :
  bind r k = Ok b <-> exists a, r = Ok a /\ k a = Ok b.
Proof.
  destruct r as [a|e]; simpl; split.
  - intros H. now exists a.
  - now intros (a' & [= ->] & H).
  - discriminate.
  - now intros (a' & [=] & _).
Qed.

Lemma bind_Err {A B} (r : result A) (k : A -> result B) (e : error) :
  bind r k = Err e <-> r = Err e \/ exists a, r = Ok a /\ k a = Err e.
Proof.
  destruct r as [a|e']; simpl; split.
  - intros H. right. now exists a.
  - intros [[=]|(a' & [= ->] & H)]. exact H.
  - intros [= ->]. now left.
  - intros [[= ->]|(a' & [=] & _)]. reflexivity.
Qed.

Lemma guard_Ok (b : bool) (e : error) : guard b e = Ok tt <-> b = true.
Proof. destruct b; simpl; split; intros H; try reflexivity; discriminate. Qed.

Lemma guard_Err (b : bool) (e e' : error) :
  guard b e = Err e' <-> b = false /\ e = e'.
Proof.
  destruct b; simpl; split.
  - discriminate.
  - now intros [[=] _].
  - now intros [= ->].
  - now intros [_ ->].
Qed.

(** ** Lemmas: boolean comparison on the reals *)

Lemma Rltb_lt (x y : R) : Rltb x y = true <-> (x < y)%R.
Proof. unfold Rltb. destruct (Rlt_dec x y); split; intros; easy. Qed.

Lemma Rltb_ge (x y : R) : Rltb x y = false <-> (y <= x)%R.
Proof.
  unfold Rltb. destruct (Rlt_dec x y); split; intros; try easy; lra.
Qed.

Lemma Rleb_le (x y : R) : Rleb x y = true <-> (x <= y)%R.
Proof. unfold Rleb. destruct (Rle_dec x y); split; intros; easy. Qed.

Lemma Rleb_gt (x y : R) : Rleb x y = false <-> (y < x)%R.
Proof.
  unfold Rleb. destruct (Rle_dec x y); split; intros; try easy; lra.
Qed.

Lemma Rltb_spec (x y : R) : reflect (x < y)%R (Rltb x y).
Proof.
  destruct (Rltb x y) eqn:E; constructor.
  - now apply Rltb_lt.
  - apply Rltb_ge in E. lra.
Qed.

Lemma Rleb_spec (x y : R) : reflect (x <= y)%R (Rleb x y).
Proof.
  destruct (Rleb x y) eqn:E; constructor.
  - now apply Rleb_le.
  - apply Rleb_gt in E. lra.
Qed.

(** ** Lemmas: parity and the forced-odd length *)

Lemma force_odd_odd (n : Z) : Z.odd (force_odd n) = true.
Proof.
  unfold force_odd. destruct (Z.even n) eqn:E.
  - rewrite Z.odd_add, <- Z.negb_even, E. reflexivity.
  - now rewrite <- Z.negb_even, E.
Qed.

Lemma force_odd_bounds (n : Z) : (n <= force_odd n <= n + 1)%Z.
Proof. unfold force_odd. destruct (Z.even n); lia. Qed.

Lemma force_odd_succ_iff (n : Z) : force_odd n = (n + 1)%Z <-> Z.even n = true.
Proof. unfold force_odd. destruct (Z.even n); split; intros; try easy; lia. Qed.

Lemma force_odd_fix_iff (n : Z) : force_odd n = n <-> Z.odd n = true.
Proof.
  unfold force_odd. rewrite <- Z.negb_even.
  destruct (Z.even n); simpl; split; intros; try easy; lia.
Qed.

Lemma succ_even_iff (n : Z) : Z.even (n + 1) = true <-> Z.odd n = true.
Proof. rewrite Z.even_add, <- Z.negb_even. destruct (Z.even n); simpl; easy. Qed.

(** ** Lemmas: the rationals inside the reals *)

Lemma Q2R_inject_Z (z : Z) : Q2R (inject_Z z) = IZR z.
Proof. unfold Q2R, inject_Z. simpl. lra. Qed.

Lemma Q2R_div_total (x y : Q) : Q2R (x / y) = (Q2R x / Q2R y)%R.
Proof.
  destruct (Qeq_dec y 0) as [E|E].
  - unfold Qdiv, Rdiv. rewrite Q2R_mult, (Qeq_eqR _ _ E), RMicromega.Q2R_0, Rinv_0.
    assert (H : (/ y == 0)%Q) by (rewrite E; reflexivity).
    rewrite (Qeq_eqR _ _ H), RMicromega.Q2R_0. lra.
  - now apply Q2R_div.
Qed.

Lemma Q2R_lt_iff (x y : Q) : (x < y)%Q <-> (Q2R x < Q2R y)%R.
Proof. split; [apply Qlt_Rlt | apply Rlt_Qlt]. Qed.

Lemma Q2R_le_iff (x y : Q) : (x <= y)%Q <-> (Q2R x <= Q2R y)%R.
Proof. split; [apply Qle_Rle | apply Rle_Qle]. Qed.

#[export] Hint Rewrite Q2R_plus Q2R_minus Q2R_mult Q2R_opp Q2R_div_total
  Q2R_inject_Z RMicromega.Q2R_0 RMicromega.Q2R_1 : q2r.

(** ** Lemmas: enclosure of [PI] *)

Lemma PI_bounds : (3.1415 < PI < 3.1416)%R.
Proof.
  pose proof (PI_2_3_7_ineq 2) as H.
  unfold sum_f_R0, tg_alt, PI_2_3_7_tg, Ratan_seq in H.
  simpl in H. lra.
Qed.

Lemma PI_pos : (0 < PI)%R.
Proof. pose proof PI_bounds. lra. Qed.

(** ** Lemmas: powers with a rational exponent *)

Section Roots.
Local Open Scope R_scope.
Variables (b : R) (p q : nat).
Hypothesis Hb : 0 < b.
Hypothesis Hq : (0 < q)%nat.

Lemma Rpower_pos (e : R) : 0 < Rpower b e.
Proof. apply exp_pos. Qed.

Lemma Rpower_root_pow : Rpower b (INR p / INR q) ^ q = b ^ p.
Proof.
  rewrite <- Rpower_pow by apply exp_pos.
  rewrite Rpower_mult.
  replace (INR p / INR q * INR q) with (INR p).
  - now apply Rpower_pow.
  - field. apply not_0_INR. lia.
Qed.

Lemma pow_lt_reg (x y : R) (n : nat) : 0 <= y -> x ^ n < y ^ n -> x < y.
Proof.
  intros Hy H. destruct (Rlt_le_dec x y) as [|Hle]; [assumption|].
  exfalso. apply (Rlt_irrefl (x ^ n)).
  eapply Rlt_le_trans; [exact H|]. apply pow_incr. lra.
Qed.

Lemma Rpower_root_lower (x : R) : x ^ q < b ^ p -> x < Rpower b (INR p / INR q).
Proof.
  intros H. apply (pow_lt_reg _ _ q).
  - left. apply Rpower_pos.
  - now rewrite Rpower_root_pow.
Qed.

Lemma Rpower_root_upper (x : R) :
  0 <= x -> b ^ p < x ^ q -> Rpower b (INR p / INR q) < x.
Proof.
  intros Hx H. apply (pow_lt_reg _ _ q); [assumption|].
  now rewrite Rpower_root_pow.
Qed.

Lemma Rpower_root_bounds (lo hi : R) :
  0 <= hi -> lo ^ q < b ^ p < hi ^ q ->
  lo < Rpower b (INR p / INR q) < hi.
Proof.
  intros Hhi [H1 H2]. split.
  - now apply Rpower_root_lower.
  - now apply Rpower_root_upper.
Qed.
End Roots.

Lemma Rinv_enclose (x lo hi a b : R) :
  (0 < lo -> lo < x < hi -> 0 <= a -> a * hi <= 1 -> 1 <= b * lo ->
   a < / x < b)%R.
Proof.
  intros Hlo [H1 H2] Ha Hhi Hb.
  assert (Hx : (0 < x)%R) by lra.
  assert (Hb0 : (0 < b)%R) by (destruct (Rlt_le_dec 0 b); [assumption|nra]).
  split; apply Rmult_lt_reg_r with x; try assumption;
    rewrite Rinv_l by lra; nra.
Qed.

Lemma Rdiv_enclose (n d lo hi : R) :
  (0 < d -> lo * d < n -> n <= hi * d -> lo < n / d <= hi)%R.
Proof.
  intros Hd H1 H2. split.
  - apply Rmult_lt_reg_r with d; [assumption|].
    unfold Rdiv. rewrite Rmult_assoc, Rinv_l by lra. lra.
  - apply Rmult_le_reg_r with d; [assumption|].
    unfold Rdiv. rewrite Rmult_assoc, Rinv_l by lra. lra.
Qed.

(** ** Lemmas: ceilings *)

Lemma Zceil_between (x : R) (n : Z) :
  (IZR n - 1 < x <= IZR n)%R -> Zceil x = n.
Proof. apply Zceil_eq. Qed.

Lemma Zceil_IZR (n : Z) : Zceil (IZR n) = n.
Proof. apply Zceil_eq. lra. Qed.

Lemma Zceil_succ (x : R) : Zceil (x + 1) = (Zceil x + 1)%Z.
Proof. exact (Zceil_addz 1 x). Qed.

Lemma Zceil_pos (x : R) : (0 < x)%R -> (1 <= Zceil x)%Z.
Proof.
  intros H. pose proof (Zceil_bound x) as [_ H2].
  assert (H3 : (0 < IZR (Zceil x))%R) by lra.
  apply lt_IZR in H3. lia.
Qed.

(** ** Lemmas: lists read two elements at a time *)

Lemma list_pair_ind {A : Type} (P : list A -> Prop) :
  P [] -> (forall x, P [x]) -> (forall x y l, P l -> P (x :: y :: l)) ->
  forall l, P l.
Proof.
  intros H0 H1 H2 l.
  enough (H : P l /\ forall x, P (x :: l)) by apply H.
  induction l as [|y l [IH1 IH2]]; split; auto.
Qed.

(** ** Lemmas: sums *)

Lemma Rsum_app (l1 l2 : list R) : Rsum (l1 ++ l2) = (Rsum l1 + Rsum l2)%R.
Proof. induction l1 as [|x l1 IH]; simpl; [|rewrite IH]; lra. Qed.

Lemma Rsum_map_scale (c : R) (l : list R) :
  Rsum (map (fun x => x * c)%R l) = (Rsum l * c)%R.
Proof. induction l as [|x l IH]; simpl; [|rewrite IH]; lra. Qed.

Lemma Q2R_Qsum (l : list Q) : Q2R (Qsum l) = Rsum (map Q2R l).
Proof.
  induction l as [|x l IH]; simpl.
  - apply RMicromega.Q2R_0.
  - now rewrite Q2R_plus, IH.
Qed.
