(* ===== verification/Numeric.v ===== *)
(** * Numeric: the arithmetic of the script at three readings

    The script of [src/66.py] uses Python integers and floats with the
    operators [+ - * /], unary minus, comparisons, [**], [np.pi] and
    [ceil].  This file declares these operations as interfaces
    - [Num]: integer literals, the four operations, negation, comparison;
    - [Round]: the constant pi and the integer ceiling;
    - [Transc]: the power [x ** y], cosine, sine, square root and decimal
      logarithm;
    and gives the instances
    - [Num_Q], exact rationals (the reference value, executable);
    - [Num_R], [Round_R], [Transc_R], the real numbers;
    - [Num_b64], [Round_b64], IEEE 754 binary64 from [SpecFloat]
      (precision 53, maximal exponent 1024), executable.
    [NumHom] is the interface of a map that commutes with [Num]; [Q2R] is
    an instance, which transports every value computed in [Q] to [R].
    [b64_to_Q] gives the exact rational value of a finite binary64 number,
    from which rounding errors are computed. *)

From Stdlib Require Import ZArith QArith Qreals Qround Reals Lra Lia Bool.
From Stdlib Require Import Zfloor SpecFloat.
From S2P Require Import Prelude.

(** ** Interfaces *)

Class Num (F : Type) : Type := {
  ofZ : Z -> F;
  add : F -> F -> F;
  sub : F -> F -> F;
  mul : F -> F -> F;
  div : F -> F -> F;
  opp : F -> F;
  ltb : F -> F -> bool;
  leb : F -> F -> bool
}.

Class Round (F : Type) `{Num F} : Type := {
  pi : F;
  ceil : F -> Z
}.

Class Transc (F : Type) `{Num F} : Type := {
  pow : F -> F -> F;
  cosF : F -> F;
  sinF : F -> F;
  sqrtF : F -> F;
  log10 : F -> F
}.

Declare Scope num_scope.
Delimit Scope num_scope with num.

Notation "x + y" := (add x y) : num_scope.
Notation "x - y" := (sub x y) : num_scope.
Notation "x * y" := (mul x y) : num_scope.
Notation "x / y" := (div x y) : num_scope.
Notation "- x" := (opp x) : num_scope.
Notation "x <? y" := (ltb x y) : num_scope.
Notation "x <=? y" := (leb x y) : num_scope.
Notation "x ** y" := (pow x y) (at level 30, right associativity) : num_scope.

(** A decimal literal [m / 10^k], such as [7.95 = dec 795 2].  In binary64
    both integers are exact and the division rounds to nearest, so [dec] is
    the double a Python literal denotes. *)
Definition dec {F : Type} `{Num F} (m : Z) (k : nat) : F :=
  (ofZ m / ofZ (10 ^ Z.of_nat k))%num.

(** ** Instance: exact rationals *)

#[export] Instance Num_Q : Num Q := {
  ofZ := inject_Z;
  add := Qplus;
  sub := Qminus;
  mul := Qmult;
  div := Qdiv;
  opp := Qopp;
  ltb := fun x y => negb (Qle_bool y x);
  leb := Qle_bool
}.

(** ** Instance: real numbers *)

#[export] Instance Num_R : Num R := {
  ofZ := IZR;
  add := Rplus;
  sub := Rminus;
  mul := Rmult;
  div := Rdiv;
  opp := Ropp;
  ltb := Rltb;
  leb := Rleb
}.

#[export] Instance Round_R : Round R := {
  pi := PI;
  ceil := Zceil
}.

#[export] Instance Transc_R : Transc R := {
  pow := Rpower;
  cosF := cos;
  sinF := sin;
  sqrtF := sqrt;
  log10 := fun x => (ln x / ln 10)%R
}.

(** ** Instance: IEEE 754 binary64 *)

Definition b64 : Type := spec_float.

Definition b64_prec : Z := 53.
Definition b64_emax : Z := 1024.

Definition b64_of_Z (z : Z) : b64 :=
  binary_normalize b64_prec b64_emax z 0 false.

(** The exact value of a finite binary64 number; [None] on infinities and
    NaN. *)
Definition b64_to_Q (x : b64) : option Q :=
  match x with
  | S754_zero _ => Some 0%Q
  | S754_finite s m e => Some (inject_Z (cond_Zopp s (Zpos m)) * (2 # 1) ^ e)%Q
  | S754_infinity _ | S754_nan => None
  end.

Definition b64_is_finite (x : b64) : bool :=
  match x with
  | S754_zero _ | S754_finite _ _ _ => true
  | S754_infinity _ | S754_nan => false
  end.

(** [int(ceil(x))]: the ceiling of the exact value.  Python raises on a
    non-finite argument; the model answers [0] there and every use is
    accompanied by a proof that the argument is finite. *)
Definition b64_ceil (x : b64) : Z :=
  match b64_to_Q x with
  | Some q => Qceiling q
  | None => 0%Z
  end.

(** [np.pi], the double [0x1.921fb54442d18p+1]. *)
Definition b64_pi : b64 := S754_finite false 7074237752028440 (-51).

#[export] Instance Num_b64 : Num b64 := {
  ofZ := b64_of_Z;
  add := SFadd b64_prec b64_emax;
  sub := SFsub b64_prec b64_emax;
  mul := SFmul b64_prec b64_emax;
  div := SFdiv b64_prec b64_emax;
  opp := SFopp;
  ltb := SFltb;
  leb := SFleb
}.

#[export] Instance Round_b64 : Round b64 := {
  pi := b64_pi;
  ceil := b64_ceil
}.

(** The distance between a binary64 value and an exact rational, when the
    former is finite. *)
Definition b64_err (x : b64) (q : Q) : option Q :=
  match b64_to_Q x with
  | Some v => Some (Qabs.Qabs (v - q))
  | None => None
  end.

(** [b64_within x q eps] decides [|x - q| <= eps]. *)
Definition b64_within (x : b64) (q eps : Q) : bool :=
  match b64_err x q with
  | Some d => Qle_bool d eps
  | None => false
  end.

(** ** Morphisms of [Num] *)

Class NumHom {A B : Type} `{Num A} `{Num B} (h : A -> B) : Prop := {
  hom_ofZ : forall z, h (ofZ z) = ofZ z;
  hom_add : forall x y, h (x + y)%num = (h x + h y)%num;
  hom_sub : forall x y, h (x - y)%num = (h x - h y)%num;
  hom_mul : forall x y, h (x * y)%num = (h x * h y)%num;
  hom_div : forall x y, h (x / y)%num = (h x / h y)%num;
  hom_opp : forall x, h (- x)%num = (- h x)%num;
  hom_ltb : forall x y, (x <? y)%num = (h x <? h y)%num;
  hom_leb : forall x y, (x <=? y)%num = (h x <=? h y)%num
}.

Arguments hom_ofZ {A B _ _} h {_} z.
Arguments hom_add {A B _ _} h {_} x y.
Arguments hom_sub {A B _ _} h {_} x y.
Arguments hom_mul {A B _ _} h {_} x y.
Arguments hom_div {A B _ _} h {_} x y.
Arguments hom_opp {A B _ _} h {_} x.
Arguments hom_ltb {A B _ _} h {_} x y.
Arguments hom_leb {A B _ _} h {_} x y.

(** ** Tactics *)

(** [hom_push h] moves the morphism [h] to the leaves of an expression. *)
Ltac hom_push h :=
  repeat first
    [ rewrite (hom_add h) | rewrite (hom_sub h) | rewrite (hom_mul h)
    | rewrite (hom_div h) | rewrite (hom_opp h) | rewrite (hom_ofZ h) ].

(** [num_R] exposes the operations of the instance at [R] (and [num_Q] at
    [Q]) so that [lra], [field] and the lemmas of the Standard Library
    apply. *)
Ltac pow10_eval :=
  repeat match goal with
    | |- context [(10 ^ Z.of_nat ?k)%Z] =>
        let v := eval vm_compute in (10 ^ Z.of_nat k)%Z in
        change (10 ^ Z.of_nat k)%Z with v
    | H : context [(10 ^ Z.of_nat ?k)%Z] |- _ =>
        let v := eval vm_compute in (10 ^ Z.of_nat k)%Z in
        change (10 ^ Z.of_nat k)%Z with v in H
    end.

Ltac num_R :=
  unfold dec in *;
  cbn [ofZ add sub mul div opp ltb leb pi ceil pow cosF sinF sqrtF log10
       Num_R Round_R Transc_R] in *;
  pow10_eval.

Ltac num_Q :=
  unfold dec in *;
  cbn [ofZ add sub mul div opp ltb leb Num_Q] in *;
  pow10_eval.

(** ** Lemmas: the instance at [Q] *)

Lemma Qltb_lt (x y : Q) : (x <? y)%num = true <-> (x < y)%Q.
Proof.
  num_Q. rewrite negb_true_iff. split.
  - intros H. apply Qnot_le_lt. intros Hle.
    apply Qle_bool_iff in Hle. congruence.
  - intros H. destruct (Qle_bool y x) eqn:E; [|reflexivity].
    apply Qle_bool_iff in E. exfalso. exact (Qlt_not_le _ _ H E).
Qed.

Lemma Qleb_le (x y : Q) : (x <=? y)%num = true <-> (x <= y)%Q.
Proof. num_Q. apply Qle_bool_iff. Qed.

(** ** Lemmas: [Q2R] is a morphism *)

Lemma Q2R_leb (x y : Q) : Qle_bool x y = Rleb (Q2R x) (Q2R y).
Proof.
  destruct (Rleb_spec (Q2R x) (Q2R y)) as [H|H].
  - apply Qle_bool_iff. now apply Rle_Qle.
  - destruct (Qle_bool x y) eqn:E; [|reflexivity].
    apply Qle_bool_iff, Qle_Rle in E. contradiction.
Qed.

Lemma Q2R_ltb (x y : Q) : negb (Qle_bool y x) = Rltb (Q2R x) (Q2R y).
Proof.
  rewrite Q2R_leb.
  destruct (Rleb_spec (Q2R y) (Q2R x)), (Rltb_spec (Q2R x) (Q2R y));
    simpl; try reflexivity; lra.
Qed.

#[export] Instance NumHom_Q2R : NumHom Q2R.
Proof.
  constructor; intros; cbn [ofZ add sub mul div opp ltb leb Num_Q Num_R].
  - apply Q2R_inject_Z.
  - apply Q2R_plus.
  - apply Q2R_minus.
  - apply Q2R_mult.
  - apply Q2R_div_total.
  - apply Q2R_opp.
  - apply Q2R_ltb.
  - apply Q2R_leb.
Qed.

Lemma hom_dec {A B : Type} `{Num A} `{Num B} (h : A -> B) `{!NumHom h}
  (m : Z) (k : nat) : h (dec m k) = dec m k.
Proof. unfold dec. now hom_push h. Qed.

(** ** Lemmas: ceilings of rationals *)

Lemma Zfloor_Q2R (q : Q) : Zfloor (Q2R q) = Qfloor q.
Proof.
  apply Zfloor_eq. split.
  - rewrite <- Q2R_inject_Z. apply Qle_Rle, Qfloor_le.
  - replace (IZR (Qfloor q) + 1)%R with (Q2R (inject_Z (Qfloor q + 1))).
    + apply Qlt_Rlt, Qlt_floor.
    + rewrite Q2R_inject_Z, plus_IZR. reflexivity.
Qed.

Lemma Zceil_Q2R (q : Q) : Zceil (Q2R q) = Qceiling q.
Proof.
  unfold Zceil, Qceiling. now rewrite <- Q2R_opp, Zfloor_Q2R.
Qed.

(** The binary64 ceiling is the ceiling of the exact value. *)
Lemma b64_ceil_exact (x : b64) (q : Q) :
  b64_to_Q x = Some q -> b64_ceil x = Zceil (Q2R q).
Proof. intros H. unfold b64_ceil. now rewrite H, Zceil_Q2R. Qed.

Lemma b64_to_Q_finite (x : b64) : b64_is_finite x = true <-> exists q, b64_to_Q x = Some q.
Proof.
  destruct x; simpl; split; intros H; try reflexivity; try discriminate;
    try (eexists; reflexivity); now destruct H.
Qed.

Lemma b64_within_sound (x : b64) (q eps : Q) :
  b64_within x q eps = true ->
  exists v, b64_to_Q x = Some v /\ (Rabs (Q2R v - Q2R q) <= Q2R eps)%R.
Proof.
  unfold b64_within, b64_err. destruct (b64_to_Q x) as [v|]; [|discriminate].
  intros H. exists v. split; [reflexivity|].
  apply Qle_bool_iff, Qle_Rle in H.
  rewrite <- Q2R_minus. unfold Rabs.
  destruct (Rcase_abs (Q2R (v - q))) as [Hn|Hp].
  - rewrite <- Q2R_opp. eapply Rle_trans; [|exact H].
    apply Qle_Rle. rewrite <- Qabs.Qabs_opp. apply Qabs.Qle_Qabs.
  - eapply Rle_trans; [|exact H]. apply Qle_Rle, Qabs.Qle_Qabs.
Qed.
