(* ===== verification/Floats.v ===== *)
(** * Floats: the integers inside binary64

    Python turns an [int] into a [float] whenever the two meet in an
    operation, and [Fs/1000] on line 103 of [src/66.py] divides two
    integers as floats.  [ofZ] at binary64 is that conversion
    ([b64_of_Z], by rounding to nearest even); this file adds the way
    back, [b64_integer], which is [x.is_integer()] together with
    [int(x)].

    Proved here, from the definitions of [SpecFloat] and without
    evaluating them: a float in canonical form is left alone by the
    rounding; the conversion of an integer below [2^53] in magnitude is
    exact, so converting it back returns it; and a canonical float whose
    value is such an integer is the conversion of that integer. *)

From Stdlib Require Import ZArith Lia Bool SpecFloat.
From S2P Require Import Prelude.
From S2P Require Import Numeric.

Local Open Scope Z_scope.

(** ** Definitions *)

(** The integer a float is equal to, when it is one. *)
Definition b64_integer (x : b64) : option Z :=
  match x with
  | S754_zero _ => Some 0
  | S754_finite s m e =>
      if 0 <=? e then Some (cond_Zopp s (Zpos m * 2 ^ e))
      else if Zpos m mod 2 ^ (- e) =? 0 then Some (cond_Zopp s (Zpos m / 2 ^ (- e)))
      else None
  | S754_infinity _ | S754_nan => None
  end.

(** The floats of the format: a mantissa of at most 53 bits, of exactly 53
    above the smallest exponent, and an exponent in range. *)
Definition b64_valid (x : b64) : bool := valid_binary b64_prec b64_emax x.

(** The number of leading positions an integer leaves free in the
    mantissa. *)
Definition b64_shift (p : positive) : Z := b64_prec - Zpos (digits2_pos p).

(** ** Lemmas: binary digits *)

Lemma digits2_pos_size (p : positive) : digits2_pos p = Pos.size p.
Proof. induction p; cbn; congruence. Qed.

Lemma digits2_log2 (p : positive) : Zpos (digits2_pos p) = Z.log2 (Zpos p) + 1.
Proof.
  rewrite digits2_pos_size. destruct p; cbn; rewrite ?Pos.add_1_r; reflexivity.
Qed.

Lemma iter_xO (p d : positive) : Zpos (Pos.iter xO p d) = Zpos p * 2 ^ Zpos d.
Proof.
  revert p. induction d using Pos.peano_ind; intros p.
  - cbn. lia.
  - rewrite Pos.iter_succ, Pos2Z.inj_succ, Z.pow_succ_r by lia.
    rewrite Pos2Z.inj_xO, IHd. lia.
Qed.

Lemma abs_cond_Zopp (s : bool) (z : Z) : Z.abs (cond_Zopp s z) = Z.abs z.
Proof. destruct s; cbn [cond_Zopp]; [apply Z.abs_opp|reflexivity]. Qed.

Lemma bounded_canonical (m : positive) (e : Z) :
  bounded b64_prec b64_emax m e = true ->
  fexp b64_prec b64_emax (Zpos (digits2_pos m) + e) = e /\ e <= b64_emax - b64_prec.
Proof.
  unfold bounded, canonical_mantissa. intros Hb.
  apply andb_true_iff in Hb as [Hc He]. now apply Z.eqb_eq in Hc; apply Z.leb_le in He.
Qed.

(** ** Lemmas: rounding *)

(** Rounding leaves a canonical mantissa and exponent alone. *)
Lemma binary_round_aux_canonical (s : bool) (m : positive) (e : Z) :
  bounded b64_prec b64_emax m e = true ->
  binary_round_aux b64_prec b64_emax s (Zpos m) e loc_Exact = S754_finite s m e.
Proof.
  intros Hb. destruct (bounded_canonical m e Hb) as [Hc He].
  apply Z.leb_le in He. unfold binary_round_aux, shr_fexp.
  cbn [Zdigits2 shr_record_of_loc]. rewrite Hc, Z.sub_diag.
  cbn [shr shr_m loc_of_shr_record round_nearest_even Zdigits2 shr_record_of_loc].
  rewrite Hc, Z.sub_diag. cbn [shr shr_m]. now rewrite He.
Qed.

(** The conversion of an integer whose value a canonical float has is that
    float. *)
Lemma b64_of_Z_exact (s : bool) (m : positive) (e : Z) (p : positive) :
  bounded b64_prec b64_emax m e = true ->
  e <= 0 -> Zpos m = Zpos p * 2 ^ (- e) ->
  b64_of_Z (cond_Zopp s (Zpos p)) = S754_finite s m e.
Proof.
  intros Hb He Hm. destruct (bounded_canonical m e Hb) as [Hc _].
  assert (D : Zpos (digits2_pos m) + e = Zpos (digits2_pos p) + 0).
  { rewrite !digits2_log2, Hm, Z.log2_mul_pow2 by lia. lia. }
  assert (R : binary_round b64_prec b64_emax s p 0 = S754_finite s m e).
  { unfold binary_round. rewrite <- D, Hc. unfold shl_align. rewrite Z.sub_0_r.
    destruct e as [|e|d]; [| lia |].
    - replace p with m by (cbn in Hm; lia). now apply binary_round_aux_canonical.
    - replace (Pos.iter xO p d) with m; [now apply binary_round_aux_canonical|].
      apply Pos2Z.inj. rewrite iter_xO. exact Hm. }
  destruct s; exact R.
Qed.

(** A canonical float whose value is an integer below [2^53] in magnitude
    is the conversion of that integer. *)
Lemma b64_integer_exact (s : bool) (m : positive) (e : Z) (n : Z) :
  bounded b64_prec b64_emax m e = true ->
  b64_integer (S754_finite s m e) = Some n -> Z.abs n < 2 ^ 53 ->
  exists p, n = cond_Zopp s (Zpos p) /\
            forall s', b64_of_Z (cond_Zopp s' (Zpos p)) = S754_finite s' m e.
Proof.
  intros Hb Hn Hlt. destruct (bounded_canonical m e Hb) as [Hc _].
  unfold b64_integer in Hn. destruct (Z.leb_spec 0 e) as [He|He].
  - assert (n = cond_Zopp s (Zpos m * 2 ^ e)) as -> by congruence. clear Hn.
    assert (Hd : Zpos (digits2_pos m) = 53).
    { unfold fexp, emin, b64_prec, b64_emax in Hc. lia. }
    rewrite digits2_log2 in Hd.
    pose proof (Z.log2_spec (Zpos m) eq_refl) as [Hl _].
    replace (Z.log2 (Zpos m)) with 52 in Hl by lia.
    assert (e = 0) as ->.
    { destruct (Z.eq_dec e 0); [assumption|].
      assert (Hp : 2 ^ 1 <= 2 ^ e) by (apply Z.pow_le_mono_r; lia).
      change (2 ^ 1) with 2 in Hp. change (2 ^ 53) with (2 ^ 52 * 2) in Hlt.
      rewrite abs_cond_Zopp, Z.abs_eq in Hlt by lia. nia. }
    exists m. rewrite Z.mul_1_r. split; [reflexivity|]. intros s'.
    apply b64_of_Z_exact; [assumption|lia|cbn; lia].
  - destruct (Z.eqb_spec (Zpos m mod 2 ^ (- e)) 0) as [Hz|]; [|discriminate].
    assert (n = cond_Zopp s (Zpos m / 2 ^ (- e))) as -> by congruence. clear Hn.
    assert (Hp : 0 < 2 ^ (- e)) by (apply Z.pow_pos_nonneg; lia).
    pose proof (Z.div_mod (Zpos m) (2 ^ (- e)) ltac:(lia)) as Hdm. rewrite Hz in Hdm.
    destruct (Zpos m / 2 ^ (- e)) as [|p|p] eqn:Eq; try lia.
    exists p. split; [reflexivity|]. intros s'.
    apply b64_of_Z_exact; [assumption|lia|lia].
Qed.

(** The float an integer below [2^53] converts to: its digits moved to the
    top of the mantissa. *)
Lemma b64_of_Z_shift (s : bool) (p : positive) :
  Zpos p < 2 ^ 53 ->
  let d := b64_shift p in
  let m := Z.to_pos (Zpos p * 2 ^ d) in
  0 <= d /\ Zpos m = Zpos p * 2 ^ d /\
  bounded b64_prec b64_emax m (- d) = true /\
  b64_of_Z (cond_Zopp s (Zpos p)) = S754_finite s m (- d).
Proof.
  intros Hp d m.
  assert (Hl : 0 <= Z.log2 (Zpos p) < 53).
  { split; [apply Z.log2_nonneg|]. now apply Z.log2_lt_pow2. }
  assert (Hd : 0 <= d <= 52).
  { unfold d, b64_shift, b64_prec. rewrite digits2_log2. lia. }
  assert (Hm : Zpos m = Zpos p * 2 ^ d).
  { unfold m. rewrite Z2Pos.id; [reflexivity|].
    apply Z.mul_pos_pos; [lia|]. apply Z.pow_pos_nonneg; lia. }
  assert (Hb : bounded b64_prec b64_emax m (- d) = true).
  { unfold bounded, canonical_mantissa. apply andb_true_iff.
    rewrite Z.eqb_eq, Z.leb_le, digits2_log2, Hm, Z.log2_mul_pow2 by lia.
    unfold d, b64_shift in *. rewrite digits2_log2 in *.
    unfold fexp, emin, b64_prec, b64_emax in *. lia. }
  repeat split; try assumption; try lia.
  apply b64_of_Z_exact; [assumption|lia|now rewrite Z.opp_involutive].
Qed.

(** ** Properties *)

(** C31. Converting an integer below [2^53] in magnitude to a float and back
    returns the integer, and the float is one of the format: the
    conversion is exact. *)
Theorem b64_integer_of_Z (n : Z) :
  Z.abs n < 2 ^ 53 ->
  b64_valid (b64_of_Z n) = true /\ b64_integer (b64_of_Z n) = Some n.
Proof.
  intros Hn.
  assert (A : forall s p, Zpos p < 2 ^ 53 ->
            b64_valid (b64_of_Z (cond_Zopp s (Zpos p))) = true /\
            b64_integer (b64_of_Z (cond_Zopp s (Zpos p))) = Some (cond_Zopp s (Zpos p))).
  { intros s p Hp. destruct (b64_of_Z_shift s p Hp) as (Hd & Hm & Hb & ->).
    split; [exact Hb|]. unfold b64_integer. set (d := b64_shift p) in *.
    assert (H2 : 0 < 2 ^ d) by (apply Z.pow_pos_nonneg; lia).
    destruct (Z.leb_spec 0 (- d)).
    - replace d with 0 in * by lia. cbn in Hm |- *. do 2 f_equal. lia.
    - rewrite Z.opp_involutive, Hm, Z.mod_mul, Z.div_mul by lia. reflexivity. }
  destruct n as [|p|p]; [now split| |].
  - exact (A false p Hn).
  - exact (A true p Hn).
Qed.

(** A float of the format whose value is an integer below [2^53] in
    magnitude is the conversion of that integer: no two such floats have
    the same value. *)
Theorem b64_of_Z_integer (x : b64) (n : Z) :
  b64_valid x = true -> b64_integer x = Some n -> Z.abs n < 2 ^ 53 -> n <> 0 ->
  b64_of_Z n = x.
Proof.
  intros Hv Hi Hn H0. destruct x as [s|s| |s m e]; try discriminate.
  - injection Hi as <-. contradiction.
  - destruct (b64_integer_exact s m e n Hv Hi Hn) as (p & -> & E). apply E.
Qed.

Lemma b64_integer_of_Z_witness :
  b64_valid (b64_of_Z 5000) = true /\ b64_integer (b64_of_Z 5000) = Some 5000.
Proof. apply (b64_integer_of_Z 5000). reflexivity. Defined.

Lemma b64_of_Z_integer_witness :
  b64_of_Z (-12) = S754_finite true 6755399441055744 (-49).
Proof.
  apply (b64_of_Z_integer (S754_finite true 6755399441055744 (-49)) (-12));
    [reflexivity|reflexivity|reflexivity|discriminate].
Defined.
