(* ===== verification/Normalizer.v ===== *)
(** * Normalizer: the parameter block and its normalisation

    Lines 7-11 of [src/66.py] fix the specification, lines 14-15 normalise
    the band edges to the Nyquist frequency and lines 19-20 turn the ripple
    and the attenuation into linear amplitudes.  The expressions are written
    over [Numeric.Num]; the record [FilterSpec], its validation and
    [normalize] give them the contract of spec sections 3 and 4.1.

    Proved here: every accepted specification has [0 < wp < ws < 1] and
    tolerances in (0,1); the rejection conditions; the values on the
    script's parameters at [Q], [R] and binary64; enclosures of [A_pass] and
    [A_stop]. *)

From Stdlib Require Import ZArith QArith Qreals Reals Lra Lia Bool.
From S2P Require Import Prelude.
From S2P Require Import Numeric.

Local Open Scope num_scope.

(** ** The parameter block (lines 7-11) *)

Definition Fs : Z := 5000.
Definition F_pass : Z := 1000.
Definition F_stop : Z := 1500.
Definition Rp : Z := 1.
Definition Rs : Z := 30.

(** ** Data model (spec section 3) *)

Record FilterSpec (F : Type) : Type := {
  sampleRateHz : F;
  passbandEdgeHz : F;
  stopbandEdgeHz : F;
  passbandRippleDb : F;
  stopbandAttenuationDb : F
}.

Arguments sampleRateHz {F} _.
Arguments passbandEdgeHz {F} _.
Arguments stopbandEdgeHz {F} _.
Arguments passbandRippleDb {F} _.
Arguments stopbandAttenuationDb {F} _.

Record NormalizedSpec (F : Type) : Type := {
  omegaPass : F;
  omegaStop : F;
  linearPassTolerance : F;
  linearStopTolerance : F
}.

Arguments omegaPass {F} _.
Arguments omegaStop {F} _.
Arguments linearPassTolerance {F} _.
Arguments linearStopTolerance {F} _.

Section WithNum.
Context {F : Type} `{Num F}.

(** The specification the script designs for. *)
Definition script_spec : FilterSpec F := {|
  sampleRateHz := ofZ Fs;
  passbandEdgeHz := ofZ F_pass;
  stopbandEdgeHz := ofZ F_stop;
  passbandRippleDb := ofZ Rp;
  stopbandAttenuationDb := ofZ Rs
|}.

(** ** Normalisation of a frequency (lines 14-15) *)

Definition normalize_edge (fs f : F) : F := f / (fs / ofZ 2).

Definition wp : F := normalize_edge (ofZ Fs) (ofZ F_pass).
Definition ws : F := normalize_edge (ofZ Fs) (ofZ F_stop).

(** ** Validation (spec section 4.1) *)

Definition edge_inside (fs f : F) : bool :=
  (ofZ 0 <? f) && (f <? fs / ofZ 2).

Definition valid_spec (s : FilterSpec F) : bool :=
  (passbandEdgeHz s <? stopbandEdgeHz s)
  && edge_inside (sampleRateHz s) (passbandEdgeHz s)
  && edge_inside (sampleRateHz s) (stopbandEdgeHz s).

Definition validate (s : FilterSpec F) : result unit :=
  guard (valid_spec s) InvalidSpec.

Definition normalize_edges (s : FilterSpec F) : result (F * F) :=
  (check valid_spec s else InvalidSpec ;;
   Ok (normalize_edge (sampleRateHz s) (passbandEdgeHz s),
       normalize_edge (sampleRateHz s) (stopbandEdgeHz s)))%res.

(** ** Linear tolerances (lines 19-20) *)

Context `{!Transc F}.

Definition db_to_linear (r : F) : F := ofZ 10 ** (- r / ofZ 20).

Definition A_pass : F := db_to_linear (ofZ Rp).
Definition A_stop : F := db_to_linear (ofZ Rs).

Definition normalize (s : FilterSpec F) : result (NormalizedSpec F) :=
  (check valid_spec s else InvalidSpec ;;
   Ok {| omegaPass := normalize_edge (sampleRateHz s) (passbandEdgeHz s);
         omegaStop := normalize_edge (sampleRateHz s) (stopbandEdgeHz s);
         linearPassTolerance := db_to_linear (passbandRippleDb s);
         linearStopTolerance := db_to_linear (stopbandAttenuationDb s) |})%res.

End WithNum.

(** The invariant of spec section 3, as a proposition over the reals. *)
Definition spec_invariant (s : FilterSpec R) : Prop :=
  (0 < passbandEdgeHz s < stopbandEdgeHz s)%R /\
  (stopbandEdgeHz s < sampleRateHz s / 2)%R.

(** ** Lemmas: validation *)

Lemma edge_inside_spec (fs f : R) :
  edge_inside fs f = true <-> (0 < f < fs / 2)%R.
Proof.
  unfold edge_inside. num_R. rewrite andb_true_iff, !Rltb_lt. tauto.
Qed.

Lemma valid_spec_iff (s : FilterSpec R) :
  valid_spec s = true <-> spec_invariant s.
Proof.
  unfold valid_spec, spec_invariant.
  rewrite !andb_true_iff, !edge_inside_spec. num_R. rewrite Rltb_lt.
  split; intros; lra.
Qed.

(** ** Lemmas: normalisation over the reals *)

Lemma normalize_edge_R (fs f : R) : normalize_edge fs f = (f / (fs / 2))%R.
Proof. reflexivity. Qed.

Lemma normalize_edge_pos (fs f : R) :
  (0 < fs -> 0 < f -> 0 < normalize_edge fs f)%R.
Proof.
  intros Hfs Hf. rewrite normalize_edge_R. apply Rdiv_lt_0_compat; lra.
Qed.

Lemma normalize_edge_mono (fs f g : R) :
  (0 < fs -> f < g -> normalize_edge fs f < normalize_edge fs g)%R.
Proof.
  intros Hfs Hfg. rewrite !normalize_edge_R. unfold Rdiv at 1 3.
  apply Rmult_lt_compat_r; [|assumption]. apply Rinv_0_lt_compat. lra.
Qed.

Lemma normalize_edge_nyquist (fs : R) :
  (0 < fs -> normalize_edge fs (fs / 2) = 1)%R.
Proof. intros Hfs. rewrite normalize_edge_R. field. lra. Qed.

Lemma normalize_edge_scale (c fs f : R) :
  (c <> 0 -> fs <> 0 ->
   normalize_edge (c * fs) (c * f) = normalize_edge fs f)%R.
Proof. intros Hc Hfs. rewrite !normalize_edge_R. field. lra. Qed.

Lemma normalize_edge_hom {A B : Type} `{Num A} `{Num B} (h : A -> B)
  `{!NumHom h} (fs f : A) :
  h (normalize_edge fs f) = normalize_edge (h fs) (h f).
Proof. unfold normalize_edge. now hom_push h. Qed.

(** ** Lemmas: linear tolerances *)

Lemma db_to_linear_R (r : R) : db_to_linear r = Rpower 10 (- r / 20).
Proof. reflexivity. Qed.

Lemma db_to_linear_pos (r : R) : (0 < db_to_linear r)%R.
Proof. rewrite db_to_linear_R. apply exp_pos. Qed.

Lemma db_to_linear_lt_1 (r : R) : (0 < r -> db_to_linear r < 1)%R.
Proof.
  intros Hr. rewrite db_to_linear_R.
  rewrite <- (Rpower_O 10) by lra. apply Rpower_lt; lra.
Qed.

Lemma db_to_linear_anti (r1 r2 : R) :
  (r1 < r2 -> db_to_linear r2 < db_to_linear r1)%R.
Proof. intros Hr. rewrite !db_to_linear_R. apply Rpower_lt; lra. Qed.

Lemma db_to_linear_0 : db_to_linear 0%R = 1%R.
Proof.
  rewrite db_to_linear_R. replace (- 0 / 20)%R with 0%R by lra.
  apply Rpower_O. lra.
Qed.

(** [10 ** (-p / q)] through an integer root: the reciprocal of the
    [q]-th root of [10 ^ p]. *)
Lemma db_to_linear_root (p q : nat) :
  (0 < q)%nat ->
  db_to_linear (INR p * 20 / INR q)%R = (/ Rpower 10 (INR p / INR q))%R.
Proof.
  intros Hq. rewrite db_to_linear_R, <- Rpower_Ropp. f_equal.
  field. apply not_0_INR. lia.
Qed.

(** ** Properties *)

(** C4. Every specification accepted by [normalize] has normalised edges
    with [0 < omegaPass < omegaStop < 1] (spec section 8, first property). *)
Theorem normalize_edges_ordered (s : FilterSpec R) (n : NormalizedSpec R) :
  normalize s = Ok n -> (0 < omegaPass n < omegaStop n /\ omegaStop n < 1)%R.
Proof.
  unfold normalize. destr_guard; [|discriminate]. intros [= <-]. simpl.
  apply valid_spec_iff in E. destruct E as [[H1 H2] H3].
  assert (Hfs : (0 < sampleRateHz s)%R) by lra.
  repeat split.
  - now apply normalize_edge_pos.
  - now apply normalize_edge_mono.
  - rewrite <- (normalize_edge_nyquist (sampleRateHz s)) by assumption.
    now apply normalize_edge_mono.
Qed.

Lemma normalize_edges_ordered_witness :
  exists n, normalize (script_spec (F:=R)) = Ok n /\
            (0 < omegaPass n < omegaStop n /\ omegaStop n < 1)%R.
Proof.
  assert (V : valid_spec (script_spec (F:=R)) = true).
  { apply valid_spec_iff. unfold spec_invariant, script_spec; simpl.
    unfold F_pass, F_stop, Fs. lra. }
  eexists. split.
  - unfold normalize. rewrite V. reflexivity.
  - apply (normalize_edges_ordered script_spec).
    unfold normalize. rewrite V. reflexivity.
Defined.

(** [normalize] is total and has two outcomes: when the invariant of
    spec section 3 holds it returns the edges divided by the Nyquist
    frequency and the tolerances [10 ** (-r / 20)]; otherwise (the stopband
    edge is not above the passband edge, or an edge is outside (0, Fs/2)) it
    answers [InvalidSpec]. *)
Theorem normalize_total (s : FilterSpec R) :
  (spec_invariant s /\
   normalize s =
     Ok {| omegaPass := normalize_edge (sampleRateHz s) (passbandEdgeHz s);
           omegaStop := normalize_edge (sampleRateHz s) (stopbandEdgeHz s);
           linearPassTolerance := db_to_linear (passbandRippleDb s);
           linearStopTolerance := db_to_linear (stopbandAttenuationDb s) |})
  \/ (~ spec_invariant s /\ normalize s = Err InvalidSpec).
Proof.
  rewrite <- valid_spec_iff. unfold normalize.
  destruct (valid_spec s); simpl; [left|right]; split;
    try reflexivity; congruence.
Qed.

(** The linear tolerance of a positive decibel figure lies strictly
    between 0 and 1, and a larger figure gives a smaller tolerance. *)
Theorem db_to_linear_range (r1 r2 : R) :
  (0 < r1 < r2 -> 0 < db_to_linear r2 < db_to_linear r1 /\ db_to_linear r1 < 1)%R.
Proof.
  intros [H1 H2]. repeat split.
  - apply db_to_linear_pos.
  - now apply db_to_linear_anti.
  - now apply db_to_linear_lt_1.
Qed.

Lemma db_to_linear_range_witness :
  (0 < A_stop (F:=R) < A_pass (F:=R) /\ A_pass (F:=R) < 1)%R.
Proof.
  unfold A_stop, A_pass. apply db_to_linear_range.
  unfold Rp, Rs. num_R. lra.
Defined.

(** On the parameters of the script the normalised edges are exactly
    2/5 and 3/5 (the comments of lines 14-15 say 0.4 and 0.6). *)
Theorem wp_ws_exact : (wp (F:=Q) == 2 # 5)%Q /\ (ws (F:=Q) == 3 # 5)%Q.
Proof. split; reflexivity. Qed.

(** The real values of [wp] and [ws] are the images of the rational
    ones: the computation in [Q] is the computation in [R]. *)
Theorem wp_ws_real : wp (F:=R) = Q2R (wp (F:=Q)) /\ ws (F:=R) = Q2R (ws (F:=Q)).
Proof.
  unfold wp, ws. split; rewrite (normalize_edge_hom Q2R); now hom_push Q2R.
Qed.

(** In binary64 the script's [wp] and [ws] are the doubles denoted by
    the literals [0.4] and [0.6], each within 2^-54 of the exact value. *)
Theorem wp_ws_b64 :
  wp (F:=b64) = dec 4 1 /\ ws (F:=b64) = dec 6 1 /\
  b64_within wp (2 # 5) (1 # 2 ^ 54) = true /\
  b64_within ws (3 # 5) (1 # 2 ^ 54) = true.
Proof. repeat split; vm_compute; reflexivity. Qed.

(** C33. [A_pass] is enclosed by 0.8912 and 0.8913 and [A_stop] by 0.03162
    and 0.03163, the values quoted by the comments of lines 19-20. *)
Theorem A_pass_A_stop_bounds :
  (0.8912 < A_pass (F:=R) < 0.8913)%R /\ (0.03162 < A_stop (F:=R) < 0.03163)%R.
Proof.
  unfold A_pass, A_stop, Rp, Rs. split.
  - replace (ofZ 1 : R) with (INR 1 * 20 / INR 20)%R by (num_R; simpl; lra).
    rewrite db_to_linear_root by lia.
    apply (Rinv_enclose _ 1.12201 1.12202); try lra.
    apply Rpower_root_bounds; try lia; lra.
  - replace (ofZ 30 : R) with (INR 3 * 20 / INR 2)%R by (num_R; simpl; lra).
    rewrite db_to_linear_root by lia.
    apply (Rinv_enclose _ 31.622 31.623); try lra.
    apply Rpower_root_bounds; try lia; lra.
Qed.
