(* ===== verification/Kaiser.v ===== *)
(** * Kaiser: the Kaiser window estimate and the script's use of it

    Line 31 of [src/66.py] computes the transition width, line 36 asks
    [kaiserord] for a length and a shape parameter, line 37 increments the
    length with the comment that the length must be odd.  [kaiser_beta],
    [kaiser_length] and [kaiserord] follow spec section 4.3; [estimate] is
    the contract of that section (width checked, length forced odd);
    [delta_w], [M_kaiser] and [beta_kaiser] are the script's values.

    Proved here: the estimate on the script's inputs in [R] and in binary64,
    the parity of [M_kaiser] against the forced-odd length of the contract,
    monotonicity of length and shape parameter, continuity of the shape
    parameter at 21 dB and its jump at 50 dB, enclosures of the shape
    parameter, the error path of [estimate]. *)

From Stdlib Require Import ZArith QArith Qreals Qround Reals Lra Lia Bool.
From Stdlib Require Import Zfloor.
From S2P Require Import Prelude.
From S2P Require Import Numeric.
From S2P Require Import Normalizer.

Local Open Scope num_scope.

(** ** The estimate (spec section 4.3) *)

Record KaiserEstimate (F : Type) : Type := {
  kaiserLength : Z;
  kaiserBeta : F
}.

Arguments kaiserLength {F} _.
Arguments kaiserBeta {F} _.

Section WithNum.
Context {F : Type} `{Num F}.

(** Width of the transition band in normalised frequency (line 31). *)
Definition delta_w : F := ws - wp.

Context `{!Round F}.

(** [ceil((a - 8) / (2.285 * width * pi)) + 1]. *)
Definition kaiser_length (a width : F) : Z :=
  (ceil ((a - ofZ 8) / (dec 2285 3 * width * pi))%num + 1)%Z.

(** The length the script uses for the Kaiser, Remez and frequency-sampling
    designs: the estimate of line 36 incremented by line 37. *)
Definition M_kaiser : Z := (kaiser_length (ofZ Rs) delta_w + 1)%Z.

Context `{!Transc F}.

Definition kaiser_beta (a : F) : F :=
  if a <=? ofZ 21 then ofZ 0
  else if a <=? ofZ 50 then
    dec 5842 4 * (a - ofZ 21) ** dec 4 1 + dec 7886 5 * (a - ofZ 21)
  else dec 1102 4 * (a - dec 87 1).

(** The pair returned by the call of line 36. *)
Definition kaiserord (a width : F) : Z * F :=
  (kaiser_length a width, kaiser_beta a).

Definition beta_kaiser : F := snd (kaiserord (ofZ Rs) delta_w).

(** The contract of spec section 4.3: the width must be positive and the
    returned length is the next odd integer. *)
Definition estimate (a width : F) : result (KaiserEstimate F) :=
  (check ofZ 0 <? width else InvalidTransitionWidth ;;
   Ok {| kaiserLength := force_odd (kaiser_length a width);
         kaiserBeta := kaiser_beta a |})%res.

End WithNum.

(** The middle branch of [kaiser_beta] as a function of [t = a - 21]. *)
Definition beta_mid (t : R) : R :=
  (0.5842 * Rpower t 0.4 + 0.07886 * t)%R.

(** ** Lemmas: the script's width *)

Lemma delta_w_R : delta_w (F:=R) = (1 / 5)%R.
Proof.
  unfold delta_w, ws, wp, normalize_edge, Fs, F_pass, F_stop. num_R. lra.
Qed.

Lemma delta_w_Q : (delta_w (F:=Q) == 1 # 5)%Q.
Proof. reflexivity. Qed.

(** ** Lemmas: the length formula over the reals *)

Lemma kaiser_length_R (a w : R) :
  kaiser_length a w = (Zceil ((a - 8) / (2.285 * w * PI)) + 1)%Z.
Proof.
  reflexivity.
Qed.

Lemma kaiser_length_mono_a (a1 a2 w : R) :
  (0 < w)%R -> (a1 <= a2)%R -> (kaiser_length a1 w <= kaiser_length a2 w)%Z.
Proof.
  intros Hw Ha. rewrite !kaiser_length_R.
  apply Z.add_le_mono_r, Zceil_le.
  pose proof PI_pos.
  assert (Hd : (0 < 2.285 * w * PI)%R) by (apply Rmult_lt_0_compat; lra).
  unfold Rdiv. apply Rmult_le_compat_r; [|lra].
  left. now apply Rinv_0_lt_compat.
Qed.

Lemma kaiser_length_anti_w (a w1 w2 : R) :
  (8 <= a)%R -> (0 < w1 <= w2)%R -> (kaiser_length a w2 <= kaiser_length a w1)%Z.
Proof.
  intros Ha Hw. rewrite !kaiser_length_R.
  apply Z.add_le_mono_r, Zceil_le.
  pose proof PI_pos.
  assert (Hd1 : (0 < 2.285 * w1 * PI)%R) by (apply Rmult_lt_0_compat; lra).
  assert (Hd2 : (2.285 * w1 * PI <= 2.285 * w2 * PI)%R).
  { apply Rmult_le_compat_r; lra. }
  unfold Rdiv. apply Rmult_le_compat_l; [lra|].
  now apply Rinv_le_contravar.
Qed.

Lemma kaiser_length_ge_2 (a w : R) :
  (8 < a)%R -> (0 < w)%R -> (2 <= kaiser_length a w)%Z.
Proof.
  intros Ha Hw. rewrite kaiser_length_R. pose proof PI_pos.
  assert (Hd : (0 < 2.285 * w * PI)%R) by (apply Rmult_lt_0_compat; lra).
  assert (Hx : (0 < (a - 8) / (2.285 * w * PI))%R).
  { apply Rdiv_lt_0_compat; lra. }
  apply Zceil_pos in Hx. lia.
Qed.

(** ** Lemmas: the shape parameter over the reals *)

Lemma kaiser_beta_low (a : R) : (a <= 21)%R -> kaiser_beta a = 0%R.
Proof.
  intros Ha. unfold kaiser_beta. num_R.
  now rewrite (proj2 (Rleb_le a 21) Ha).
Qed.

Lemma kaiser_beta_mid (a : R) :
  (21 < a <= 50)%R -> kaiser_beta a = beta_mid (a - 21).
Proof.
  intros [H1 H2]. unfold kaiser_beta, beta_mid. num_R.
  rewrite (proj2 (Rleb_gt a 21) H1), (proj2 (Rleb_le a 50) H2).
  reflexivity.
Qed.

Lemma kaiser_beta_high (a : R) :
  (50 < a)%R -> kaiser_beta a = (0.1102 * (a - 8.7))%R.
Proof.
  intros Ha. unfold kaiser_beta. num_R.
  rewrite (proj2 (Rleb_gt a 21)) by lra.
  rewrite (proj2 (Rleb_gt a 50) Ha). reflexivity.
Qed.

Lemma beta_mid_pos (t : R) : (0 < t -> 0 < beta_mid t)%R.
Proof.
  intros Ht. unfold beta_mid. pose proof (exp_pos (0.4 * ln t)) as Hp.
  fold (Rpower t 0.4) in Hp. nra.
Qed.

Lemma beta_mid_mono (s t : R) : (0 < s <= t -> beta_mid s <= beta_mid t)%R.
Proof.
  intros Hst. unfold beta_mid.
  pose proof (Rle_Rpower_l s t 0.4 ltac:(lra) Hst). lra.
Qed.

(** Enclosure of [beta_mid t] from an enclosure of the tenth root of
    [t ^ 4]. *)
Lemma beta_mid_bounds (t lo hi : R) :
  (0 < t -> 0 <= hi -> lo ^ 10 < t ^ 4 < hi ^ 10 ->
   0.5842 * lo + 0.07886 * t < beta_mid t < 0.5842 * hi + 0.07886 * t)%R.
Proof.
  intros Ht Hhi Hb. unfold beta_mid.
  replace 0.4%R with (INR 4 / INR 10)%R by (simpl; lra).
  pose proof (Rpower_root_bounds t 4 10 Ht ltac:(lia) lo hi Hhi Hb). lra.
Qed.

Lemma beta_mid_29 : (4.53 < beta_mid 29 < 4.54)%R.
Proof.
  pose proof (beta_mid_bounds 29 3.845 3.846 ltac:(lra) ltac:(lra) ltac:(lra)).
  lra.
Qed.

Lemma kaiser_beta_nonneg (a : R) : (0 <= kaiser_beta a)%R.
Proof.
  destruct (Rle_lt_dec a 21) as [H1|H1].
  - rewrite kaiser_beta_low by assumption. lra.
  - destruct (Rle_lt_dec a 50) as [H2|H2].
    + rewrite kaiser_beta_mid by lra. left. apply beta_mid_pos. lra.
    + rewrite kaiser_beta_high by assumption. lra.
Qed.

Lemma kaiser_beta_le_at_50 (a : R) :
  (21 < a <= 50)%R -> (kaiser_beta a <= beta_mid 29)%R.
Proof.
  intros Ha. rewrite kaiser_beta_mid by assumption.
  apply beta_mid_mono. lra.
Qed.

(** The shape parameter is small near 21 dB from above. *)
Lemma beta_mid_small (eps t : R) :
  (0 < eps -> 0 < t -> t < eps -> t < Rpower eps 2.5 -> beta_mid t < eps)%R.
Proof.
  intros He Ht H1 H2. unfold beta_mid.
  assert (H3 : (Rpower t 0.4 < eps)%R).
  { assert (E : Rpower (Rpower eps 2.5) 0.4 = eps).
    { rewrite Rpower_mult. replace (2.5 * 0.4)%R with 1%R by lra.
      now apply Rpower_1. }
    rewrite <- E. apply Rlt_Rpower_l; lra. }
  lra.
Qed.

(** ** Lemmas: the script's estimate *)

Lemma kaiser_length_script : kaiser_length (F:=R) (ofZ Rs) delta_w = 17%Z.
Proof.
  rewrite kaiser_length_R, delta_w_R. unfold Rs.
  rewrite (Zceil_between _ 16); [reflexivity|].
  pose proof PI_bounds as [Hlo Hhi]. num_R.
  apply Rdiv_enclose; lra.
Qed.

Lemma M_kaiser_R : M_kaiser (F:=R) = 18%Z.
Proof. unfold M_kaiser. now rewrite kaiser_length_script. Qed.

Lemma beta_kaiser_enclosure : (2.1166 < beta_kaiser (F:=R) < 2.1167)%R.
Proof.
  unfold beta_kaiser, kaiserord, Rs. cbn [snd].
  rewrite kaiser_beta_mid by (num_R; lra).
  replace (ofZ 30 - 21)%R with 9%R by (num_R; lra).
  pose proof (beta_mid_bounds 9 2.40822 2.40823 ltac:(lra) ltac:(lra) ltac:(lra)).
  lra.
Qed.

Lemma delta_w_positive : (ofZ 0 <? delta_w (F:=R)) = true.
Proof. rewrite delta_w_R. num_R. apply Rltb_lt. lra. Qed.

(** ** Properties *)

(** C1. On the script's inputs (30 dB, width 1/5) the length formula gives
    17, so the script's [M_kaiser], incremented on line 37, is 18: an even
    length, although the comment of line 37 and spec section 4.3 require an
    odd one. *)
Theorem M_kaiser_even :
  kaiser_length (F:=R) (ofZ Rs) delta_w = 17%Z /\
  M_kaiser (F:=R) = 18%Z /\ Z.even (M_kaiser (F:=R)) = true.
Proof.
  rewrite M_kaiser_R. repeat split. apply kaiser_length_script.
Qed.

(** C6. The contract [estimate] always returns an odd length, at least the
    value of the formula and at most one more. *)
Theorem estimate_length_odd (a w : R) (e : KaiserEstimate R) :
  estimate a w = Ok e ->
  Z.odd (kaiserLength e) = true /\
  (kaiser_length a w <= kaiserLength e <= kaiser_length a w + 1)%Z.
Proof.
  unfold estimate. destr_guard; [|discriminate]. intros [= <-]. simpl.
  split; [apply force_odd_odd | apply force_odd_bounds].
Qed.

Lemma estimate_length_odd_witness :
  exists e, estimate (F:=R) (ofZ Rs) delta_w = Ok e /\
            Z.odd (kaiserLength e) = true.
Proof.
  eexists. split.
  - unfold estimate. rewrite delta_w_positive. reflexivity.
  - eapply (estimate_length_odd (ofZ Rs) delta_w).
    unfold estimate. rewrite delta_w_positive. reflexivity.
Defined.

(** C5. The script and the contract disagree on the script's own inputs:
    [estimate] returns length 17 where the script uses 18.  In general the
    script's increment coincides with the forced-odd length exactly when
    the formula gives an even number. *)
Theorem M_kaiser_vs_estimate :
  (exists b, estimate (F:=R) (ofZ Rs) delta_w =
             Ok {| kaiserLength := 17; kaiserBeta := b |}) /\
  M_kaiser (F:=R) <> 17%Z /\
  (forall a w : R, (kaiser_length a w + 1)%Z = force_odd (kaiser_length a w)
                   <-> Z.even (kaiser_length a w) = true).
Proof.
  repeat split.
  - exists (kaiser_beta (ofZ Rs)). unfold estimate.
    rewrite delta_w_positive. cbn [bind guard].
    now rewrite kaiser_length_script.
  - rewrite M_kaiser_R. discriminate.
  - intros Hs. now apply force_odd_succ_iff.
  - intros Hs. symmetry. now apply force_odd_succ_iff.
Qed.

(** C8. In binary64, as Python computes it, the transition width is not
    the double of the literal [0.2] (it is two units in the last place
    below, within 2^-54 of 1/5), and the estimate is nevertheless the one
    obtained over the reals: length 17, [M_kaiser = 18]. *)
Theorem M_kaiser_b64 :
  delta_w (F:=b64) <> dec 2 1 /\
  b64_within delta_w (1 # 5) (1 # 2 ^ 54) = true /\
  kaiser_length (F:=b64) (ofZ Rs) delta_w = kaiser_length (F:=R) (ofZ Rs) delta_w /\
  M_kaiser (F:=b64) = M_kaiser (F:=R).
Proof.
  rewrite kaiser_length_script, M_kaiser_R. repeat split.
  vm_compute. discriminate.
Qed.

(** C7. The shape parameter is a non-decreasing function of the
    attenuation (spec section 8). *)
Theorem kaiser_beta_monotone (a b : R) :
  (a <= b)%R -> (kaiser_beta a <= kaiser_beta b)%R.
Proof.
  intros Hab. destruct (Rle_lt_dec a 21) as [Ha|Ha].
  { rewrite (kaiser_beta_low a) by assumption. apply kaiser_beta_nonneg. }
  destruct (Rle_lt_dec b 50) as [Hb|Hb].
  { rewrite !kaiser_beta_mid by lra. apply beta_mid_mono. lra. }
  rewrite (kaiser_beta_high b) by assumption.
  destruct (Rle_lt_dec a 50) as [Ha'|Ha'].
  - pose proof (kaiser_beta_le_at_50 a ltac:(lra)). pose proof beta_mid_29. lra.
  - rewrite kaiser_beta_high by assumption. lra.
Qed.

Lemma kaiser_beta_monotone_witness :
  (beta_kaiser (F:=R) <= kaiser_beta (F:=R) 40)%R.
Proof. apply (kaiser_beta_monotone (IZR Rs) 40). unfold Rs. lra. Defined.

(** The shape parameter is continuous at 21 dB, where the first two
    branches meet: it tends to [kaiser_beta 21 = 0]. *)
Theorem kaiser_beta_continuous_21 (eps : R) :
  (0 < eps)%R ->
  exists delta, (0 < delta)%R /\
    forall a, (Rabs (a - 21) < delta)%R ->
              (Rabs (kaiser_beta a - kaiser_beta 21) < eps)%R.
Proof.
  intros He. rewrite (kaiser_beta_low 21) by lra.
  exists (Rmin 1 (Rmin eps (Rpower eps 2.5))). split.
  - repeat apply Rmin_glb_lt; try lra. apply exp_pos.
  - intros a Ha. rewrite Rminus_0_r, Rabs_pos_eq by apply kaiser_beta_nonneg.
    apply Rmin_Rgt_l in Ha as [Ha1 Ha2]. apply Rmin_Rgt_l in Ha2 as [Ha2 Ha3].
    destruct (Rle_lt_dec a 21) as [H|H].
    + now rewrite kaiser_beta_low.
    + rewrite Rabs_pos_eq in Ha1, Ha2, Ha3 by lra.
      rewrite kaiser_beta_mid by lra. apply beta_mid_small; lra.
Qed.

Lemma kaiser_beta_continuous_21_witness :
  exists delta, (0 < delta)%R /\
    forall a, (Rabs (a - 21) < delta)%R ->
              (Rabs (kaiser_beta a - kaiser_beta 21) < 1 / 100)%R.
Proof. apply kaiser_beta_continuous_21. lra. Defined.

(** C29. At 50 dB the shape parameter jumps: it is below 4.54 up to 50 dB
    and above 4.55 beyond, so it is not continuous there, contrary to the
    continuity stated in spec section 8. *)
Theorem kaiser_beta_jump_50 (a b : R) :
  (a <= 50 < b)%R -> (kaiser_beta a < 4.54 /\ 4.55 < kaiser_beta b)%R.
Proof.
  intros [Ha Hb]. split.
  - destruct (Rle_lt_dec a 21) as [H|H].
    + rewrite kaiser_beta_low by assumption. lra.
    + pose proof (kaiser_beta_le_at_50 a ltac:(lra)). pose proof beta_mid_29. lra.
  - rewrite kaiser_beta_high by assumption. lra.
Qed.

Lemma kaiser_beta_jump_50_witness :
  (beta_kaiser (F:=R) < 4.54 /\ 4.55 < kaiser_beta (F:=R) 50.001)%R.
Proof. apply (kaiser_beta_jump_50 (IZR Rs) 50.001). unfold Rs. lra. Defined.

(** C30. The shape parameter the script obtains for 30 dB lies between
    2.1166 and 2.1167; the value 3.395 quoted in spec section 8 is the
    shape parameter of 40 dB. *)
Theorem beta_kaiser_bounds :
  (2.1166 < beta_kaiser (F:=R) < 2.1167)%R /\
  (3.3953 < kaiser_beta (F:=R) 40 < 3.3954)%R.
Proof.
  split; [exact beta_kaiser_enclosure|].
  rewrite kaiser_beta_mid by lra.
  replace (40 - 21)%R with 19%R by lra.
  pose proof (beta_mid_bounds 19 3.24714 3.24715 ltac:(lra) ltac:(lra) ltac:(lra)).
  lra.
Qed.

(** [estimate] is total with two outcomes: a non-positive width is
    answered by [InvalidTransitionWidth], a positive one by the forced-odd
    length and the shape parameter. *)
Theorem estimate_total (a w : R) :
  ((w <= 0)%R /\ estimate a w = Err InvalidTransitionWidth) \/
  ((0 < w)%R /\
   estimate a w = Ok {| kaiserLength := force_odd (kaiser_length a w);
                        kaiserBeta := kaiser_beta a |}).
Proof.
  unfold estimate. num_R. destruct (Rltb_spec 0 w) as [Hw|Hw]; simpl.
  - right. now split.
  - left. split; [lra | reflexivity].
Qed.

(** The estimated length grows with the attenuation and shrinks with
    the transition width, and is at least 2 above 8 dB. *)
Theorem kaiser_length_monotone (a1 a2 w1 w2 : R) :
  (8 < a1 <= a2)%R -> (0 < w1 <= w2)%R ->
  (2 <= kaiser_length a1 w2 <= kaiser_length a2 w1)%Z.
Proof.
  intros Ha Hw. split.
  - apply kaiser_length_ge_2; lra.
  - transitivity (kaiser_length a2 w2).
    + apply kaiser_length_mono_a; lra.
    + apply kaiser_length_anti_w; lra.
Qed.

Lemma kaiser_length_monotone_witness :
  (2 <= kaiser_length 30%R (1 / 5)%R <= kaiser_length 40%R (1 / 10)%R)%Z.
Proof. apply kaiser_length_monotone; lra. Defined.
