(* ===== verification/Designs.v ===== *)
(** * Designs: the arguments of the four designs and the designers' contracts

    The script calls [firwin] twice (lines 27 and 43), [remez] (line 58),
    [firwin2] (line 70) and [freqz] (lines 75-78).  This file holds the
    values it passes (lengths, cut-offs, band lists, gains, sampling-rate
    keywords) and the input contracts of spec sections 4.2 to 4.6 as
    validators returning [result].

    Proved here: the validators decide the well-formedness they name; they
    commute with any morphism of [Num] and with a change of frequency unit;
    the cut-off is the midpoint of the normalised edges; the band list of
    the Remez call is rejected for the Nyquist frequency its [fs] keyword
    implies and accepted for Nyquist 1; the breakpoints of the
    frequency-sampling call are accepted. *)

From Stdlib Require Import ZArith QArith Qreals Qround Reals Lra Lia Bool List.
From S2P Require Import Prelude.
From S2P Require Import Numeric.
From S2P Require Import Normalizer.
From S2P Require Import Kaiser.
Import ListNotations.

Local Open Scope num_scope.

(** ** Arguments of a call *)

Inductive window (F : Type) : Type :=
| Hann
| KaiserWindow (beta : F).

Arguments Hann {F}.
Arguments KaiserWindow {F} beta.

Record firwin_call (F : Type) : Type := {
  fw_numtaps : Z;
  fw_cutoff : F;
  fw_window : window F
}.

Record remez_call (F : Type) : Type := {
  rz_numtaps : Z;
  rz_bands : list F;
  rz_desired : list F;
  rz_fs : F
}.

Record firwin2_call (F : Type) : Type := {
  f2_numtaps : Z;
  f2_freq : list F;
  f2_gain : list F;
  f2_fs : F
}.

Arguments fw_numtaps {F} _.
Arguments fw_cutoff {F} _.
Arguments fw_window {F} _.
Arguments rz_numtaps {F} _.
Arguments rz_bands {F} _.
Arguments rz_desired {F} _.
Arguments rz_fs {F} _.
Arguments f2_numtaps {F} _.
Arguments f2_freq {F} _.
Arguments f2_gain {F} _.
Arguments f2_fs {F} _.

(** ** Contracts that do not depend on the number type *)

(** Spec 4.2: [InvalidLength] if the length is even or below 3. *)
Definition check_length (n : Z) : result unit :=
  guard (Z.odd n && (3 <=? n)%Z) InvalidLength.

(** Spec 4.6: [InvalidGridSize] if there are fewer than 2 points. *)
Definition check_grid (n : Z) : result unit :=
  guard (2 <=? n)%Z InvalidGridSize.

(** Length of the Hann design (line 24) and size of the grid (line 74). *)
Definition M_window : Z := 47.
Definition N_fft : Z := 2048.

Section WithNum.
Context {F : Type} `{Num F}.

Definition eqF (x y : F) : bool := (x <=? y) && (y <=? x).

(** ** Contracts on frequency lists *)

(** Bands as consecutive pairs [lo; hi]: each band has [lo < hi] and starts
    no lower than the end of the previous one. *)
Fixpoint bands_ok (prev : F) (l : list F) : bool :=
  match l with
  | [] => true
  | [_] => false
  | lo :: hi :: rest => (prev <=? lo) && (lo <? hi) && bands_ok hi rest
  end.

Definition starts_at_zero (l : list F) : bool :=
  match l with
  | [] => false
  | x :: _ => eqF x (ofZ 0)
  end.

Definition ends_at (nyquist : F) (l : list F) : bool :=
  eqF (last l (ofZ 0)) nyquist.

(** Spec 4.4: [InvalidBandSpec] unless the edges increase, do not overlap
    and cover [0, Nyquist]. *)
Definition validate_bands (nyquist : F) (bands : list F) : result unit :=
  guard (starts_at_zero bands && bands_ok (ofZ 0) bands && ends_at nyquist bands)
        InvalidBandSpec.

Fixpoint strictly_increasing (l : list F) : bool :=
  match l with
  | x :: (y :: _) as t => (x <? y) && strictly_increasing t
  | _ => true
  end.

(** Spec 4.5: [InvalidBreakpoints] unless the frequencies increase strictly
    and there is one gain per frequency. *)
Definition validate_breakpoints (freq gain : list F) : result unit :=
  guard (strictly_increasing freq && (length freq =? length gain)%nat)
        InvalidBreakpoints.

(** The Nyquist frequency a designer derives from its [fs] keyword. *)
Definition nyquist_of (fs : F) : F := fs / ofZ 2.

Definition remez_validate (c : remez_call F) : result unit :=
  validate_bands (nyquist_of (rz_fs c)) (rz_bands c).

Definition firwin2_validate (c : firwin2_call F) : result unit :=
  validate_breakpoints (f2_freq c) (f2_gain c).

Definition firwin_validate (c : firwin_call F) : result unit :=
  check_length (fw_numtaps c).

(** ** The script's arguments *)

(** Cut-off of the two window designs (lines 26 and 40). *)
Definition Fc_window : F := ofZ (F_pass + F_stop) / ofZ 2 / (ofZ Fs / ofZ 2).
Definition Fc_kaiser : F := ofZ (F_pass + F_stop) / ofZ 2 / (ofZ Fs / ofZ 2).

(** Line 27. *)
Definition h_window_call : firwin_call F :=
  {| fw_numtaps := M_window; fw_cutoff := Fc_window; fw_window := Hann |}.

(** Lines 53-54. *)
Definition bands_remez : list F := [ofZ 0; wp; ws; ofZ 1].
Definition desired_amps_remez : list F := [ofZ 1; ofZ 0].

(** Lines 65-66. *)
Definition bands_firls : list F := [ofZ 0; ofZ F_pass; ofZ F_stop; ofZ Fs / ofZ 2].
Definition desired_amps_firls : list F := [ofZ 1; ofZ 1; ofZ 0; ofZ 0].

Context `{!Round F}.

(** Lines 47 and 62. *)
Definition M_remez : Z := M_kaiser.
Definition M_firls : Z := M_kaiser.

(** Line 58: the keyword is [fs=Fs/2]. *)
Definition h_remez_call : remez_call F :=
  {| rz_numtaps := M_remez; rz_bands := bands_remez;
     rz_desired := desired_amps_remez; rz_fs := ofZ Fs / ofZ 2 |}.

(** Line 70: the keyword is [fs=Fs]. *)
Definition h_firls_call : firwin2_call F :=
  {| f2_numtaps := M_firls; f2_freq := bands_firls;
     f2_gain := desired_amps_firls; f2_fs := ofZ Fs |}.

Context `{!Transc F}.

(** Line 43. *)
Definition h_kaiser_call : firwin_call F :=
  {| fw_numtaps := M_kaiser; fw_cutoff := Fc_kaiser;
     fw_window := KaiserWindow beta_kaiser |}.

End WithNum.

(** Well-formed bands over the reals, as a proposition. *)
Fixpoint bands_wf (prev : R) (l : list R) : Prop :=
  match l with
  | [] => True
  | [_] => False
  | lo :: hi :: rest => (prev <= lo < hi)%R /\ bands_wf hi rest
  end.

(** ** Lemmas: contracts on lengths *)

Lemma check_length_Ok (n : Z) :
  check_length n = Ok tt <-> Z.odd n = true /\ (3 <= n)%Z.
Proof.
  unfold check_length. rewrite guard_Ok, andb_true_iff, Z.leb_le. tauto.
Qed.

Lemma check_length_Err (n : Z) :
  check_length n = Err InvalidLength <-> Z.even n = true \/ (n < 3)%Z.
Proof.
  unfold check_length. rewrite guard_Err, andb_false_iff, Z.leb_gt.
  rewrite <- Z.negb_even, negb_false_iff. intuition lia.
Qed.

Lemma check_grid_Ok (n : Z) : check_grid n = Ok tt <-> (2 <= n)%Z.
Proof. unfold check_grid. now rewrite guard_Ok, Z.leb_le. Qed.

(** ** Lemmas: contracts on frequency lists over the reals *)

Lemma eqF_R (x y : R) : eqF x y = true <-> x = y.
Proof.
  unfold eqF. num_R. rewrite andb_true_iff, !Rleb_le. split; intros; lra.
Qed.

Lemma bands_ok_wf (l : list R) : forall prev,
  bands_ok prev l = true <-> bands_wf prev l.
Proof.
  induction l as [|x|lo hi rest IH] using list_pair_ind; intros prev; simpl.
  - tauto.
  - split; [discriminate | tauto].
  - rewrite !andb_true_iff, IH. num_R. rewrite Rleb_le, Rltb_lt. tauto.
Qed.

Lemma strictly_increasing_cons (x y : R) (l : list R) :
  strictly_increasing (x :: y :: l) = true <->
  (x < y)%R /\ strictly_increasing (y :: l) = true.
Proof. simpl. rewrite andb_true_iff. num_R. now rewrite Rltb_lt. Qed.

(** ** Lemmas: the validators commute with morphisms *)

Section Hom.
Context {A B : Type} `{Num A} `{Num B} (h : A -> B) `{!NumHom h}.

Lemma eqF_hom (x y : A) : eqF (h x) (h y) = eqF x y.
Proof. unfold eqF. now rewrite <- !(hom_leb h). Qed.

Lemma bands_ok_hom (l : list A) : forall prev,
  bands_ok (h prev) (map h l) = bands_ok prev l.
Proof.
  induction l as [|x|lo hi rest IH] using list_pair_ind; intros prev; simpl;
    try reflexivity.
  now rewrite <- (hom_leb h), <- (hom_ltb h), IH.
Qed.

Lemma last_hom (l : list A) (d : A) : last (map h l) (h d) = h (last l d).
Proof.
  induction l as [|x [|y l] IH]; simpl; try reflexivity. exact IH.
Qed.

Lemma starts_at_zero_hom (l : list A) :
  starts_at_zero (map h l) = starts_at_zero l.
Proof.
  destruct l as [|x l]; simpl; [reflexivity|].
  now rewrite <- (hom_ofZ h), eqF_hom.
Qed.

Lemma validate_bands_hom (nyq : A) (l : list A) :
  validate_bands (h nyq) (map h l) = validate_bands nyq l.
Proof.
  unfold validate_bands, ends_at.
  rewrite starts_at_zero_hom. rewrite <- (hom_ofZ h) at 1 2.
  now rewrite bands_ok_hom, last_hom, eqF_hom.
Qed.

Lemma strictly_increasing_hom (l : list A) :
  strictly_increasing (map h l) = strictly_increasing l.
Proof.
  induction l as [|x [|y l] IH]; simpl; try reflexivity.
  simpl in IH. now rewrite <- (hom_ltb h), IH.
Qed.

Lemma validate_breakpoints_hom (f g : list A) :
  validate_breakpoints (map h f) (map h g) = validate_breakpoints f g.
Proof.
  unfold validate_breakpoints.
  now rewrite strictly_increasing_hom, !length_map.
Qed.

Lemma nyquist_of_hom (fs : A) : h (nyquist_of fs) = nyquist_of (h fs).
Proof. unfold nyquist_of. now hom_push h. Qed.

Lemma bands_remez_hom : map h bands_remez = bands_remez.
Proof.
  unfold bands_remez, wp, ws. simpl.
  now rewrite !(normalize_edge_hom h), !(hom_ofZ h).
Qed.

Lemma bands_firls_hom : map h bands_firls = bands_firls.
Proof. unfold bands_firls. simpl. now hom_push h. Qed.

Lemma desired_amps_firls_hom : map h desired_amps_firls = desired_amps_firls.
Proof. unfold desired_amps_firls. simpl. now hom_push h. Qed.

Lemma Fc_window_hom : h Fc_window = Fc_window.
Proof. unfold Fc_window. now hom_push h. Qed.

End Hom.

(** ** Lemmas: change of frequency unit *)

Section Scale.
Variable c : R.
Hypothesis Hc : (0 < c)%R.

Lemma Rltb_scale (x y : R) : Rltb (c * x) (c * y) = Rltb x y.
Proof.
  destruct (Rltb_spec x y) as [Hxy|Hxy].
  - apply Rltb_lt. now apply Rmult_lt_compat_l.
  - apply Rltb_ge. apply Rmult_le_compat_l; lra.
Qed.

Lemma Rleb_scale (x y : R) : Rleb (c * x) (c * y) = Rleb x y.
Proof.
  destruct (Rleb_spec x y) as [Hxy|Hxy].
  - apply Rleb_le. apply Rmult_le_compat_l; lra.
  - apply Rleb_gt. apply Rmult_lt_compat_l; lra.
Qed.

Lemma eqF_scale (x y : R) : eqF (c * x)%R (c * y)%R = eqF x y.
Proof. unfold eqF. num_R. now rewrite !Rleb_scale. Qed.

Lemma bands_ok_scale (l : list R) : forall prev,
  bands_ok (c * prev)%R (map (Rmult c) l) = bands_ok prev l.
Proof.
  induction l as [|x|lo hi rest IH] using list_pair_ind; intros prev; simpl;
    try reflexivity.
  num_R. now rewrite Rleb_scale, Rltb_scale, IH.
Qed.

Lemma last_scale (l : list R) : last (map (Rmult c) l) 0%R = (c * last l 0)%R.
Proof.
  induction l as [|x [|y l] IH]; simpl; try reflexivity; [lra | exact IH].
Qed.

Lemma starts_at_zero_scale (l : list R) :
  starts_at_zero (map (Rmult c) l) = starts_at_zero l.
Proof.
  destruct l as [|x l]; simpl; [reflexivity|]. num_R.
  rewrite <- (eqF_scale x 0). f_equal. lra.
Qed.

End Scale.

(** ** Lemmas: the script's arguments *)

Lemma normalize_edge_midpoint (fs a b : R) :
  normalize_edge fs ((a + b) / 2)%R
  = ((normalize_edge fs a + normalize_edge fs b) / 2)%R.
Proof.
  rewrite !normalize_edge_R. destruct (Req_dec fs 0) as [->|Hfs].
  - replace (0 / 2)%R with 0%R by lra. unfold Rdiv. rewrite Rinv_0. lra.
  - field. assumption.
Qed.

Lemma Fc_window_R : Fc_window (F:=R) = (1 / 2)%R.
Proof. unfold Fc_window, F_pass, F_stop, Fs. num_R. simpl. lra. Qed.

Lemma remez_validate_script {F : Type} `{Num F} `{!Round F} :
  remez_validate (F:=F) h_remez_call
  = validate_bands (nyquist_of (ofZ Fs / ofZ 2)) bands_remez.
Proof. reflexivity. Qed.

Lemma validate_bands_script_Q :
  validate_bands (F:=Q) (nyquist_of (ofZ Fs / ofZ 2)) bands_remez
  = Err InvalidBandSpec /\
  validate_bands (F:=Q) (ofZ 1) bands_remez = Ok tt.
Proof. split; vm_compute; reflexivity. Qed.

(** ** Properties *)

(** C2. The band list of the Remez call (line 53) is expressed with
    Nyquist 1, but the call of line 58 passes [fs=Fs/2], whose Nyquist
    frequency is 1250: the contract of spec 4.4 rejects the call with
    [InvalidBandSpec], in [R] and in binary64, while the same list is
    accepted for Nyquist 1. *)
Theorem remez_call_rejected :
  nyquist_of (rz_fs (h_remez_call (F:=R))) = 1250%R /\
  remez_validate (h_remez_call (F:=R)) = Err InvalidBandSpec /\
  remez_validate (h_remez_call (F:=b64)) = Err InvalidBandSpec /\
  validate_bands (F:=R) 1%R bands_remez = Ok tt.
Proof.
  destruct validate_bands_script_Q as [HQ1 HQ2].
  split; [|split; [|split]].
  - cbn [rz_fs h_remez_call]. unfold nyquist_of, Fs. num_R. lra.
  - rewrite remez_validate_script, <- HQ1.
    rewrite <- (bands_remez_hom Q2R), <- (validate_bands_hom Q2R).
    rewrite (nyquist_of_hom Q2R). now hom_push Q2R.
  - vm_compute. reflexivity.
  - rewrite <- HQ2, <- (bands_remez_hom Q2R), <- (validate_bands_hom Q2R).
    now hom_push Q2R.
Qed.

(** The band list of line 53 over the reals. *)
Lemma bands_remez_R : bands_remez (F:=R) = [0; 2 / 5; 3 / 5; 1]%R.
Proof.
  unfold bands_remez, wp, ws. rewrite !normalize_edge_R.
  unfold Fs, F_pass, F_stop. num_R. repeat (f_equal; try lra).
Qed.

(** [validate_bands] accepts a list exactly when it starts at 0, ends
    at the Nyquist frequency and its bands are non-empty, ordered and
    disjoint. *)
Theorem validate_bands_spec (nyq : R) (l : list R) :
  validate_bands nyq l = Ok tt <->
  (exists x l', l = x :: l' /\ x = 0%R) /\ bands_wf 0%R l /\ last l 0%R = nyq.
Proof.
  unfold validate_bands, ends_at. rewrite guard_Ok, !andb_true_iff.
  rewrite bands_ok_wf, eqF_R. num_R.
  destruct l as [|x l']; simpl starts_at_zero.
  - split; [intros [[[=] _] _] | intros [(x & l' & [=] & _) _]].
  - rewrite eqF_R. split.
    + intros [[-> Hw] Hl]. repeat split; eauto.
    + intros [(x' & l'' & [= <- <-] & ->) [Hw Hl]]. tauto.
Qed.

(** C34. Band validation does not depend on the unit of frequency: scaling
    the edges and the Nyquist frequency by a positive factor leaves the
    answer unchanged. *)
Theorem validate_bands_scale (c nyq : R) (l : list R) :
  (0 < c)%R ->
  validate_bands (c * nyq)%R (map (Rmult c) l) = validate_bands nyq l.
Proof.
  intros Hc. unfold validate_bands, ends_at. num_R.
  rewrite starts_at_zero_scale, last_scale, eqF_scale by assumption.
  rewrite <- (Rmult_0_r c) at 1. now rewrite bands_ok_scale.
Qed.

Lemma validate_bands_scale_witness :
  validate_bands (2500 * 1)%R (map (Rmult 2500) bands_remez)
  = validate_bands (F:=R) 1%R bands_remez.
Proof. apply validate_bands_scale. lra. Defined.

(** The breakpoints of the frequency-sampling call are accepted: they
    increase strictly from 0 to the Nyquist frequency of [fs=Fs], with one
    gain each. *)
Theorem firls_call_accepted :
  firwin2_validate (h_firls_call (F:=R)) = Ok tt /\
  starts_at_zero (f2_freq (h_firls_call (F:=R))) = true /\
  ends_at (nyquist_of (f2_fs (h_firls_call (F:=R))))
          (f2_freq (h_firls_call (F:=R))) = true.
Proof.
  assert (HQ : validate_breakpoints (F:=Q) bands_firls desired_amps_firls = Ok tt)
    by (vm_compute; reflexivity).
  unfold firwin2_validate. cbn [f2_freq f2_gain f2_fs h_firls_call].
  split; [|split].
  - rewrite <- HQ, <- (bands_firls_hom Q2R), <- (desired_amps_firls_hom Q2R).
    apply (validate_breakpoints_hom Q2R).
  - apply eqF_R. reflexivity.
  - unfold ends_at, nyquist_of. apply eqF_R. reflexivity.
Qed.

(** The cut-off of both window designs is the midpoint of the
    normalised band edges: 1/2 in [R] and [Q], and exactly the double 0.5
    in binary64. *)
Theorem Fc_midpoint :
  Fc_window (F:=R) = ((wp + ws) / 2)%R /\
  Fc_kaiser (F:=R) = (1 / 2)%R /\
  (Fc_window (F:=Q) == 1 # 2)%Q /\
  Fc_window (F:=b64) = dec 5 1.
Proof.
  repeat split; try reflexivity.
  - rewrite Fc_window_R. unfold wp, ws.
    rewrite <- normalize_edge_midpoint, normalize_edge_R.
    unfold F_pass, F_stop, Fs. num_R. lra.
  - exact Fc_window_R.
Qed.

(** [check_length] accepts exactly the odd lengths from 3 on, and the
    grid of 2048 points satisfies the contract of the evaluator. *)
Theorem check_length_total (n : Z) :
  (Z.odd n = true /\ (3 <= n)%Z /\ check_length n = Ok tt) \/
  ((Z.even n = true \/ (n < 3)%Z) /\ check_length n = Err InvalidLength).
Proof.
  destruct (check_length n) as [[]|e] eqn:E.
  - left. apply check_length_Ok in E. tauto.
  - right. unfold check_length in E. apply guard_Err in E as [E <-].
    split; [|reflexivity]. apply check_length_Err.
    unfold check_length. now rewrite E.
Qed.
