(* ===== verification/Window.v ===== *)
(** * Window: the windowed-sinc designer

    Lines 27 and 43 of [src/66.py] call [firwin] for the Hann and the Kaiser
    design.  [firwin] follows spec section 4.2: the ideal low-pass response
    (a sinc centred at [(M-1)/2], scaled by the cut-off) is multiplied by
    the window and the result is normalised to unit gain at frequency zero;
    an even length or a length below 3 is answered by [InvalidLength].
    [h_window] and [h_kaiser] are the script's two calls.

    The Bessel function of the Kaiser window is summed term by term until a
    term falls below [i0_tol] times the sum, with at most [i0_fuel] terms.

    Proved here: the length and the symmetry of every design of [firwin],
    the zero end taps of the Hann design, the zero taps of a design at
    cut-off 1/2, the values of [sinc] at the integers, the rejection of the
    script's Kaiser design. *)

From Stdlib Require Import ZArith QArith Qreals Reals Lra Lia Bool List.
From S2P Require Import Prelude.
From S2P Require Import Numeric.
From S2P Require Import Normalizer.
From S2P Require Import Kaiser.
From S2P Require Import Designs.
Import ListNotations.

Local Open Scope num_scope.

Section WithNum.
Context {F : Type} `{Num F}.

Definition sumF (l : list F) : F := fold_right add (ofZ 0) l.

(** The tap indices [0 .. M-1]. *)
Definition indices (M : Z) : list Z := map Z.of_nat (seq 0 (Z.to_nat M)).

(** Division of every tap by the sum of the taps. *)
Definition normalize_dc (l : list F) : list F := map (fun x => x / sumF l) l.

(** ** The modified Bessel function of order zero *)

Definition i0_fuel : nat := 64.
Definition i0_tol : F := dec 1 12.

(** One term per iteration: [term_k = term_(k-1) * (x/2)^2 / k^2]. *)
Fixpoint i0_loop (fuel : nat) (k : Z) (term sum q : F) : F :=
  match fuel with
  | O => sum
  | S fuel' =>
      let term' := term * q / (ofZ k * ofZ k) in
      let sum' := sum + term' in
      if term' <? i0_tol * sum' then sum'
      else i0_loop fuel' (k + 1)%Z term' sum' q
  end.

Definition bessel_i0 (x : F) : F :=
  i0_loop i0_fuel 1 (ofZ 1) (ofZ 1) ((x / ofZ 2) * (x / ofZ 2)).

Context `{!Round F} `{!Transc F}.

(** ** The ideal response and the windows *)

Definition sinc (x : F) : F :=
  if eqF x (ofZ 0) then ofZ 1 else sinF (pi * x) / (pi * x).

Definition center (M : Z) : F := ofZ (M - 1) / ofZ 2.

Definition ideal_lowpass (M : Z) (fc : F) (n : Z) : F :=
  fc * sinc (fc * (ofZ n - center M)).

Definition hann (M n : Z) : F :=
  dec 5 1 - dec 5 1 * cosF (ofZ 2 * pi * ofZ n / ofZ (M - 1)).

Definition kaiser_coeff (M : Z) (beta : F) (n : Z) : F :=
  let r := ofZ 2 * ofZ n / ofZ (M - 1) - ofZ 1 in
  bessel_i0 (beta * sqrtF (ofZ 1 - r * r)) / bessel_i0 beta.

Definition window_coeff (w : window F) (M n : Z) : F :=
  match w with
  | Hann => hann M n
  | KaiserWindow beta => kaiser_coeff M beta n
  end.

(** ** The designer *)

Definition raw_taps (M : Z) (fc : F) (w : window F) : list F :=
  map (fun n => ideal_lowpass M fc n * window_coeff w M n) (indices M).

Definition firwin (M : Z) (fc : F) (w : window F) : result (list F) :=
  (_ <- check_length M ;; Ok (normalize_dc (raw_taps M fc w)))%res.

Definition firwin_run (c : firwin_call F) : result (list F) :=
  firwin (fw_numtaps c) (fw_cutoff c) (fw_window c).

(** ** The script's two window designs (lines 27 and 43) *)

Definition h_window : result (list F) := firwin_run h_window_call.
Definition h_kaiser : result (list F) := firwin_run h_kaiser_call.

End WithNum.

(** ** Lemmas: lists of taps *)

Lemma sumF_R (l : list R) : sumF l = Rsum l.
Proof. reflexivity. Qed.

Lemma length_indices (M : Z) : length (indices M) = Z.to_nat M.
Proof. unfold indices. now rewrite length_map, length_seq. Qed.

Lemma nth_indices (M n : Z) :
  (0 <= n < M)%Z -> nth (Z.to_nat n) (indices M) 0%Z = n.
Proof.
  intros Hn. unfold indices.
  rewrite (nth_indep _ 0%Z (Z.of_nat 0)) by (rewrite length_map, length_seq; lia).
  rewrite map_nth, seq_nth by lia. lia.
Qed.

Lemma In_indices (M n : Z) : In n (indices M) <-> (0 <= n < M)%Z.
Proof.
  unfold indices. rewrite in_map_iff. split.
  - intros (k & <- & Hk). apply in_seq in Hk. lia.
  - intros Hn. exists (Z.to_nat n). split; [lia|]. apply in_seq. lia.
Qed.

Lemma Rsum_normalize_dc (l : list R) :
  Rsum l <> 0%R -> Rsum (normalize_dc l) = 1%R.
Proof.
  intros Hs. unfold normalize_dc.
  change (Rsum (map (fun x : R => (x * / Rsum l)%R) l) = 1%R).
  rewrite Rsum_map_scale. now apply Rinv_r.
Qed.

Lemma Rsum_normalize_dc_zero (l : list R) :
  Rsum l = 0%R -> normalize_dc l = map (fun _ => 0%R) l.
Proof.
  intros Hs. unfold normalize_dc. apply map_ext. intros x.
  change ((x * / Rsum l)%R = 0%R). rewrite Hs, Rinv_0. lra.
Qed.

Lemma odd_pred_half (M : Z) :
  Z.odd M = true -> (M - 1 = 2 * ((M - 1) / 2))%Z.
Proof.
  intros Hodd. rewrite Z.odd_spec in Hodd. destruct Hodd as [k ->].
  replace (2 * k + 1 - 1)%Z with (k * 2)%Z by lia.
  rewrite Z.div_mul by lia. lia.
Qed.

(** ** Lemmas: sinc *)

Lemma sinc_0 : sinc (F:=R) 0%R = 1%R.
Proof.
  unfold sinc. assert (E : eqF 0%R (ofZ 0) = true) by now apply eqF_R.
  now rewrite E.
Qed.

Lemma sinc_nonzero (x : R) :
  x <> 0%R -> sinc x = (sin (PI * x) / (PI * x))%R.
Proof.
  intros Hx. unfold sinc.
  destruct (eqF x (ofZ 0)) eqn:E; [|reflexivity].
  apply eqF_R in E. contradiction.
Qed.

Lemma sinc_integer (k : Z) : k <> 0%Z -> sinc (IZR k) = 0%R.
Proof.
  intros Hk. rewrite sinc_nonzero by (apply not_0_IZR; assumption).
  rewrite (sin_eq_0_1 (PI * IZR k)).
  - unfold Rdiv. apply Rmult_0_l.
  - exists k. apply Rmult_comm.
Qed.

Lemma sinc_even (x : R) : sinc (- x)%R = sinc x.
Proof.
  destruct (Req_dec x 0) as [->|Hx].
  - now rewrite Ropp_0.
  - rewrite !sinc_nonzero by lra.
    replace (PI * - x)%R with (- (PI * x))%R by lra.
    rewrite sin_neg. field. pose proof PI_pos. split; lra.
Qed.

(** ** Lemmas: the Hann window *)

Lemma hann_R (M n : Z) :
  hann M n = (0.5 - 0.5 * cos (2 * PI * IZR n / IZR (M - 1)))%R.
Proof. reflexivity. Qed.

Lemma hann_first (M : Z) : hann (F:=R) M 0 = 0%R.
Proof.
  rewrite hann_R. replace (2 * PI * 0 / IZR (M - 1))%R with 0%R.
  - rewrite cos_0. lra.
  - unfold Rdiv. lra.
Qed.

Lemma hann_last (M : Z) : (1 < M)%Z -> hann (F:=R) M (M - 1) = 0%R.
Proof.
  intros HM. rewrite hann_R.
  replace (2 * PI * IZR (M - 1) / IZR (M - 1))%R with (2 * PI)%R.
  - rewrite cos_2PI. lra.
  - field. apply not_0_IZR. lia.
Qed.

Lemma hann_range (M n : Z) : (0 <= hann (F:=R) M n <= 1)%R.
Proof.
  rewrite hann_R.
  pose proof (COS_bound (2 * PI * IZR n / IZR (M - 1))) as [H1 H2]. lra.
Qed.

Lemma hann_symmetric (M n : Z) :
  (1 < M)%Z -> hann (F:=R) M (M - 1 - n) = hann M n.
Proof.
  intros HM. rewrite !hann_R. f_equal. f_equal.
  assert (Hd : IZR (M - 1) <> 0%R) by (apply not_0_IZR; lia).
  replace (2 * PI * IZR (M - 1 - n) / IZR (M - 1))%R
    with (- (2 * PI * IZR n / IZR (M - 1)) + 2 * INR 1 * PI)%R.
  - now rewrite cos_period, cos_neg.
  - rewrite (minus_IZR (M - 1) n). change (INR 1) with 1%R. now field.
Qed.

Lemma hann_center (M : Z) :
  (1 < M)%Z -> Z.odd M = true -> hann (F:=R) M ((M - 1) / 2) = 1%R.
Proof.
  intros HM Hodd. rewrite hann_R.
  pose proof (odd_pred_half M Hodd) as E.
  replace (2 * PI * IZR ((M - 1) / 2) / IZR (M - 1))%R with PI.
  - rewrite cos_PI. lra.
  - rewrite E at 2. rewrite mult_IZR. field.
    apply not_0_IZR. lia.
Qed.

(** ** Lemmas: the ideal response *)

Lemma ideal_lowpass_symmetric (M : Z) (fc : R) (n : Z) :
  ideal_lowpass M fc (M - 1 - n) = ideal_lowpass M fc n.
Proof.
  unfold ideal_lowpass, center. num_R. f_equal.
  rewrite <- sinc_even. f_equal. rewrite !minus_IZR. lra.
Qed.

Lemma ideal_lowpass_center (M : Z) (fc : R) :
  Z.odd M = true -> ideal_lowpass M fc ((M - 1) / 2) = fc.
Proof.
  intros Hodd. unfold ideal_lowpass, center. num_R.
  pose proof (odd_pred_half M Hodd) as E.
  replace (IZR ((M - 1) / 2) - IZR (M - 1) / 2)%R with 0%R.
  - rewrite Rmult_0_r, sinc_0. lra.
  - rewrite E at 2. rewrite mult_IZR. lra.
Qed.

(** ** Lemmas: the taps *)

Lemma nth_map_indices {A : Type} (f : Z -> A) (d : A) (M n : Z) :
  (0 <= n < M)%Z -> nth (Z.to_nat n) (map f (indices M)) d = f n.
Proof.
  intros Hn. rewrite (nth_indep _ d (f 0%Z)) by (rewrite length_map, length_indices; lia).
  now rewrite map_nth, nth_indices.
Qed.

Lemma rev_seq (n : nat) :
  rev (seq 0 n) = map (fun k => (n - 1 - k)%nat) (seq 0 n).
Proof.
  induction n as [|n IH]; [reflexivity|].
  rewrite seq_S at 1. rewrite rev_app_distr. cbn [rev app plus].
  rewrite IH. cbn [seq map]. rewrite <- seq_shift, map_map.
  f_equal; [lia|]. apply map_ext_in. intros k Hk. apply in_seq in Hk. lia.
Qed.

Lemma rev_indices (M : Z) :
  rev (indices M) = map (fun n => (M - 1 - n)%Z) (indices M).
Proof.
  unfold indices. rewrite <- map_rev, rev_seq, !map_map.
  apply map_ext_in. intros k Hk. apply in_seq in Hk. lia.
Qed.

Lemma rev_map_indices {A : Type} (f : Z -> A) (M : Z) :
  (forall n, (0 <= n < M)%Z -> f (M - 1 - n)%Z = f n) ->
  rev (map f (indices M)) = map f (indices M).
Proof.
  intros Hf. rewrite <- map_rev, rev_indices, map_map.
  apply map_ext_in. intros n Hn. apply Hf. now apply In_indices.
Qed.

Lemma length_raw_taps {F : Type} `{Num F} `{!Round F} `{!Transc F}
    (M : Z) (fc : F) (w : window F) :
  length (raw_taps M fc w) = Z.to_nat M.
Proof. unfold raw_taps. now rewrite length_map, length_indices. Qed.

Lemma length_normalize_dc {F : Type} `{Num F} (l : list F) :
  length (normalize_dc l) = length l.
Proof. apply length_map. Qed.

Lemma normalize_dc_rev (l : list R) :
  rev l = l -> rev (normalize_dc l) = normalize_dc l.
Proof. intros E. unfold normalize_dc. now rewrite <- map_rev, E. Qed.

Lemma nth_normalize_dc (l : list R) (k : nat) :
  nth k (normalize_dc l) 0%R = (nth k l 0 / Rsum l)%R.
Proof.
  unfold normalize_dc.
  change (nth k (map (fun x : R => (x / Rsum l)%R) l) 0%R = (nth k l 0 / Rsum l)%R).
  destruct (Nat.lt_ge_cases k (length l)) as [Hk|Hk].
  - rewrite (nth_indep _ 0%R (0 / Rsum l)%R) by now rewrite length_map.
    apply (map_nth (fun x : R => (x / Rsum l)%R)).
  - rewrite !nth_overflow by (rewrite ?length_map; assumption).
    unfold Rdiv. now rewrite Rmult_0_l.
Qed.

Lemma nth_raw_taps (M : Z) (fc : R) (w : window R) (n : Z) :
  (0 <= n < M)%Z ->
  nth (Z.to_nat n) (raw_taps M fc w) 0%R
  = (ideal_lowpass M fc n * window_coeff w M n)%R.
Proof. intros Hn. unfold raw_taps. now rewrite nth_map_indices. Qed.

Lemma kaiser_coeff_symmetric (M : Z) (beta : R) (n : Z) :
  (1 < M)%Z -> kaiser_coeff M beta (M - 1 - n) = kaiser_coeff M beta n.
Proof.
  intros HM. unfold kaiser_coeff. cbv zeta. num_R.
  assert (Hd : IZR (M - 1) <> 0%R) by (apply not_0_IZR; lia).
  replace (2 * IZR (M - 1 - n) / IZR (M - 1) - 1)%R
    with (- (2 * IZR n / IZR (M - 1) - 1))%R.
  - now rewrite Rmult_opp_opp.
  - rewrite (minus_IZR (M - 1) n). now field.
Qed.

Lemma window_coeff_symmetric (w : window R) (M n : Z) :
  (1 < M)%Z -> window_coeff w M (M - 1 - n) = window_coeff w M n.
Proof.
  intros HM. destruct w as [|beta]; cbn [window_coeff].
  - now apply hann_symmetric.
  - now apply kaiser_coeff_symmetric.
Qed.

Lemma raw_taps_symmetric (M : Z) (fc : R) (w : window R) :
  (1 < M)%Z -> rev (raw_taps M fc w) = raw_taps M fc w.
Proof.
  intros HM. unfold raw_taps. apply rev_map_indices. intros n _.
  now rewrite ideal_lowpass_symmetric, window_coeff_symmetric.
Qed.

Lemma firwin_Ok {F : Type} `{Num F} `{!Round F} `{!Transc F}
    (M : Z) (fc : F) (w : window F) :
  Z.odd M = true -> (3 <= M)%Z ->
  firwin M fc w = Ok (normalize_dc (raw_taps M fc w)).
Proof.
  intros Ho Hm. unfold firwin.
  now rewrite (proj2 (check_length_Ok M) (conj Ho Hm)).
Qed.

Lemma firwin_Err {F : Type} `{Num F} `{!Round F} `{!Transc F}
    (M : Z) (fc : F) (w : window F) :
  Z.even M = true \/ (M < 3)%Z -> firwin M fc w = Err InvalidLength.
Proof.
  intros Hm. unfold firwin. now rewrite (proj2 (check_length_Err M) Hm).
Qed.

Lemma firwin_inv {F : Type} `{Num F} `{!Round F} `{!Transc F}
    (M : Z) (fc : F) (w : window F) (h : list F) :
  firwin M fc w = Ok h ->
  Z.odd M = true /\ (3 <= M)%Z /\ h = normalize_dc (raw_taps M fc w).
Proof.
  intros E. unfold firwin in E.
  destruct (check_length M) as [[]|e] eqn:C; [|discriminate].
  apply check_length_Ok in C as [Ho Hm]. cbn in E. inv E. auto.
Qed.

Lemma ideal_lowpass_halfband (M n j : Z) :
  Z.odd M = true -> (n - (M - 1) / 2 = 2 * j)%Z -> j <> 0%Z ->
  ideal_lowpass M (1 / 2)%R n = 0%R.
Proof.
  intros Ho Hn Hj. unfold ideal_lowpass, center. num_R.
  pose proof (odd_pred_half M Ho) as E.
  replace (1 / 2 * (IZR n - IZR (M - 1) / 2))%R with (IZR j).
  - rewrite sinc_integer by assumption. lra.
  - rewrite E, mult_IZR. replace n with (2 * j + (M - 1) / 2)%Z by lia.
    rewrite plus_IZR, mult_IZR. lra.
Qed.

Lemma hann_design_end_taps (M : Z) (fc : R) :
  (1 < M)%Z ->
  nth 0 (normalize_dc (raw_taps M fc Hann)) 0%R = 0%R /\
  nth (Z.to_nat (M - 1)) (normalize_dc (raw_taps M fc Hann)) 0%R = 0%R.
Proof.
  intros HM. rewrite !nth_normalize_dc. change 0%nat with (Z.to_nat 0).
  rewrite (nth_raw_taps M fc Hann 0), (nth_raw_taps M fc Hann (M - 1)) by lia.
  cbn [window_coeff]. rewrite hann_first, hann_last by lia.
  unfold Rdiv. split; lra.
Qed.

Lemma halfband_design_zero (M : Z) (w : window R) (n j : Z) :
  Z.odd M = true ->
  (0 <= n < M)%Z -> (n - (M - 1) / 2 = 2 * j)%Z -> j <> 0%Z ->
  nth (Z.to_nat n) (normalize_dc (raw_taps M (1 / 2)%R w)) 0%R = 0%R.
Proof.
  intros Ho Hn Hj Hj0. rewrite nth_normalize_dc, nth_raw_taps by assumption.
  rewrite (ideal_lowpass_halfband M n j) by assumption.
  unfold Rdiv. lra.
Qed.

Lemma M_kaiser_even_R : Z.even (M_kaiser (F:=R)) = true.
Proof. now rewrite M_kaiser_R. Qed.

(** ** Properties *)

(** A design returned by [firwin] has exactly the requested number of
    taps, and that number is odd and at least 3. *)
Theorem firwin_length {F : Type} `{Num F} `{!Round F} `{!Transc F}
    (M : Z) (fc : F) (w : window F) (h : list F) :
  firwin M fc w = Ok h ->
  length h = Z.to_nat M /\ Z.odd M = true /\ (3 <= M)%Z.
Proof.
  intros E. apply firwin_inv in E as (Ho & Hm & ->).
  now rewrite length_normalize_dc, length_raw_taps.
Qed.

Lemma firwin_length_witness :
  length (normalize_dc (raw_taps (F:=R) 5 (1 / 2)%R Hann)) = 5%nat /\
  Z.odd 5 = true /\ (3 <= 5)%Z.
Proof.
  apply (firwin_length 5 (1 / 2)%R Hann). apply firwin_Ok; [reflexivity|lia].
Defined.

(** C28. Every design of [firwin] is symmetric about its centre tap (linear
    phase), for the Hann and for the Kaiser window. *)
Theorem firwin_symmetric (M : Z) (fc : R) (w : window R) (h : list R) :
  firwin M fc w = Ok h -> rev h = h.
Proof.
  intros E. apply firwin_inv in E as (Ho & Hm & ->).
  apply normalize_dc_rev, raw_taps_symmetric. lia.
Qed.

Lemma firwin_symmetric_witness :
  exists h : list R, h_window = Ok h /\ rev h = h.
Proof.
  assert (E : h_window (F:=R)
              = Ok (normalize_dc (raw_taps M_window Fc_window Hann)))
    by (apply firwin_Ok; [reflexivity|unfold M_window; lia]).
  eexists. split; [exact E|].
  exact (firwin_symmetric M_window Fc_window Hann _ E).
Defined.

(** The first and the last tap of a Hann design are zero: of the [M]
    taps requested at most [M-2] are used. *)
Theorem firwin_hann_end_taps (M : Z) (fc : R) (h : list R) :
  firwin M fc Hann = Ok h ->
  nth 0 h 0%R = 0%R /\ nth (Z.to_nat (M - 1)) h 0%R = 0%R.
Proof.
  intros E. apply firwin_inv in E as (Ho & Hm & ->).
  apply hann_design_end_taps. lia.
Qed.

Lemma firwin_hann_end_taps_witness :
  nth 0 (normalize_dc (raw_taps (F:=R) 47 (1 / 2)%R Hann)) 0%R = 0%R /\
  nth (Z.to_nat (47 - 1)) (normalize_dc (raw_taps (F:=R) 47 (1 / 2)%R Hann)) 0%R
  = 0%R.
Proof.
  apply (firwin_hann_end_taps 47 (1 / 2)%R). apply firwin_Ok; [reflexivity|lia].
Defined.

(** At cut-off 1/2 every tap at an even non-zero distance from the
    centre is zero, whatever the window (a half-band filter). *)
Theorem firwin_halfband_zeros (M : Z) (w : window R) (h : list R) (n j : Z) :
  firwin M (1 / 2)%R w = Ok h ->
  (0 <= n < M)%Z -> (n - (M - 1) / 2 = 2 * j)%Z -> j <> 0%Z ->
  nth (Z.to_nat n) h 0%R = 0%R.
Proof.
  intros E Hn Hj Hj0. apply firwin_inv in E as (Ho & Hm & ->).
  now apply halfband_design_zero with j.
Qed.

Lemma firwin_halfband_zeros_witness :
  nth (Z.to_nat 25) (normalize_dc (raw_taps (F:=R) 47 (1 / 2)%R Hann)) 0%R = 0%R.
Proof.
  apply (firwin_halfband_zeros 47 Hann _ 25 1);
    [apply firwin_Ok; [reflexivity|lia] | lia | reflexivity | lia].
Defined.

(** C9. The Kaiser design of line 43 asks [firwin] for the even length 18
    of line 37 and is answered [InvalidLength]. *)
Theorem h_kaiser_rejected : h_kaiser (F:=R) = Err InvalidLength.
Proof.
  unfold h_kaiser, firwin_run, h_kaiser_call. cbn [fw_numtaps fw_cutoff fw_window].
  apply firwin_Err. left. exact M_kaiser_even_R.
Qed.
