(* ===== verification/Bessel.v ===== *)
(** * Bessel: the series of the Kaiser window stops by itself

    The Kaiser window of [Window] divides two values of [bessel_i0], the
    series [sum_k ((x/2)^k / k!)^2] summed by [i0_loop] until a term falls
    below [i0_tol] times the running sum, with [i0_fuel] = 64 terms at
    most.  The result is meaningful only if the loop leaves by the
    tolerance test and not because the fuel ran out.

    The series is written here as mathematics has it, [i0_term q k] with
    [q = (x/2)^2] and the partial sums [i0_partial q n], and the loop is
    proved against it: [i0_loop] returns the partial sum at the first
    index from 1 on whose term passes the test ([i0_stops]), provided the
    fuel reaches that index.  From the term of index [k] with
    [k^2 >= 2 q] on, every term is at most half its predecessor, and a
    term never exceeds the partial sum; so 40 halvings after that index
    bring the term below [1e-12] times the sum ([2^-40 < 1e-12]).  For
    [|x| <= 33] that index is at most 24, hence 64 terms are enough: the
    window of every shape parameter that [kaiser_beta] produces below
    300 dB is computed in full. *)

From Stdlib Require Import ZArith QArith Qreals Reals Lra Lia Bool List.
From S2P Require Import Prelude.
From S2P Require Import Numeric.
From S2P Require Import Normalizer.
From S2P Require Import Kaiser.
From S2P Require Import Designs.
From S2P Require Import Window.
Import ListNotations.

Local Open Scope R_scope.

(** ** The series

    Term [k] of the series of [I0] at [q = (x/2)^2], its partial sums, and
    the test that ends the summation. *)
Definition i0_term (q : R) (k : nat) : R :=
  q ^ k / (INR (fact k) * INR (fact k)).

Definition i0_partial (q : R) (n : nat) : R := sum_f_R0 (i0_term q) n.

Definition i0_test (q : R) (k : nat) : Prop :=
  i0_term q k < i0_tol * i0_partial q k.

(** [n] is the first index from 1 on whose term passes the test. *)
Definition i0_stops (q : R) (n : nat) : Prop :=
  (1 <= n)%nat /\ i0_test q n /\
  forall j, (1 <= j < n)%nat -> ~ i0_test q j.

(** The state of the loop: a non-negative term that does not exceed [c]
    times the positive running sum. *)
Definition i0_state (c term sum : R) : Prop :=
  0 <= term /\ term <= c * sum /\ 0 < sum.

(** ** Lemmas: one iteration *)

Lemma i0_tol_R : i0_tol (F:=R) = / 10 ^ 12.
Proof. unfold i0_tol. num_R. lra. Qed.

Lemma i0_tol_pos : 0 < i0_tol (F:=R).
Proof. rewrite i0_tol_R. apply Rinv_0_lt_compat, pow_lt. lra. Qed.

Lemma i0_loop_S (fuel : nat) (k : Z) (term sum q : R) :
  i0_loop (S fuel) k term sum q
  = if Rltb (term * q / (IZR k * IZR k))
            (i0_tol * (sum + term * q / (IZR k * IZR k)))
    then sum + term * q / (IZR k * IZR k)
    else i0_loop fuel (k + 1) (term * q / (IZR k * IZR k))
                 (sum + term * q / (IZR k * IZR k)) q.
Proof. reflexivity. Qed.

Lemma i0_ratio (k : Z) (q : R) :
  (1 <= k)%Z -> 0 <= q -> 0 <= q / (IZR k * IZR k).
Proof.
  intros Hk Hq. assert (1 <= IZR k) by (apply IZR_le; assumption).
  apply Rmult_le_pos; [assumption|]. apply Rlt_le, Rinv_0_lt_compat. nra.
Qed.

Lemma i0_ratio_half (k : Z) (q : R) :
  (1 <= k)%Z -> 0 <= q -> 2 * q <= IZR k * IZR k ->
  q / (IZR k * IZR k) <= 1 / 2.
Proof.
  intros Hk Hq H2. assert (1 <= IZR k) by (apply IZR_le; assumption).
  apply Rmult_le_reg_r with (IZR k * IZR k); [nra|].
  unfold Rdiv. rewrite Rmult_assoc, Rinv_l by nra. lra.
Qed.

Lemma i0_term_eq (term q d : R) : term * q / d = term * (q / d).
Proof. unfold Rdiv. ring. Qed.

(** The term never exceeds the running sum. *)
Lemma i0_state_step (k : Z) (term sum q : R) :
  (1 <= k)%Z -> 0 <= q -> i0_state 1 term sum ->
  i0_state 1 (term * q / (IZR k * IZR k)) (sum + term * q / (IZR k * IZR k)).
Proof.
  intros Hk Hq (Ht & Hts & Hs). rewrite i0_term_eq.
  pose proof (i0_ratio k q Hk Hq) as Hr.
  assert (0 <= term * (q / (IZR k * IZR k))) by now apply Rmult_le_pos.
  unfold i0_state. lra.
Qed.

(** Past the index with [k^2 >= 2q] the bound on the term halves. *)
Lemma i0_state_halve (c : R) (k : Z) (term sum q : R) :
  (1 <= k)%Z -> 0 <= q -> 2 * q <= IZR k * IZR k -> 0 <= c ->
  i0_state c term sum ->
  i0_state (c / 2) (term * q / (IZR k * IZR k))
           (sum + term * q / (IZR k * IZR k)).
Proof.
  intros Hk Hq H2 Hc (Ht & Hts & Hs). rewrite i0_term_eq.
  pose proof (i0_ratio k q Hk Hq) as Hr.
  pose proof (i0_ratio_half k q Hk Hq H2) as Hh.
  set (r := q / (IZR k * IZR k)) in *.
  assert (0 <= term * r) by now apply Rmult_le_pos.
  assert (term * r <= term * (1 / 2)) by now apply Rmult_le_compat_l.
  unfold i0_state. split; [assumption|]. split; [|lra]. nra.
Qed.

(** ** Lemmas: the series *)

Lemma i0_term_0 (q : R) : i0_term q 0 = 1.
Proof. unfold i0_term. cbn. lra. Qed.

Lemma i0_term_S (q : R) (k : nat) :
  i0_term q (S k)
  = i0_term q k * q / (IZR (Z.of_nat (S k)) * IZR (Z.of_nat (S k))).
Proof.
  unfold i0_term. rewrite <- !INR_IZR_INZ, fact_simpl, mult_INR.
  rewrite <- tech_pow_Rmult. pose proof (INR_fact_neq_0 k).
  assert (INR (S k) <> 0) by (apply not_0_INR; lia). field. auto.
Qed.

Lemma i0_partial_S (q : R) (n : nat) :
  i0_partial q (S n) = i0_partial q n + i0_term q (S n).
Proof. reflexivity. Qed.

Lemma IZR_of_nat_sqr (k0 k : nat) :
  (k0 <= k)%nat -> INR k0 * INR k0 <= IZR (Z.of_nat k) * IZR (Z.of_nat k).
Proof.
  intros Hk. rewrite <- INR_IZR_INZ. apply le_INR in Hk.
  pose proof (pos_INR k0). nra.
Qed.

(** A term never exceeds the partial sum it belongs to. *)
Lemma i0_series_state (q : R) (k : nat) :
  0 <= q -> i0_state 1 (i0_term q k) (i0_partial q k).
Proof.
  intros Hq. induction k as [|k IH].
  - unfold i0_partial. cbn [sum_f_R0]. rewrite i0_term_0. unfold i0_state. lra.
  - rewrite i0_partial_S, i0_term_S. apply i0_state_step; [lia|assumption..].
Qed.

(** From an index [k0] with [k0^2 >= 2q] on, each further term halves the
    ratio of the term to the partial sum. *)
Lemma i0_series_halving (q : R) (k0 m : nat) :
  0 <= q -> 2 * q <= INR k0 * INR k0 ->
  i0_state (1 / 2 ^ m) (i0_term q (k0 + m)) (i0_partial q (k0 + m)).
Proof.
  intros Hq H2. induction m as [|m IH].
  - rewrite Nat.add_0_r. replace (1 / 2 ^ 0) with 1 by (cbn [pow]; lra).
    now apply i0_series_state.
  - rewrite Nat.add_succ_r, i0_partial_S, i0_term_S.
    replace (1 / 2 ^ S m) with (1 / 2 ^ m / 2)
      by (rewrite <- tech_pow_Rmult; unfold Rdiv; rewrite Rinv_mult; lra).
    apply i0_state_halve; try assumption; [lia| |].
    + pose proof (IZR_of_nat_sqr k0 (S (k0 + m)) ltac:(lia)). lra.
    + apply Rlt_le, Rdiv_lt_0_compat; [lra|apply pow_lt; lra].
Qed.

(** For [q <= 288] the term of index 64 passes the test. *)
Lemma i0_test_64 (q : R) : 0 <= q -> q <= 288 -> i0_test q i0_fuel.
Proof.
  intros Hq Hq'. change i0_fuel with (24 + 40)%nat. unfold i0_test.
  destruct (i0_series_halving q 24 40 Hq) as (_ & Ht & Hs).
  { rewrite INR_IZR_INZ. change (Z.of_nat 24) with 24%Z. lra. }
  apply Rle_lt_trans with (1 := Ht). apply Rmult_lt_compat_r; [assumption|].
  rewrite i0_tol_R.
  apply Rmult_lt_reg_r with (2 ^ 40 * 10 ^ 12);
    [apply Rmult_lt_0_compat; apply pow_lt; lra|].
  replace (1 / 2 ^ 40 * (2 ^ 40 * 10 ^ 12)) with (10 ^ 12)
    by (field; apply pow_nonzero; lra).
  replace (/ 10 ^ 12 * (2 ^ 40 * 10 ^ 12)) with (2 ^ 40)
    by (field; apply pow_nonzero; lra).
  lra.
Qed.

(** Below an index that passes the test there is a first one. *)
Lemma i0_first_stop (q : R) (n : nat) :
  (exists m, (m <= n)%nat /\ i0_stops q m) \/
  (forall j, (1 <= j <= n)%nat -> ~ i0_test q j).
Proof.
  induction n as [|n [(m & Hm & Hs)|IH]].
  - right. intros j Hj. lia.
  - left. exists m. split; [lia|assumption].
  - destruct (Rlt_dec (i0_term q (S n)) (i0_tol * i0_partial q (S n))) as [Ht|Ht].
    + left. exists (S n). split; [lia|]. split; [lia|]. split; [exact Ht|].
      intros j Hj. apply IH. lia.
    + right. intros j Hj. destruct (Nat.eq_dec j (S n)) as [->|]; [exact Ht|].
      apply IH. lia.
Qed.

Lemma i0_stops_fuel (q : R) :
  0 <= q -> q <= 288 -> exists n, (n <= i0_fuel)%nat /\ i0_stops q n.
Proof.
  intros Hq Hq'. destruct (i0_first_stop q i0_fuel) as [Hs|Hno]; [exact Hs|].
  exfalso. apply (Hno i0_fuel); [unfold i0_fuel; lia|now apply i0_test_64].
Qed.

(** ** Lemmas: the loop *)

(** Entered after term [j], the loop returns the partial sum at the first
    later index that passes the test, when the fuel reaches it. *)
Lemma i0_loop_partial (q : R) (d : nat) : forall fuel j,
  (d < fuel)%nat -> i0_test q (S (j + d)) ->
  (forall i, (j < i < S (j + d))%nat -> ~ i0_test q i) ->
  i0_loop fuel (Z.of_nat (S j)) (i0_term q j) (i0_partial q j) q
  = i0_partial q (S (j + d)).
Proof.
  induction d as [|d IH]; intros [|fuel] j Hf Ht Hno; try lia;
    rewrite i0_loop_S, <- i0_term_S, <- i0_partial_S;
    destruct (Rltb_spec (i0_term q (S j)) (i0_tol * i0_partial q (S j)))
      as [Hy|Hn].
  - now rewrite Nat.add_0_r.
  - rewrite Nat.add_0_r in Ht. contradiction.
  - exfalso. apply (Hno (S j)); [lia|exact Hy].
  - replace (Z.of_nat (S j) + 1)%Z with (Z.of_nat (S (S j))) by lia.
    rewrite Nat.add_succ_r. apply IH; [lia|now rewrite Nat.add_succ_r in Ht|].
    intros i Hi. apply Hno. lia.
Qed.

(** With fuel up to the index at which the series stops, the loop returns
    the partial sum at that index. *)
Lemma i0_loop_stops (q : R) (n fuel : nat) :
  i0_stops q n -> (n <= fuel)%nat ->
  i0_loop fuel 1 1 1 q = i0_partial q n.
Proof.
  intros (Hn & Ht & Hno) Hf. destruct n as [|d]; [lia|].
  pose proof (i0_loop_partial q d fuel 0) as E. cbn [Nat.add] in E.
  unfold i0_partial at 1 in E. cbn [sum_f_R0] in E. rewrite i0_term_0 in E.
  apply E; [lia|exact Ht|]. intros i Hi. apply Hno. lia.
Qed.

(** The running sum only grows. *)
Lemma i0_loop_lower (fuel : nat) : forall k term sum q,
  (1 <= k)%Z -> 0 <= q -> 0 <= term -> sum <= i0_loop fuel k term sum q.
Proof.
  induction fuel as [|fuel IH]; intros k term sum q Hk Hq Ht; [cbn; lra|].
  rewrite i0_loop_S. pose proof (i0_ratio k q Hk Hq) as Hr.
  assert (0 <= term * q / (IZR k * IZR k))
    by (rewrite i0_term_eq; now apply Rmult_le_pos).
  destruct (Rltb _ _); [lra|].
  apply Rle_trans with (sum + term * q / (IZR k * IZR k)); [lra|].
  apply IH; [lia|assumption|assumption].
Qed.

Lemma bessel_i0_unfold (x : R) :
  bessel_i0 x = i0_loop i0_fuel 1 1 1 (x / 2 * (x / 2)).
Proof. reflexivity. Qed.

Lemma bessel_i0_lower (x : R) : 1 <= bessel_i0 x.
Proof.
  rewrite bessel_i0_unfold. apply i0_loop_lower; [lia| |lra].
  apply Rle_0_sqr.
Qed.

(** ** Lemmas: the arguments of the Kaiser window *)

Lemma kaiser_beta_upper (a : R) : a <= 300 -> 0 <= kaiser_beta a <= 33.
Proof.
  intros Ha. split; [apply kaiser_beta_nonneg|].
  destruct (Rle_lt_dec a 21) as [H21|H21].
  - rewrite kaiser_beta_low by assumption. lra.
  - destruct (Rle_lt_dec a 50) as [H50|H50].
    + pose proof (kaiser_beta_le_at_50 a (conj H21 H50)).
      pose proof beta_mid_29. lra.
    + rewrite kaiser_beta_high by assumption. lra.
Qed.

Lemma kaiser_shape_range (r : R) : 0 <= sqrt (1 - r * r) <= 1.
Proof.
  split; [apply sqrt_pos|].
  rewrite <- sqrt_1 at 2. apply sqrt_le_1_alt.
  pose proof (Rle_0_sqr r) as Hr. unfold Rsqr in Hr. lra.
Qed.

(** For [|x| <= 33] the series stops within the fuel of [bessel_i0], and
    the loop returns the partial sum at that index on any fuel that
    reaches it. *)
Lemma bessel_i0_stops (x : R) :
  Rabs x <= 33 ->
  exists n, (n <= i0_fuel)%nat /\ i0_stops (x / 2 * (x / 2)) n /\
    forall fuel, (n <= fuel)%nat ->
      i0_loop fuel 1 1 1 (x / 2 * (x / 2)) = i0_partial (x / 2 * (x / 2)) n.
Proof.
  intros Hx. destruct (i0_stops_fuel (x / 2 * (x / 2))) as (n & Hn & Hs).
  - apply Rle_0_sqr.
  - unfold Rabs in Hx. destruct (Rcase_abs x); nra.
  - exists n. split; [exact Hn|]. split; [exact Hs|].
    intros fuel Hf. now apply i0_loop_stops.
Qed.

Lemma kaiser_argument_range (beta s : R) :
  0 <= beta <= 33 -> 0 <= s <= 1 -> Rabs (beta * s) <= 33.
Proof. intros Hb Hs. rewrite Rabs_pos_eq; nra. Qed.

(** ** Properties *)

(** For [|x| <= 33] the value of [bessel_i0] does not depend on the fuel:
    more than 64 terms give the same sum. *)
Theorem bessel_i0_fuel_enough (x : R) (extra : nat) :
  Rabs x <= 33 ->
  i0_loop (i0_fuel + extra) 1 1 1 (x / 2 * (x / 2)) = bessel_i0 x.
Proof.
  intros Hx. destruct (bessel_i0_stops x Hx) as (n & Hn & _ & E).
  rewrite bessel_i0_unfold, !E by lia. reflexivity.
Qed.

Lemma bessel_i0_fuel_enough_witness :
  i0_loop (i0_fuel + 100) 1 1 1 (2 / 2 * (2 / 2)) = bessel_i0 2.
Proof.
  apply (bessel_i0_fuel_enough 2 100). rewrite Rabs_pos_eq; lra.
Defined.

(** [bessel_i0] is at least 1 everywhere and exactly 1 at zero, so the
    Kaiser window never divides by zero, and with shape parameter 0 it is
    the rectangular window. *)
Theorem bessel_i0_ge_1 (x : R) (M n : Z) :
  1 <= bessel_i0 x /\ bessel_i0 0 = 1 /\ kaiser_coeff M 0 n = 1.
Proof.
  assert (E0 : bessel_i0 0 = 1).
  { rewrite bessel_i0_unfold. unfold i0_fuel. rewrite i0_loop_S.
    replace (1 * (0 / 2 * (0 / 2)) / (1 * 1)) with 0 by lra.
    pose proof i0_tol_pos.
    destruct (Rltb_spec 0 (i0_tol * (1 + 0))); [lra|]. exfalso. lra. }
  split; [apply bessel_i0_lower|]. split; [exact E0|].
  unfold kaiser_coeff. cbv zeta. num_R. rewrite Rmult_0_l, E0. lra.
Qed.

(** The centre tap of the Kaiser window of an odd length is 1. *)
Theorem kaiser_coeff_center (M : Z) (beta : R) :
  Z.odd M = true -> (3 <= M)%Z -> kaiser_coeff M beta ((M - 1) / 2) = 1.
Proof.
  intros Ho Hm. unfold kaiser_coeff. cbv zeta. num_R.
  pose proof (odd_pred_half M Ho) as E.
  replace (2 * IZR ((M - 1) / 2) / IZR (M - 1) - 1) with 0.
  - replace (1 - 0 * 0) with 1 by lra. rewrite sqrt_1, Rmult_1_r.
    pose proof (bessel_i0_lower beta). unfold Rdiv. apply Rinv_r. lra.
  - rewrite E at 2. rewrite mult_IZR. field.
    apply not_0_IZR. lia.
Qed.

Lemma kaiser_coeff_center_witness : kaiser_coeff 17 2 ((17 - 1) / 2) = 1.
Proof. apply (kaiser_coeff_center 17 2); [reflexivity|lia]. Defined.

(** C16. For every attenuation up to 300 dB the Kaiser window with the shape
    parameter of [kaiser_beta] is computed in full: at every tap of every
    length each of the two series of [kaiser_coeff] is left through the
    tolerance test within the 64 terms allowed, and the coefficient is the
    quotient of the two partial sums of the series of I0 at the first
    index whose term is below [1e-12] times the sum. *)
Theorem kaiser_window_computed (a : R) (M n : Z) :
  a <= 300 ->
  let beta := kaiser_beta a in
  let r := 2 * IZR n / IZR (M - 1) - 1 in
  let q1 := beta * sqrt (1 - r * r) / 2 * (beta * sqrt (1 - r * r) / 2) in
  let q2 := beta / 2 * (beta / 2) in
  exists n1 n2,
    (n1 <= i0_fuel)%nat /\ (n2 <= i0_fuel)%nat /\
    i0_stops q1 n1 /\ i0_stops q2 n2 /\
    kaiser_coeff M beta n = i0_partial q1 n1 / i0_partial q2 n2.
Proof.
  intros Ha beta r q1 q2. pose proof (kaiser_beta_upper a Ha) as Hb.
  fold beta in Hb.
  destruct (bessel_i0_stops (beta * sqrt (1 - r * r))) as (n1 & H1 & S1 & E1);
    [apply kaiser_argument_range; [exact Hb|apply kaiser_shape_range]|].
  destruct (bessel_i0_stops beta) as (n2 & H2 & S2 & E2);
    [rewrite Rabs_pos_eq; lra|].
  exists n1, n2. repeat (split; [assumption|]).
  unfold kaiser_coeff. cbv zeta. num_R. fold r.
  now rewrite !bessel_i0_unfold, E1, E2.
Qed.

Lemma kaiser_window_computed_witness :
  let beta := beta_kaiser (F:=R) in
  let r := 2 * IZR 4 / IZR (M_kaiser (F:=R) - 1) - 1 in
  let q1 := beta * sqrt (1 - r * r) / 2 * (beta * sqrt (1 - r * r) / 2) in
  let q2 := beta / 2 * (beta / 2) in
  exists n1 n2,
    (n1 <= i0_fuel)%nat /\ (n2 <= i0_fuel)%nat /\
    i0_stops q1 n1 /\ i0_stops q2 n2 /\
    kaiser_coeff (M_kaiser (F:=R)) beta 4 = i0_partial q1 n1 / i0_partial q2 n2.
Proof.
  apply (kaiser_window_computed (IZR Rs) (M_kaiser (F:=R)) 4). unfold Rs. lra.
Defined.
