(* ===== verification/WindowGain.v ===== *)
(** * WindowGain: the Hann design at cut-off 1/2 can be normalised

    [firwin] divides the raw taps by their sum (spec 4.2, "normalised so
    that the coefficients sum to 1").  The division is meaningful only if
    the sum is not zero.  At the script's cut-off 1/2 (lines 26 and 27 of
    [src/66.py]) the raw taps are, apart from the centre tap 1/2, an
    alternating series whose magnitudes decrease away from the centre, so
    the sum is at least 1/2 for every odd length.

    The file holds the bookkeeping of that argument: sums indexed from the
    centre of a symmetric list ([psum], [Rsum_centered]), alternating sums
    of decreasing sequences ([alt], [alt_nonneg]), the value of [sinc] at
    the half-integers and the Hann window seen from the centre
    ([hann_tail]).  The theorems are about [raw_taps], [firwin] and
    [h_window] of [Window]. *)

From Stdlib Require Import ZArith QArith Qreals Reals Lra Lia Bool List.
From S2P Require Import Prelude.
From S2P Require Import Numeric.
From S2P Require Import Normalizer.
From S2P Require Import Kaiser.
From S2P Require Import Designs.
From S2P Require Import Window.
Import ListNotations.

Local Open Scope R_scope.

(** The gain of a filter at frequency zero: the sum of its taps. *)
Definition dc_gain (h : list R) : R := Rsum h.

(** ** Sums *)

(** [g 1 + ... + g m]. *)
Fixpoint psum (g : nat -> R) (m : nat) : R :=
  match m with
  | O => 0
  | S m' => psum g m' + g m
  end.

(** [b 0 - b 1 + b 2 - ...], [n] terms. *)
Fixpoint alt (b : nat -> R) (n : nat) : R :=
  match n with
  | O => 0
  | S n' => alt b n' + (-1) ^ n' * b n'
  end.

(** The integers [lo, lo+1, ..., lo+len-1]. *)
Definition zseq (lo : Z) (len : nat) : list Z :=
  map (fun i => (lo + Z.of_nat i)%Z) (seq 0 len).

(** The Hann window [k] taps away from the centre of a window of length
    [2c+1], and the magnitude of the raw tap at distance [2j+1]. *)
Definition hann_tail (c : nat) (k : nat) : R :=
  0.5 + 0.5 * cos (PI * INR k / INR c).

Definition halfband_term (c : nat) (j : nat) : R :=
  2 / (PI * INR (2 * j + 1)) * hann_tail c (2 * j + 1).

(** ** Lemmas: sums *)

Lemma psum_ext (g g' : nat -> R) (m : nat) :
  (forall k, (1 <= k <= m)%nat -> g k = g' k) -> psum g m = psum g' m.
Proof.
  intros E. induction m as [|m IH]; [reflexivity|].
  cbn [psum]. rewrite IH, E by (intros; try apply E; lia). reflexivity.
Qed.

Lemma psum_scale (c : R) (g : nat -> R) (m : nat) :
  psum (fun k => c * g k) m = c * psum g m.
Proof. induction m as [|m IH]; cbn [psum]; [lra|rewrite IH; lra]. Qed.

Lemma indices_zseq (M : Z) : indices M = zseq 0 (Z.to_nat M).
Proof. reflexivity. Qed.

Lemma zseq_cons (lo : Z) (len : nat) :
  zseq lo (S len) = lo :: zseq (lo + 1) len.
Proof.
  unfold zseq. cbn [seq map]. rewrite <- seq_shift, map_map.
  f_equal; [lia|]. apply map_ext. intros i. lia.
Qed.

Lemma zseq_snoc (lo : Z) (len : nat) :
  zseq lo (S len) = zseq lo len ++ [(lo + Z.of_nat len)%Z].
Proof. unfold zseq. now rewrite seq_S, map_app. Qed.

Lemma Rsum_snoc (l : list R) (x : R) : Rsum (l ++ [x]) = Rsum l + x.
Proof. rewrite Rsum_app. cbn. lra. Qed.

(** A sum over [a-m .. a+m], read from the centre outwards. *)
Lemma Rsum_centered (f : Z -> R) (a : Z) (m : nat) :
  Rsum (map f (zseq (a - Z.of_nat m) (2 * m + 1)))
  = f a + psum (fun k => f (a - Z.of_nat k)%Z + f (a + Z.of_nat k)%Z) m.
Proof.
  induction m as [|m IH].
  - cbn. rewrite Z.sub_0_r, Z.add_0_r. lra.
  - replace (2 * S m + 1)%nat with (S (S (2 * m + 1))) by lia.
    rewrite zseq_cons, zseq_snoc. cbn [map]. rewrite map_app.
    cbn [map Rsum fold_right]. fold (Rsum (map f (zseq (a - Z.of_nat (S m) + 1) (2 * m + 1)) ++ [f (a - Z.of_nat (S m) + 1 + Z.of_nat (2 * m + 1))%Z])).
    rewrite Rsum_snoc.
    replace (a - Z.of_nat (S m) + 1)%Z with (a - Z.of_nat m)%Z by lia.
    rewrite IH. cbn [psum].
    replace (a - Z.of_nat m + Z.of_nat (2 * m + 1))%Z with (a + Z.of_nat (S m))%Z by lia.
    lra.
Qed.

(** An alternating sum of a non-negative decreasing sequence lies between
    zero and its first term. *)
Lemma alt_bounds (b : nat -> R) (N : nat) :
  (forall j, (S j <= N)%nat -> b (S j) <= b j) ->
  (forall j, (j <= N)%nat -> 0 <= b j) ->
  forall n, ((2 * n <= S N)%nat -> 0 <= alt b (2 * n)) /\
            ((2 * n <= N)%nat -> b (2 * n)%nat <= alt b (S (2 * n))).
Proof.
  intros Hdec Hpos. induction n as [|n [IH0 IH1]].
  - cbn. split; intros; lra.
  - replace (2 * S n)%nat with (S (S (2 * n))) by lia.
    assert (E0 : (S (2 * n) <= S N)%nat ->
                 alt b (S (S (2 * n))) = alt b (S (2 * n)) - b (S (2 * n))).
    { intros _. cbn [alt]. rewrite <- !tech_pow_Rmult, pow_1_even. lra. }
    assert (E1 : alt b (S (S (S (2 * n))))
                 = alt b (S (S (2 * n))) + b (S (S (2 * n)))).
    { cbn [alt]. rewrite <- !tech_pow_Rmult, pow_1_even. lra. }
    assert (A : (S (S (2 * n)) <= S N)%nat -> 0 <= alt b (S (S (2 * n)))).
    { intros Hn. rewrite E0 by lia.
      pose proof (IH1 ltac:(lia)). pose proof (Hdec (2 * n)%nat ltac:(lia)). lra. }
    split; [exact A|]. intros Hn. rewrite E1. pose proof (A ltac:(lia)). lra.
Qed.

Lemma alt_nonneg (b : nat -> R) (n : nat) :
  (forall j, (S j < n)%nat -> b (S j) <= b j) ->
  (forall j, (j < n)%nat -> 0 <= b j) ->
  0 <= alt b n.
Proof.
  intros Hdec Hpos. destruct n as [|N]; [cbn; lra|].
  assert (B : forall k, ((2 * k <= S N)%nat -> 0 <= alt b (2 * k)) /\
                        ((2 * k <= N)%nat -> b (2 * k)%nat <= alt b (S (2 * k)))).
  { apply alt_bounds; intros; [apply Hdec|apply Hpos]; lia. }
  destruct (Nat.Even_or_Odd (S N)) as [[k Hk]|[k Hk]]; destruct (B k) as [B0 B1].
  - rewrite Hk. apply B0. lia.
  - replace (S N) with (S (2 * k)) by lia.
    pose proof (B1 ltac:(lia)). pose proof (Hpos (2 * k)%nat ltac:(lia)). lra.
Qed.

(** A sum whose even terms vanish and whose odd terms alternate. *)
Lemma psum_alt (g b : nat -> R) (m : nat) :
  (forall j, (2 * j + 1 <= m)%nat -> g (2 * j + 1)%nat = (-1) ^ j * b j) ->
  (forall j, (2 * j + 2 <= m)%nat -> g (2 * j + 2)%nat = 0) ->
  forall n, ((2 * n <= m)%nat -> psum g (2 * n) = alt b n) /\
            ((2 * n + 1 <= m)%nat -> psum g (2 * n + 1) = alt b (S n)).
Proof.
  intros Hodd Heven. induction n as [|n [IH0 IH1]].
  - split; intros Hn; cbn [psum alt Nat.mul Nat.add].
    + reflexivity.
    + pose proof (Hodd 0%nat Hn) as E. cbn [Nat.mul Nat.add] in E.
      now rewrite E.
  - assert (A : (2 * S n <= m)%nat -> psum g (2 * S n) = alt b (S n)).
    { intros Hn. replace (2 * S n)%nat with (S (2 * n + 1)) by lia.
      cbn [psum]. rewrite IH1 by lia.
      replace (S (2 * n + 1)) with (2 * n + 2)%nat by lia.
      rewrite Heven by lia. lra. }
    split; [exact A|]. intros Hn.
    replace (2 * S n + 1)%nat with (S (2 * S n)) by lia.
    cbn [psum]. rewrite A by lia.
    replace (S (2 * S n)) with (2 * S n + 1)%nat by lia.
    rewrite Hodd by lia. reflexivity.
Qed.

Lemma psum_alt_nonneg (g b : nat -> R) (m : nat) :
  (forall j, (2 * j + 1 <= m)%nat -> g (2 * j + 1)%nat = (-1) ^ j * b j) ->
  (forall j, (2 * j + 2 <= m)%nat -> g (2 * j + 2)%nat = 0) ->
  (forall j, (2 * j + 3 <= m)%nat -> b (S j) <= b j) ->
  (forall j, (2 * j + 1 <= m)%nat -> 0 <= b j) ->
  0 <= psum g m.
Proof.
  intros Hodd Heven Hdec Hpos.
  destruct (Nat.Even_or_Odd m) as [[n Hn]|[n Hn]];
    destruct (psum_alt g b m Hodd Heven n) as [E0 E1].
  - rewrite Hn, E0 by lia. apply alt_nonneg; intros; [apply Hdec|apply Hpos]; lia.
  - rewrite Hn, E1 by lia. apply alt_nonneg; intros; [apply Hdec|apply Hpos]; lia.
Qed.

(** ** Lemmas: sinc at the half-integers *)

Lemma sin_half_odd (j : nat) : sin (PI / 2 + INR j * PI) = (-1) ^ j.
Proof.
  induction j as [|j IH].
  - cbn [INR]. rewrite Rmult_0_l, Rplus_0_r. apply sin_PI2.
  - rewrite S_INR.
    replace (PI / 2 + (INR j + 1) * PI) with (PI / 2 + INR j * PI + PI) by lra.
    rewrite neg_sin, IH, <- tech_pow_Rmult. lra.
Qed.

Lemma INR_odd_pos (j : nat) : 0 < INR (2 * j + 1).
Proof. apply lt_0_INR. lia. Qed.

Lemma sinc_half_odd (j : nat) :
  sinc (INR (2 * j + 1) / 2) = (-1) ^ j * (2 / (PI * INR (2 * j + 1))).
Proof.
  pose proof (INR_odd_pos j) as Hp. pose proof PI_pos as Hpi.
  rewrite sinc_nonzero by lra.
  replace (PI * (INR (2 * j + 1) / 2)) with (PI / 2 + INR j * PI)
    by (rewrite plus_INR, mult_INR; cbn [INR]; lra).
  rewrite sin_half_odd.
  replace (PI / 2 + INR j * PI) with (PI * INR (2 * j + 1) / 2)
    by (rewrite plus_INR, mult_INR; cbn [INR]; lra).
  field. split; lra.
Qed.

Lemma sinc_half_even (j : nat) : sinc (INR (2 * j + 2) / 2) = 0.
Proof.
  replace (INR (2 * j + 2) / 2) with (IZR (Z.of_nat (S j))).
  - apply sinc_integer. lia.
  - rewrite <- INR_IZR_INZ, plus_INR, mult_INR, S_INR. cbn [INR]. lra.
Qed.

(** ** Lemmas: the Hann window seen from the centre *)

Lemma hann_tail_nonneg (c k : nat) : 0 <= hann_tail c k.
Proof. unfold hann_tail. pose proof (COS_bound (PI * INR k / INR c)). lra. Qed.

Lemma hann_tail_0 (c : nat) : hann_tail c 0 = 1.
Proof.
  unfold hann_tail. cbn [INR]. replace (PI * 0 / INR c) with 0 by (unfold Rdiv; lra).
  rewrite cos_0. lra.
Qed.

Lemma hann_tail_angle (c k : nat) :
  (0 < c)%nat -> (k <= c)%nat -> 0 <= PI * INR k / INR c <= PI.
Proof.
  intros Hc Hk. pose proof PI_pos as Hpi.
  assert (0 < INR c) by (apply lt_0_INR; lia).
  assert (0 <= INR k) by apply pos_INR.
  assert (INR k <= INR c) by (apply le_INR; lia).
  split.
  - apply Rmult_le_pos; [nra|]. apply Rlt_le, Rinv_0_lt_compat. assumption.
  - apply Rmult_le_reg_r with (INR c); [assumption|].
    unfold Rdiv. rewrite Rmult_assoc, Rinv_l by lra. nra.
Qed.

Lemma hann_tail_decr (c k k' : nat) :
  (0 < c)%nat -> (k <= k')%nat -> (k' <= c)%nat ->
  hann_tail c k' <= hann_tail c k.
Proof.
  intros Hc Hk Hk'. unfold hann_tail.
  destruct (hann_tail_angle c k Hc ltac:(lia)) as [A1 A2].
  destruct (hann_tail_angle c k' Hc Hk') as [B1 B2].
  assert (Hle : PI * INR k / INR c <= PI * INR k' / INR c).
  { pose proof PI_pos. assert (0 < INR c) by (apply lt_0_INR; lia).
    assert (INR k <= INR k') by (apply le_INR; lia).
    unfold Rdiv. apply Rmult_le_compat_r; [|nra].
    apply Rlt_le, Rinv_0_lt_compat. assumption. }
  pose proof (cos_decr_1 _ _ A1 A2 B1 B2 Hle). lra.
Qed.

Lemma hann_from_center (c k : nat) :
  (0 < c)%nat ->
  hann (F:=R) (2 * Z.of_nat c + 1) (Z.of_nat c + Z.of_nat k) = hann_tail c k.
Proof.
  intros Hc. rewrite hann_R. unfold hann_tail.
  assert (Hp : 0 < INR c) by (apply lt_0_INR; lia).
  replace (2 * PI * IZR (Z.of_nat c + Z.of_nat k) / IZR (2 * Z.of_nat c + 1 - 1))
    with (PI * INR k / INR c + PI).
  - rewrite neg_cos. lra.
  - replace (2 * Z.of_nat c + 1 - 1)%Z with (2 * Z.of_nat c)%Z by lia.
    rewrite plus_IZR, mult_IZR, <- !INR_IZR_INZ. field. lra.
Qed.

Lemma halfband_term_nonneg (c j : nat) : 0 <= halfband_term c j.
Proof.
  unfold halfband_term. pose proof (hann_tail_nonneg c (2 * j + 1)).
  pose proof (INR_odd_pos j). pose proof PI_pos.
  apply Rmult_le_pos; [|assumption].
  apply Rlt_le, Rdiv_lt_0_compat; nra.
Qed.

Lemma halfband_term_decr (c j : nat) :
  (2 * j + 3 <= c)%nat -> halfband_term c (S j) <= halfband_term c j.
Proof.
  intros Hj. unfold halfband_term.
  pose proof (hann_tail_nonneg c (2 * S j + 1)) as W0.
  pose proof (hann_tail_decr c (2 * j + 1) (2 * S j + 1) ltac:(lia) ltac:(lia) ltac:(lia)) as Wd.
  pose proof (INR_odd_pos j) as P0. pose proof (INR_odd_pos (S j)) as P1.
  pose proof PI_pos as Hpi.
  assert (Hk : INR (2 * j + 1) <= INR (2 * S j + 1)) by (apply le_INR; lia).
  assert (Hc : 2 / (PI * INR (2 * S j + 1)) <= 2 / (PI * INR (2 * j + 1))).
  { unfold Rdiv. apply Rmult_le_compat_l; [lra|].
    apply Rinv_le_contravar; nra. }
  assert (0 <= 2 / (PI * INR (2 * S j + 1)))
    by (apply Rlt_le, Rdiv_lt_0_compat; nra).
  apply Rmult_le_compat; assumption.
Qed.

(** ** Lemmas: the raw taps read from the centre *)

Lemma length_as_center (M : Z) :
  Z.odd M = true -> (3 <= M)%Z ->
  exists c : nat, (0 < c)%nat /\ M = (2 * Z.of_nat c + 1)%Z.
Proof.
  intros Ho Hm. exists (Z.to_nat ((M - 1) / 2)).
  pose proof (odd_pred_half M Ho). split; lia.
Qed.

Lemma raw_sum_centered (c : nat) (fc : R) (w : window R) :
  let M := (2 * Z.of_nat c + 1)%Z in
  let f := fun n => (ideal_lowpass M fc n * window_coeff w M n)%R in
  (0 < c)%nat ->
  Rsum (raw_taps M fc w)
  = f (Z.of_nat c) + 2 * psum (fun k => f (Z.of_nat c + Z.of_nat k)%Z) c.
Proof.
  intros M f Hc. unfold raw_taps. fold f. rewrite indices_zseq.
  replace (Z.to_nat M) with (2 * c + 1)%nat by (unfold M; lia).
  replace 0%Z with (Z.of_nat c - Z.of_nat c)%Z at 1 by lia.
  rewrite Rsum_centered, <- psum_scale. f_equal. apply psum_ext. intros k Hk.
  replace (Z.of_nat c - Z.of_nat k)%Z with (M - 1 - (Z.of_nat c + Z.of_nat k))%Z
    by (unfold M; lia).
  unfold f at 1.
  rewrite ideal_lowpass_symmetric, window_coeff_symmetric by (unfold M; lia).
  unfold f. num_R. lra.
Qed.

Lemma ideal_lowpass_from_center (c k : nat) :
  ideal_lowpass (2 * Z.of_nat c + 1) (1 / 2) (Z.of_nat c + Z.of_nat k)
  = 1 / 2 * sinc (INR k / 2).
Proof.
  unfold ideal_lowpass, center. num_R. f_equal. f_equal.
  replace (2 * Z.of_nat c + 1 - 1)%Z with (2 * Z.of_nat c)%Z by lia.
  rewrite plus_IZR, mult_IZR, <- !INR_IZR_INZ. lra.
Qed.

Lemma raw_sum_halfband (c : nat) :
  (0 < c)%nat ->
  Rsum (raw_taps (2 * Z.of_nat c + 1) (1 / 2) Hann)
  = 1 / 2 + psum (fun k => sinc (INR k / 2) * hann_tail c k) c.
Proof.
  intros Hc. rewrite raw_sum_centered by assumption. cbv zeta.
  cbn [window_coeff].
  replace (Z.of_nat c) with (Z.of_nat c + Z.of_nat 0)%Z at 2 4 by lia.
  rewrite ideal_lowpass_from_center, hann_from_center, hann_tail_0 by assumption.
  cbn [INR]. replace (0 / 2) with 0 by lra. rewrite sinc_0.
  rewrite <- psum_scale.
  replace (1 / 2 * 1 * 1) with (1 / 2) by lra. f_equal.
  apply psum_ext. intros k Hk.
  rewrite ideal_lowpass_from_center, hann_from_center by assumption. lra.
Qed.

Lemma halfband_psum_nonneg (c : nat) :
  0 <= psum (fun k => sinc (INR k / 2) * hann_tail c k) c.
Proof.
  apply psum_alt_nonneg with (b := halfband_term c).
  - intros j Hj. rewrite sinc_half_odd. unfold halfband_term. lra.
  - intros j Hj. rewrite sinc_half_even. lra.
  - intros j Hj. now apply halfband_term_decr.
  - intros j Hj. apply halfband_term_nonneg.
Qed.

Lemma hann_halfband_sum (M : Z) :
  Z.odd M = true -> (3 <= M)%Z -> 1 / 2 <= Rsum (raw_taps M (1 / 2) Hann).
Proof.
  intros Ho Hm. destruct (length_as_center M Ho Hm) as (c & Hc & ->).
  rewrite raw_sum_halfband by assumption.
  pose proof (halfband_psum_nonneg c). lra.
Qed.

Lemma h_window_Ok :
  h_window (F:=R) = Ok (normalize_dc (raw_taps 47 (1 / 2) Hann)).
Proof.
  unfold h_window, firwin_run, h_window_call.
  cbn [fw_numtaps fw_cutoff fw_window]. rewrite Fc_window_R. unfold M_window.
  apply firwin_Ok; [reflexivity|lia].
Qed.

Lemma h_window_sum : Rsum (normalize_dc (raw_taps 47 (1 / 2) Hann)) = 1.
Proof.
  apply Rsum_normalize_dc.
  pose proof (hann_halfband_sum 47 eq_refl ltac:(lia)). lra.
Qed.

(** ** Properties *)

(** C27. Whenever the windowed ideal response does not sum to zero, the
    design of [firwin] has gain 1 at frequency zero: its taps sum to 1. *)
Theorem firwin_unit_gain (M : Z) (fc : R) (w : window R) (h : list R) :
  firwin M fc w = Ok h -> dc_gain (raw_taps M fc w) <> 0 -> dc_gain h = 1.
Proof.
  unfold dc_gain. intros E Hs. apply firwin_inv in E as (_ & _ & ->).
  now apply Rsum_normalize_dc.
Qed.

Lemma firwin_unit_gain_witness :
  exists h : list R, h_window = Ok h /\ dc_gain h = 1.
Proof.
  eexists. split; [exact h_window_Ok|].
  apply (firwin_unit_gain M_window (1 / 2) Hann).
  - apply firwin_Ok; [reflexivity|unfold M_window; lia].
  - unfold dc_gain, M_window.
    pose proof (hann_halfband_sum 47 eq_refl ltac:(lia)). lra.
Defined.

(** C12. At the script's cut-off 1/2 the Hann design exists for every odd
    length from 3 on, has that length, and has gain exactly 1 at frequency
    zero: the raw taps sum to at least 1/2, so the normalisation never
    divides by zero. *)
Theorem hann_halfband_unit_gain (M : Z) :
  Z.odd M = true -> (3 <= M)%Z ->
  1 / 2 <= dc_gain (raw_taps M (1 / 2) Hann) /\
  exists h, firwin M (1 / 2) Hann = Ok h /\
            length h = Z.to_nat M /\ dc_gain h = 1.
Proof.
  unfold dc_gain. intros Ho Hm. pose proof (hann_halfband_sum M Ho Hm) as Hs.
  split; [assumption|]. eexists. split; [now apply firwin_Ok|].
  rewrite length_normalize_dc, length_raw_taps. split; [reflexivity|].
  apply Rsum_normalize_dc. lra.
Qed.

Lemma hann_halfband_unit_gain_witness :
  1 / 2 <= dc_gain (raw_taps M_window (1 / 2) Hann) /\
  exists h, h_window = Ok h /\
            length h = Z.to_nat M_window /\ dc_gain h = 1.
Proof.
  unfold h_window, firwin_run, h_window_call.
  cbn [fw_numtaps fw_cutoff fw_window]. rewrite Fc_window_R.
  apply (hann_halfband_unit_gain M_window); [reflexivity|unfold M_window; lia].
Defined.

(** C13. The Hann design of line 27 succeeds: 47 taps that sum to 1, are
    symmetric about tap 23, and vanish at both ends and at every odd index
    other than 23. *)
Theorem h_window_design :
  exists h : list R,
    h_window = Ok h /\ length h = 47%nat /\ dc_gain h = 1 /\ rev h = h /\
    nth 0 h 0 = 0 /\ nth 46 h 0 = 0 /\
    forall n : Z, (0 <= n < 47)%Z -> Z.odd n = true -> n <> 23%Z ->
                  nth (Z.to_nat n) h 0 = 0.
Proof.
  unfold dc_gain. rewrite h_window_Ok. eexists. split; [reflexivity|].
  split; [now rewrite length_normalize_dc, length_raw_taps|].
  split; [exact h_window_sum|].
  split; [apply normalize_dc_rev, raw_taps_symmetric; lia|].
  destruct (hann_design_end_taps 47 (1 / 2)) as [E0 E1]; [lia|].
  split; [exact E0|]. split; [exact E1|]. intros n Hn Ho Hne.
  apply Z.odd_spec in Ho as [k ->].
  apply halfband_design_zero with (k - 11)%Z; [reflexivity|lia| |lia].
  change ((47 - 1) / 2)%Z with 23%Z. lia.
Qed.
