(* ===== verification/FreqResponse.v ===== *)
(** * FreqResponse: the frequency-response evaluator

    Lines 74-78 of [src/66.py] sample the transfer function of the four
    designs on a grid of [N_fft] frequencies with [freqz], which returns
    complex values, and lines 81-84 convert them to decibels with
    [20*np.log10(np.abs(H))].

    [evaluate] is the evaluator of spec section 4.6: a grid of [numPoints]
    frequencies uniformly spaced over [0, fs/2], read as [freqz] samples
    them (from 0 in steps of [(fs/2)/numPoints], the Nyquist frequency not
    among them), the discrete-time Fourier
    transform of the taps by direct summation, the complex magnitude, the
    conversion to decibels after raising the magnitude to the floor
    [1e-12], [InvalidGridSize] below two points.  The script's path is
    modelled beside it: [freqz] yields the grid and the complex values
    ([spectrum]), [decibels] applies [to_dB], the expression of lines
    81-84, whose value at magnitude zero is minus infinity.

    Proved here: the size of the curve of [evaluate], the start, the
    ordering and the upper bound of the grid, a unit tap at any
    index reads 0 dB at every frequency, the magnitude at frequency zero is
    the absolute value of the sum of the taps, the script's path agrees
    with [evaluate] wherever the magnitude is at least the floor and
    differs at zero, the responses of the script's two window designs. *)

From Stdlib Require Import ZArith QArith Qreals Reals Lra Lia Bool List.
From S2P Require Import Prelude.
From S2P Require Import Numeric.
From S2P Require Import Normalizer.
From S2P Require Import Kaiser.
From S2P Require Import Designs.
From S2P Require Import Window.
From S2P Require Import WindowGain.
Import ListNotations.

Local Open Scope num_scope.

(** A level in decibels: [np.log10] answers minus infinity at zero. *)
Inductive dB (F : Type) : Type :=
| MinusInf
| Finite (x : F).

Arguments MinusInf {F}.
Arguments Finite {F} x.

Record FrequencyResponseCurve (F : Type) : Type := {
  frequenciesHz : list F;
  magnitudeDb : list F
}.

Arguments frequenciesHz {F} _.
Arguments magnitudeDb {F} _.

Section WithNum.
Context {F : Type} `{Num F} `{!Round F} `{!Transc F}.

(** ** The grid *)

(** [numPoints] frequencies from 0 in steps of [(fs/2)/numPoints]: the grid
    of [freqz] as line 75 calls it, which stops one step short of the
    Nyquist frequency. *)
Definition freq_grid (fs : F) (numPoints : Z) : list F :=
  map (fun k => ofZ k * (fs / ofZ 2) / ofZ numPoints) (indices numPoints).

(** Radians per sample of a frequency in Hz. *)
Definition omega (fs f : F) : F := ofZ 2 * pi * f / fs.

(** ** The transform, by direct summation *)

Fixpoint dtft_re (n : Z) (h : list F) (w : F) : F :=
  match h with
  | [] => ofZ 0
  | x :: h' => x * cosF (w * ofZ n) + dtft_re (n + 1) h' w
  end.

Fixpoint dtft_im (n : Z) (h : list F) (w : F) : F :=
  match h with
  | [] => ofZ 0
  | x :: h' => - (x * sinF (w * ofZ n)) + dtft_im (n + 1) h' w
  end.

Definition cabs (re im : F) : F := sqrtF (re * re + im * im).

(** The transfer function at [w] radians per sample, as a pair. *)
Definition transfer (h : list F) (w : F) : F * F :=
  (dtft_re 0 h w, dtft_im 0 h w).

Definition response (h : list F) (w : F) : F :=
  cabs (fst (transfer h w)) (snd (transfer h w)).

(** The grid and the complex values of the transfer function on it. *)
Definition spectrum (taps : list F) (fs : F) (numPoints : Z)
  : list F * list (F * F) :=
  (freq_grid fs numPoints,
   map (fun f => transfer taps (omega fs f)) (freq_grid fs numPoints)).

(** ** Decibels *)

(** Lines 81-84: [20*np.log10(...)] of a magnitude. *)
Definition to_dB (m : F) : dB F :=
  if m <=? ofZ 0 then MinusInf else Finite (ofZ 20 * log10 m).

(** Spec 4.6: the magnitude is raised to the floor before the logarithm. *)
Definition floor_magnitude : F := dec 1 12.

Definition clamp (m : F) : F :=
  if m <? floor_magnitude then floor_magnitude else m.

Definition to_dB_clamped (m : F) : F := ofZ 20 * log10 (clamp m).

(** ** The evaluator (spec 4.6) *)

Definition evaluate (taps : list F) (fs : F) (numPoints : Z)
  : result (FrequencyResponseCurve F) :=
  (_ <- check_grid numPoints ;;
   Ok {| frequenciesHz := fst (spectrum taps fs numPoints);
         magnitudeDb := map (fun z => to_dB_clamped (cabs (fst z) (snd z)))
                            (snd (spectrum taps fs numPoints)) |})%res.

(** ** The script's evaluations (lines 75-78 and 81-84) *)

(** [freqz(h, 1, N_fft, fs=Fs)]: a design that failed has no response. *)
Definition freqz (h : result (list F)) : result (list F * list (F * F)) :=
  (taps <- h ;; Ok (spectrum taps (ofZ Fs) N_fft))%res.

(** [20 * np.log10(np.abs(H))], point by point. *)
Definition decibels (c : result (list F * list (F * F)))
  : result (list (dB F)) :=
  (c' <- c ;; Ok (map (fun z => to_dB (cabs (fst z) (snd z))) (snd c')))%res.

Definition H_window : result (list F * list (F * F)) := freqz h_window.
Definition H_kaiser : result (list F * list (F * F)) := freqz h_kaiser.

Definition H_window_dB : result (list (dB F)) := decibels H_window.
Definition H_kaiser_dB : result (list (dB F)) := decibels H_kaiser.

End WithNum.

(** A unit tap at index [d]. *)
Definition unit_tap (d : nat) : list R := repeat 0%R d ++ [1%R].

(** ** Lemmas: the grid *)

Lemma length_freq_grid {F : Type} `{Num F} (fs : F) (n : Z) :
  length (freq_grid fs n) = Z.to_nat n.
Proof. unfold freq_grid. now rewrite length_map, length_indices. Qed.

Lemma nth_freq_grid (fs : R) (n k : Z) :
  (0 <= k < n)%Z ->
  nth (Z.to_nat k) (freq_grid fs n) 0%R = (IZR k * (fs / 2) / IZR n)%R.
Proof. intros Hk. unfold freq_grid. now rewrite nth_map_indices. Qed.

Lemma evaluate_Ok {F : Type} `{Num F} `{!Round F} `{!Transc F}
    (taps : list F) (fs : F) (n : Z) :
  (2 <= n)%Z ->
  evaluate taps fs n
  = Ok {| frequenciesHz := freq_grid fs n;
          magnitudeDb := map (fun f => to_dB_clamped (response taps (omega fs f)))
                             (freq_grid fs n) |}.
Proof.
  intros Hn. unfold evaluate. rewrite (proj2 (check_grid_Ok n) Hn).
  cbn [bind spectrum fst snd]. now rewrite map_map.
Qed.

Lemma evaluate_Err {F : Type} `{Num F} `{!Round F} `{!Transc F}
    (taps : list F) (fs : F) (n : Z) :
  (n < 2)%Z -> evaluate taps fs n = Err InvalidGridSize.
Proof.
  intros Hn. unfold evaluate, check_grid.
  now rewrite (proj2 (Z.leb_gt 2 n) Hn).
Qed.

(** ** Lemmas: the transform over the reals *)

Lemma omega_0 (fs : R) : omega fs 0%R = 0%R.
Proof. unfold omega. num_R. unfold Rdiv. lra. Qed.

Lemma dtft_re_0 (h : list R) : forall n, dtft_re n h 0%R = Rsum h.
Proof.
  induction h as [|x h IH]; intros n; cbn [dtft_re]; num_R; [reflexivity|].
  rewrite IH, Rmult_0_l, cos_0. change (Rsum (x :: h)) with (x + Rsum h)%R. lra.
Qed.

Lemma dtft_im_0 (h : list R) : forall n, dtft_im n h 0%R = 0%R.
Proof.
  induction h as [|x h IH]; intros n; cbn [dtft_im]; num_R; [reflexivity|].
  rewrite IH, Rmult_0_l, sin_0. lra.
Qed.

Lemma cabs_real (x : R) : cabs x 0%R = Rabs x.
Proof.
  unfold cabs. num_R. replace (x * x + 0 * 0)%R with (Rsqr x) by (unfold Rsqr; lra).
  apply sqrt_Rsqr_abs.
Qed.

Lemma cabs_unit (t : R) : cabs (cos t) (- sin t)%R = 1%R.
Proof.
  unfold cabs. num_R.
  replace (cos t * cos t + - sin t * - sin t)%R with ((sin t)² + (cos t)²)%R
    by (unfold Rsqr; lra).
  rewrite sin2_cos2. apply sqrt_1.
Qed.

Lemma dtft_unit_tap (d : nat) (w : R) : forall n,
  dtft_re n (unit_tap d) w = cos (w * IZR (n + Z.of_nat d)) /\
  dtft_im n (unit_tap d) w = (- sin (w * IZR (n + Z.of_nat d)))%R.
Proof.
  unfold unit_tap. induction d as [|d IH]; intros n.
  - cbn [repeat app dtft_re dtft_im]. num_R. rewrite Z.add_0_r. split; lra.
  - cbn [repeat app dtft_re dtft_im]. num_R.
    destruct (IH (n + 1)%Z) as [-> ->].
    replace (n + 1 + Z.of_nat d)%Z with (n + Z.of_nat (S d))%Z by lia.
    split; lra.
Qed.

Lemma response_unit_tap (d : nat) (w : R) : response (unit_tap d) w = 1%R.
Proof.
  unfold response, transfer. cbn [fst snd].
  destruct (dtft_unit_tap d w 0) as [-> ->]. apply cabs_unit.
Qed.

Lemma response_0 (h : list R) : response h 0%R = Rabs (Rsum h).
Proof.
  unfold response, transfer. cbn [fst snd].
  rewrite dtft_re_0, dtft_im_0. apply cabs_real.
Qed.

(** ** Lemmas: decibels over the reals *)

Lemma log10_1 : log10 (F:=R) 1%R = 0%R.
Proof. num_R. rewrite ln_1. unfold Rdiv. lra. Qed.

Lemma ln_10_pos : (0 < ln 10)%R.
Proof. rewrite <- ln_1. apply ln_increasing; lra. Qed.

Lemma log10_pow10 (k : nat) : log10 (F:=R) (/ 10 ^ k)%R = (- INR k)%R.
Proof.
  num_R. pose proof ln_10_pos.
  rewrite ln_Rinv by (apply pow_lt; lra).
  rewrite ln_pow by lra. field. lra.
Qed.

Lemma log10_mono (x y : R) :
  (0 < x)%R -> (x <= y)%R -> (log10 x <= log10 y)%R.
Proof.
  intros Hx Hxy. num_R. pose proof ln_10_pos.
  apply Rmult_le_compat_r; [apply Rlt_le, Rinv_0_lt_compat; assumption|].
  destruct Hxy as [Hlt| ->]; [apply Rlt_le, ln_increasing; assumption|lra].
Qed.

Lemma floor_magnitude_R : floor_magnitude (F:=R) = (/ 10 ^ 12)%R.
Proof. unfold floor_magnitude. num_R. lra. Qed.

Lemma floor_magnitude_pos : (0 < floor_magnitude (F:=R))%R.
Proof. rewrite floor_magnitude_R. apply Rinv_0_lt_compat, pow_lt. lra. Qed.

Lemma floor_magnitude_le_1 : (floor_magnitude (F:=R) <= 1)%R.
Proof. unfold floor_magnitude. num_R. lra. Qed.

Lemma clamp_ge (m : R) : (floor_magnitude <= clamp m)%R.
Proof.
  unfold clamp. destruct (Rltb_spec m floor_magnitude); cbn [ltb Num_R].
  - destruct (Rltb_spec m floor_magnitude); lra.
  - destruct (Rltb_spec m floor_magnitude); lra.
Qed.

Lemma clamp_id (m : R) : (floor_magnitude <= m)%R -> clamp m = m.
Proof.
  intros Hm. unfold clamp. cbn [ltb Num_R].
  destruct (Rltb_spec m floor_magnitude); [lra|reflexivity].
Qed.

Lemma clamp_low (m : R) : (m < floor_magnitude)%R -> clamp m = floor_magnitude.
Proof.
  intros Hm. unfold clamp. cbn [ltb Num_R].
  destruct (Rltb_spec m floor_magnitude); [reflexivity|lra].
Qed.

Lemma to_dB_pos (m : R) : (0 < m)%R -> to_dB m = Finite (20 * log10 m)%R.
Proof.
  intros Hm. unfold to_dB. num_R.
  destruct (Rleb_spec m 0); [lra|reflexivity].
Qed.

Lemma to_dB_nonpos (m : R) : (m <= 0)%R -> to_dB m = MinusInf.
Proof.
  intros Hm. unfold to_dB. num_R.
  destruct (Rleb_spec m 0); [reflexivity|lra].
Qed.

Lemma to_dB_clamped_floor : to_dB_clamped (F:=R) floor_magnitude = (-240)%R.
Proof.
  unfold to_dB_clamped. rewrite clamp_id by lra.
  rewrite floor_magnitude_R, log10_pow10. num_R. cbn [INR]. lra.
Qed.

Lemma to_dB_clamped_low (m : R) :
  (m < floor_magnitude)%R -> to_dB_clamped m = (-240)%R.
Proof.
  intros Hm. rewrite <- to_dB_clamped_floor. unfold to_dB_clamped.
  pose proof floor_magnitude_pos.
  now rewrite clamp_low, (clamp_id floor_magnitude) by lra.
Qed.

Lemma to_dB_clamped_lower (m : R) : (-240 <= to_dB_clamped m)%R.
Proof.
  destruct (Rlt_le_dec m floor_magnitude) as [Hm|Hm].
  - rewrite to_dB_clamped_low by assumption. lra.
  - rewrite <- to_dB_clamped_floor. unfold to_dB_clamped.
    pose proof floor_magnitude_pos.
    rewrite !clamp_id by lra. num_R.
    apply Rmult_le_compat_l; [lra|]. now apply log10_mono.
Qed.

Lemma to_dB_clamped_mono (x y : R) :
  (x <= y)%R -> (to_dB_clamped x <= to_dB_clamped y)%R.
Proof.
  intros Hxy. unfold to_dB_clamped. num_R.
  pose proof floor_magnitude_pos. pose proof (clamp_ge x).
  apply Rmult_le_compat_l; [lra|]. apply log10_mono; [lra|].
  destruct (Rlt_le_dec x floor_magnitude) as [Hx|Hx];
    destruct (Rlt_le_dec y floor_magnitude) as [Hy|Hy];
    rewrite ?(clamp_low x), ?(clamp_low y), ?(clamp_id x), ?(clamp_id y)
      by assumption; lra.
Qed.

Lemma to_dB_clamped_agree (m : R) :
  (floor_magnitude <= m)%R -> to_dB m = Finite (to_dB_clamped m).
Proof.
  intros Hm. pose proof floor_magnitude_pos.
  rewrite to_dB_pos by lra. unfold to_dB_clamped. now rewrite clamp_id.
Qed.

Lemma freqz_Ok {F : Type} `{Num F} `{!Round F} `{!Transc F} (taps : list F) :
  freqz (Ok taps) = Ok (spectrum taps (ofZ Fs) N_fft) /\
  decibels (freqz (Ok taps))
  = Ok (map (fun f => to_dB (response taps (omega (ofZ Fs) f)))
            (freq_grid (ofZ Fs) N_fft)).
Proof.
  split; [reflexivity|]. unfold decibels, freqz, spectrum.
  cbn [bind fst snd]. now rewrite map_map.
Qed.

Lemma freqz_Err {F : Type} `{Num F} `{!Round F} `{!Transc F} (e : error) :
  freqz (F:=F) (Err e) = Err e /\ decibels (F:=F) (Err e) = Err e.
Proof. split; reflexivity. Qed.

(** ** Properties *)

(** A curve returned by [evaluate] has exactly [numPoints] frequencies
    and as many magnitudes. *)
Theorem evaluate_sizes {F : Type} `{Num F} `{!Round F} `{!Transc F}
    (taps : list F) (fs : F) (n : Z) (c : FrequencyResponseCurve F) :
  evaluate taps fs n = Ok c ->
  (2 <= n)%Z /\ length (frequenciesHz c) = Z.to_nat n /\
  length (magnitudeDb c) = Z.to_nat n.
Proof.
  intros E. destruct (Z.le_gt_cases 2 n) as [Hn|Hn].
  - rewrite evaluate_Ok in E by assumption. inv E.
    cbn [frequenciesHz magnitudeDb]. now rewrite length_map, length_freq_grid.
  - rewrite evaluate_Err in E by assumption. discriminate.
Qed.

(** C35. The grid starts at frequency zero, rises strictly and stays below
    the Nyquist frequency [fs/2], which is not one of its points. *)
Theorem freq_grid_below_nyquist (fs : R) (n : Z) :
  (1 <= n)%Z -> (0 < fs)%R ->
  nth 0 (freq_grid fs n) 0%R = 0%R /\
  Forall (fun f => (0 <= f < fs / 2)%R) (freq_grid fs n) /\
  forall k, (0 <= k < n - 1)%Z ->
    (nth (Z.to_nat k) (freq_grid fs n) 0 < nth (Z.to_nat (k + 1)) (freq_grid fs n) 0)%R.
Proof.
  intros Hn Hfs. assert (Hd : (0 < IZR n)%R) by (apply IZR_lt; lia).
  change 0%nat with (Z.to_nat 0). split; [|split].
  - rewrite nth_freq_grid by lia. unfold Rdiv. lra.
  - apply Forall_forall. intros f Hf. unfold freq_grid in Hf.
    apply in_map_iff in Hf as (k & <- & Hk). apply In_indices in Hk. num_R.
    assert (0 <= IZR k < IZR n)%R by (split; [apply IZR_le|apply IZR_lt]; lia).
    split; [apply Rmult_le_pos; [nra|apply Rlt_le, Rinv_0_lt_compat; lra]|].
    apply Rmult_lt_reg_r with (IZR n); [assumption|].
    unfold Rdiv. rewrite Rmult_assoc, Rinv_l by lra. nra.
  - intros k Hk. rewrite !nth_freq_grid by lia. rewrite plus_IZR.
    apply Rmult_lt_compat_r; [now apply Rinv_0_lt_compat|]. nra.
Qed.

Lemma freq_grid_below_nyquist_witness :
  nth 0 (freq_grid (IZR Fs) N_fft) 0%R = 0%R /\
  Forall (fun f => (0 <= f < IZR Fs / 2)%R) (freq_grid (IZR Fs) N_fft) /\
  forall k, (0 <= k < N_fft - 1)%Z ->
    (nth (Z.to_nat k) (freq_grid (IZR Fs) N_fft) 0
     < nth (Z.to_nat (k + 1)) (freq_grid (IZR Fs) N_fft) 0)%R.
Proof.
  apply (freq_grid_below_nyquist (IZR Fs) N_fft); [unfold N_fft; lia|].
  unfold Fs. lra.
Defined.

(** C26. A single unit tap, at index 0 or delayed to any index, reads 0 dB
    at every grid point: with the floor, through [evaluate] on any grid of
    two points or more, and without it, through lines 75-84 of the script. *)
Theorem unit_tap_0dB (d : nat) (fs : R) (n : Z) :
  (2 <= n)%Z ->
  (exists c, evaluate (unit_tap d) fs n = Ok c /\
             length (magnitudeDb c) = Z.to_nat n /\
             Forall (fun m => m = 0%R) (magnitudeDb c)) /\
  (exists ms, decibels (freqz (Ok (unit_tap d))) = Ok ms /\
              length ms = Z.to_nat N_fft /\
              Forall (fun m => m = Finite 0%R) ms).
Proof.
  intros Hn. split.
  - eexists. split; [now apply evaluate_Ok|].
    cbn [magnitudeDb]. split; [now rewrite length_map, length_freq_grid|].
    apply Forall_forall. intros m Hm.
    apply in_map_iff in Hm as (f & <- & _). rewrite response_unit_tap.
    unfold to_dB_clamped. rewrite clamp_id by apply floor_magnitude_le_1.
    rewrite log10_1. num_R. lra.
  - eexists. split; [apply freqz_Ok|].
    split; [now rewrite length_map, length_freq_grid|].
    apply Forall_forall. intros m Hm.
    apply in_map_iff in Hm as (f & <- & _). rewrite response_unit_tap.
    rewrite to_dB_pos by lra. rewrite log10_1. f_equal. num_R. lra.
Qed.

Lemma unit_tap_0dB_witness :
  (exists c, evaluate (unit_tap 3) (IZR Fs) N_fft = Ok c /\
             length (magnitudeDb c) = Z.to_nat N_fft /\
             Forall (fun m => m = 0%R) (magnitudeDb c)) /\
  (exists ms, decibels (freqz (Ok (unit_tap 3))) = Ok ms /\
              length ms = Z.to_nat N_fft /\
              Forall (fun m => m = Finite 0%R) ms).
Proof. apply (unit_tap_0dB 3 (IZR Fs) N_fft). unfold N_fft. lia. Defined.

(** At frequency zero the magnitude of the response is the absolute
    value of the sum of the taps. *)
Theorem response_dc (h : list R) (fs : R) :
  response h (omega fs 0%R) = Rabs (Rsum h).
Proof. rewrite omega_0. apply response_0. Qed.

(** The conversion of the spec never reads below -240 dB, is
    non-decreasing, and agrees with the conversion of lines 81-84 on every
    magnitude from the floor [1e-12] upwards. *)
Theorem to_dB_clamped_spec (m : R) :
  (-240 <= to_dB_clamped m)%R /\
  ((m < floor_magnitude)%R -> to_dB_clamped m = (-240)%R) /\
  ((floor_magnitude <= m)%R -> to_dB m = Finite (to_dB_clamped m)).
Proof.
  split; [|split].
  - apply to_dB_clamped_lower.
  - apply to_dB_clamped_low.
  - apply to_dB_clamped_agree.
Qed.

(** C15. The script's path refines the evaluator of the spec: [freqz] and
    [evaluate] use the same grid, and at every grid point where the
    magnitude is at least the floor the figure of lines 81-84 is the
    figure of [evaluate]; where the magnitude is zero the script has minus
    infinity and the evaluator -240 dB. *)
Theorem decibels_refine_evaluate (taps : list R) :
  exists (c : FrequencyResponseCurve R) (ms : list (dB R)),
    evaluate taps (IZR Fs) N_fft = Ok c /\
    decibels (freqz (Ok taps)) = Ok ms /\
    fst (spectrum taps (IZR Fs) N_fft) = frequenciesHz c /\
    length ms = length (magnitudeDb c) /\
    forall k, (0 <= k < N_fft)%Z ->
      let m := response taps (omega (IZR Fs) (nth (Z.to_nat k) (frequenciesHz c) 0%R)) in
      ((floor_magnitude <= m)%R ->
       nth (Z.to_nat k) ms MinusInf
       = Finite (nth (Z.to_nat k) (magnitudeDb c) 0%R)) /\
      (m = 0%R ->
       nth (Z.to_nat k) ms (Finite 0%R) = MinusInf /\
       nth (Z.to_nat k) (magnitudeDb c) 0%R = (-240)%R).
Proof.
  destruct (freqz_Ok taps) as [_ Ed]. change (@ofZ R _ Fs) with (IZR Fs) in Ed.
  eexists. eexists. split; [apply evaluate_Ok; unfold N_fft; lia|].
  split; [exact Ed|]. cbn [frequenciesHz magnitudeDb spectrum fst].
  split; [reflexivity|]. split; [now rewrite !length_map|].
  intros k Hk. unfold freq_grid. rewrite !map_map.
  rewrite !nth_map_indices by assumption. cbv zeta. split.
  - apply to_dB_clamped_agree.
  - intros ->. split; [apply to_dB_nonpos; lra|].
    apply to_dB_clamped_low, floor_magnitude_pos.
Qed.

(** C14. The response of the Hann design (lines 75 and 81) has 2048 points,
    and its first point, at frequency zero, reads exactly 0 dB. *)
Theorem H_window_dB_dc :
  exists (fs : list R) (H : list (R * R)) (ms : list (dB R)),
    H_window = Ok (fs, H) /\ H_window_dB = Ok ms /\
    length fs = 2048%nat /\ length H = 2048%nat /\ length ms = 2048%nat /\
    nth 0 fs 0%R = 0%R /\ nth 0 ms MinusInf = Finite 0%R.
Proof.
  unfold H_window_dB, H_window. rewrite h_window_Ok.
  destruct (freqz_Ok (normalize_dc (raw_taps 47 (1 / 2)%R Hann))) as [E1 E2].
  rewrite E2, E1. unfold spectrum.
  eexists. eexists. eexists. split; [reflexivity|]. split; [reflexivity|].
  rewrite !length_map, length_freq_grid.
  split; [reflexivity|]. split; [reflexivity|]. split; [reflexivity|].
  change 0%nat with (Z.to_nat 0).
  rewrite !nth_freq_grid by (unfold N_fft; lia).
  unfold freq_grid. rewrite !map_map, nth_map_indices by (unfold N_fft; lia).
  unfold Fs, N_fft. num_R. cbn [Z.sub Z.add Z.opp Z.pos_sub Pos.pred_double].
  split; [lra|].
  replace (0 * (5000 / 2) / 2048)%R with 0%R by lra.
  rewrite response_dc, h_window_sum, Rabs_R1, to_dB_pos by lra.
  rewrite log10_1. f_equal. lra.
Qed.

(** The response of the Kaiser design (lines 76 and 82) is not
    computed: the [InvalidLength] of the designer propagates through the
    evaluation and the conversion to decibels. *)
Theorem H_kaiser_dB_error :
  H_kaiser (F:=R) = Err InvalidLength /\ H_kaiser_dB (F:=R) = Err InvalidLength.
Proof.
  unfold H_kaiser_dB, H_kaiser, h_kaiser, firwin_run, h_kaiser_call.
  cbn [fw_numtaps fw_cutoff fw_window].
  rewrite firwin_Err by (left; exact M_kaiser_even_R). split; reflexivity.
Qed.
