(* ===== verification/FreqSampling.v ===== *)
(** * FreqSampling: the frequency-sampling designer

    Line 70 of [src/66.py] calls [firwin2] with the breakpoints of line 65
    and the gains of line 66.  [firwin2] follows spec section 4.5: the
    desired gain is interpolated linearly between the breakpoints on a
    dense grid of [dense_grid M + 1] frequencies from 0 to the Nyquist
    frequency, each grid point receives the linear phase of a delay of
    [(M-1)/2] samples, the inverse discrete Fourier relation of the real
    sequence of period [2 * dense_grid M] is evaluated at the [M] tap
    indices, and the result is multiplied by the taper.  With the linear
    phase folded in, tap [n] is

      [1/(2K) * sum_k c_k * A_k * cos (pi k/K * (n - (M-1)/2))]

    with [c_k = 1] at both ends of the grid and [2] inside.
    [InvalidBreakpoints] is answered by the contract of [Designs].

    Spec 4.5 allows a Hann taper or the identity window and line 70 names
    none: the choice is the parameter [t] of [firwin2], [h_firls], [H_firls]
    and [H_firls_dB], and what is proved of them holds for either choice.

    Proved here: the length and the symmetry of every design of [firwin2],
    the interpolated gain of the script, the taps of the script's call. *)

From Stdlib Require Import ZArith QArith Qreals Reals Lra Lia Bool List Sorted.
From S2P Require Import Prelude.
From S2P Require Import Numeric.
From S2P Require Import Normalizer.
From S2P Require Import Kaiser.
From S2P Require Import Designs.
From S2P Require Import Window.
From S2P Require Import WindowGain.
From S2P Require Import FreqResponse.
Import ListNotations.

Local Open Scope num_scope.

Inductive taper : Type :=
| Identity
| HannTaper.

Section WithNum.
Context {F : Type} `{Num F} `{!Round F} `{!Transc F}.

(** Piecewise-linear gain through the breakpoints; the first gain to the
    left of the first breakpoint, the last gain to the right of the last. *)
Fixpoint interp (freq gain : list F) (x : F) : F :=
  match freq, gain with
  | f0 :: ((f1 :: _) as freq'), g0 :: ((g1 :: _) as gain') =>
      if x <=? f0 then g0
      else if x <=? f1 then g0 + (g1 - g0) * (x - f0) / (f1 - f0)
      else interp freq' gain' x
  | _, g0 :: _ => g0
  | _, [] => ofZ 0
  end.

(** Half the period of the dense grid: the power of two not below [M]. *)
Definition dense_grid (M : Z) : Z := 2 ^ Z.log2_up M.

Definition grid_weight (K k : Z) : F :=
  if (k =? 0)%Z || (k =? K)%Z then ofZ 1 else ofZ 2.

(** The inverse Fourier relation at tap [n], for gains [A] on the grid. *)
Definition sampled_tap (M K : Z) (A : Z -> F) (n : Z) : F :=
  sumF (map (fun k => grid_weight K k * A k
                      * cosF (pi * ofZ k / ofZ K * (ofZ n - center M)))
            (indices (K + 1)))
  / ofZ (2 * K).

Definition taper_coeff (t : taper) (M n : Z) : F :=
  match t with
  | Identity => ofZ 1
  | HannTaper => hann M n
  end.

Definition firwin2 (M : Z) (freq gain : list F) (nyquist : F) (t : taper)
  : result (list F) :=
  (_ <- validate_breakpoints freq gain ;;
   let K := dense_grid M in
   let A := fun k => interp freq gain (ofZ k * nyquist / ofZ K) in
   Ok (map (fun n => taper_coeff t M n * sampled_tap M K A n) (indices M)))%res.

Definition firwin2_run (c : firwin2_call F) (t : taper) : result (list F) :=
  firwin2 (f2_numtaps c) (f2_freq c) (f2_gain c) (nyquist_of (f2_fs c)) t.

(** ** The script's design (line 70) and its evaluation (lines 78, 84) *)

(** Line 70 gives no window argument: [t] is the taper the designer
    applies when none is given. *)
Definition h_firls (t : taper) : result (list F) := firwin2_run h_firls_call t.

Definition H_firls (t : taper) : result (list F * list (F * F)) :=
  freqz (h_firls t).
Definition H_firls_dB (t : taper) : result (list (dB F)) :=
  decibels (H_firls t).

End WithNum.

(** ** Lemmas: interpolation of the script's gains *)

Lemma interp_script (x : R) :
  interp (F:=R) bands_firls desired_amps_firls x
  = if Rleb x 1000 then 1%R
    else if Rleb x 1500 then (1 + (0 - 1) * (x - 1000) / (1500 - 1000))%R
    else 0%R.
Proof.
  unfold bands_firls, desired_amps_firls, F_pass, F_stop, Fs.
  cbn [interp]. num_R.
  destruct (Rleb_spec x 0), (Rleb_spec x 1000), (Rleb_spec x 1500),
    (Rleb_spec x (5000 / 2)); try lra; try reflexivity.
Qed.

Lemma interp_script_range (x : R) :
  (0 <= interp (F:=R) bands_firls desired_amps_firls x <= 1)%R.
Proof.
  rewrite interp_script.
  destruct (Rleb_spec x 1000); [lra|]. destruct (Rleb_spec x 1500); lra.
Qed.

(** ** Lemmas: the taps *)

Lemma sampled_tap_symmetric (M K : Z) (A : Z -> R) (n : Z) :
  sampled_tap M K A (M - 1 - n) = sampled_tap M K A n.
Proof.
  unfold sampled_tap. f_equal. f_equal. apply map_ext. intros k.
  unfold center. num_R. f_equal.
  replace (PI * IZR k / IZR K * (IZR (M - 1 - n) - IZR (M - 1) / 2))%R
    with (- (PI * IZR k / IZR K * (IZR n - IZR (M - 1) / 2)))%R
    by (rewrite (minus_IZR (M - 1) n); lra).
  apply cos_neg.
Qed.

Lemma taper_coeff_symmetric (t : taper) (M n : Z) :
  (1 < M)%Z -> taper_coeff (F:=R) t M (M - 1 - n) = taper_coeff t M n.
Proof.
  intros HM. destruct t; cbn [taper_coeff]; [reflexivity|].
  now apply hann_symmetric.
Qed.

Lemma firwin2_Ok {F : Type} `{Num F} `{!Round F} `{!Transc F}
    (M : Z) (freq gain : list F) (nyquist : F) (t : taper) :
  strictly_increasing freq = true -> length freq = length gain ->
  firwin2 M freq gain nyquist t
  = Ok (map (fun n => taper_coeff t M n
                      * sampled_tap M (dense_grid M)
                          (fun k => interp freq gain
                                      (ofZ k * nyquist / ofZ (dense_grid M))) n)
            (indices M)).
Proof.
  intros Hs Hl. unfold firwin2, validate_breakpoints.
  now rewrite Hs, Hl, Nat.eqb_refl.
Qed.

Lemma firwin2_inv {F : Type} `{Num F} `{!Round F} `{!Transc F}
    (M : Z) (freq gain : list F) (nyquist : F) (t : taper) (h : list F) :
  firwin2 M freq gain nyquist t = Ok h ->
  strictly_increasing freq = true /\ length freq = length gain /\
  h = map (fun n => taper_coeff t M n
                    * sampled_tap M (dense_grid M)
                        (fun k => interp freq gain
                                    (ofZ k * nyquist / ofZ (dense_grid M))) n)
          (indices M).
Proof.
  intros E. unfold firwin2, validate_breakpoints, guard in E.
  destruct (strictly_increasing freq) eqn:Hs; [|discriminate].
  destruct (length freq =? length gain)%nat eqn:Hl; [|discriminate].
  apply Nat.eqb_eq in Hl. cbn in E. inv E. auto.
Qed.

Lemma strictly_increasing_sorted (l : list R) :
  strictly_increasing l = true <-> Sorted Rlt l.
Proof.
  induction l as [|x [|y t] IH].
  - split; [constructor|reflexivity].
  - split; [repeat constructor|reflexivity].
  - change (strictly_increasing (x :: y :: t))
      with ((x <? y)%num && strictly_increasing (y :: t)).
    rewrite andb_true_iff, IH. num_R. rewrite Rltb_lt. split.
    + intros [Hxy Hs]. constructor; [assumption|now constructor].
    + intros Hs. inversion Hs as [|? ? Hs' Hd]; subst.
      inversion Hd; subst. tauto.
Qed.

Lemma h_firls_breakpoints :
  strictly_increasing (bands_firls (F:=R)) = true /\
  length (bands_firls (F:=R)) = length (desired_amps_firls (F:=R)).
Proof.
  split; [|reflexivity].
  unfold bands_firls, F_pass, F_stop, Fs. cbn [strictly_increasing]. num_R.
  rewrite !andb_true_iff, !Rltb_lt. repeat split; lra.
Qed.

(** The script's call succeeds, whatever the taper, with the tapered
    samples at the 18 tap indices. *)
Lemma h_firls_Ok (t : taper) :
  h_firls (F:=R) t
  = Ok (map (fun n => taper_coeff t 18 n
                      * sampled_tap 18 (dense_grid 18)
                          (fun k => interp bands_firls desired_amps_firls
                                      (ofZ k * nyquist_of (ofZ Fs)
                                       / ofZ (dense_grid 18))) n)
            (indices 18)).
Proof.
  unfold h_firls, firwin2_run, h_firls_call, M_firls.
  cbn [f2_numtaps f2_freq f2_gain f2_fs]. rewrite M_kaiser_R.
  destruct h_firls_breakpoints as [Hs Hl]. now apply firwin2_Ok.
Qed.

(** ** Properties *)

(** C25. Every design returned by [firwin2] has exactly the requested
    number of taps, odd or even, and is symmetric about its centre. *)
Theorem firwin2_length_symmetric (M : Z) (freq gain : list R) (nyquist : R)
    (t : taper) (h : list R) :
  firwin2 M freq gain nyquist t = Ok h -> (1 < M)%Z ->
  length h = Z.to_nat M /\ rev h = h.
Proof.
  intros E HM. apply firwin2_inv in E as (_ & _ & ->).
  split; [now rewrite length_map, length_indices|].
  apply rev_map_indices. intros n _.
  now rewrite taper_coeff_symmetric, sampled_tap_symmetric.
Qed.

Lemma firwin2_length_symmetric_witness :
  exists h : list R,
    h_firls Identity = Ok h /\ length h = Z.to_nat (M_firls (F:=R)) /\
    rev h = h.
Proof.
  eexists. split; [apply h_firls_Ok|].
  apply (firwin2_length_symmetric (M_firls (F:=R)) bands_firls desired_amps_firls
           (nyquist_of (IZR Fs)) Identity).
  - unfold M_firls. rewrite M_kaiser_R.
    apply firwin2_Ok; apply h_firls_breakpoints.
  - unfold M_firls. rewrite M_kaiser_R. lia.
Defined.

(** C32. The gain the script asks for is 1 up to 1000 Hz, falls linearly to
    0 at 1500 Hz and is 0 from there on; it never leaves [0, 1]. *)
Theorem interp_script_gain (x : R) :
  ((x <= 1000)%R -> interp bands_firls desired_amps_firls x = 1%R) /\
  ((1000 <= x <= 1500)%R ->
     interp bands_firls desired_amps_firls x = ((1500 - x) / 500)%R) /\
  ((1500 <= x)%R -> interp bands_firls desired_amps_firls x = 0%R) /\
  (0 <= interp bands_firls desired_amps_firls x <= 1)%R.
Proof.
  split; [|split; [|split]]; try apply interp_script_range;
    intros Hx; rewrite interp_script;
    destruct (Rleb_spec x 1000); destruct (Rleb_spec x 1500); lra.
Qed.

Lemma interp_script_gain_witness :
  ((1250 <= 1000)%R -> interp bands_firls desired_amps_firls 1250%R = 1%R) /\
  ((1000 <= 1250 <= 1500)%R ->
     interp bands_firls desired_amps_firls 1250%R = ((1500 - 1250) / 500)%R) /\
  ((1500 <= 1250)%R -> interp bands_firls desired_amps_firls 1250%R = 0%R) /\
  (0 <= interp bands_firls desired_amps_firls 1250%R <= 1)%R.
Proof. exact (interp_script_gain 1250%R). Defined.
