(* ===== verification/Remez.v ===== *)
(** * Remez: the equiripple designer

    Line 58 of [src/66.py] calls [remez].  [remez] follows spec section
    4.4 for a single weight (the contract has no weight argument, so the
    weighted error is the error):

    - the bands are sampled on a dense grid, [grid_density] intervals per
      unknown in every band, and never between bands ([dense]);
    - [r + 1] extremal candidates, [r = (M+1)/2], are seeded evenly over
      the grid ([initial_extrema]);
    - step 2 solves for the trial response and the common error magnitude
      in closed form: [ripple] is the magnitude, [levels] the values the
      response must take at the candidates, [trial] the interpolant of
      those values in the variable [cos w] ([lagrange]);
    - step 3 evaluates the error on the grid ([errors]), keeps the local
      maxima of its absolute value ([peaks_from]: a point at least as high
      as its left neighbour and higher than its right one, among
      neighbours of its sign and its band), merges neighbours of equal
      sign ([alternate]) and drops the smaller end until [r + 1]
      candidates remain ([trim]);
    - the loop [remez_loop] repeats steps 2 and 3 until the candidates stop
      changing or [max_iterations] = 250 exchanges are spent, and reports
      which of the two happened;
    - the taps are the inverse Fourier relation of the trial response
      sampled at [r] frequencies ([remez_tap]).

    Proved here: the script's call is rejected; after step 2 the error at the candidates alternates in sign with equal
    magnitude; the loop never runs more than its fuel and reports
    convergence only at a fixed point of the exchange; the design has the
    requested length and is symmetric. *)

From Stdlib Require Import ZArith QArith Qreals Reals Lra Lia Bool List.
From Stdlib Require Import Setoid Morphisms RelationClasses.
From S2P Require Import Prelude.
From S2P Require Import Numeric.
From S2P Require Import Normalizer.
From S2P Require Import Kaiser.
From S2P Require Import Designs.
From S2P Require Import Window.
From S2P Require Import WindowGain.
From S2P Require Import FreqResponse.
Import ListNotations.

Local Open Scope num_scope.

(** The state of the exchange loop when it stops. *)
Record remez_state : Type := {
  rs_extrema : list nat;
  rs_iterations : nat;
  rs_converged : bool
}.

(** A design with its warning: [Some NonConvergence] when the iteration
    bound was reached. *)
Record remez_design (F : Type) : Type := {
  rd_taps : list F;
  rd_warning : option error
}.

Arguments rd_taps {F} _.
Arguments rd_warning {F} _.

Definition unknowns (M : Z) : Z := (M + 1) / 2.
Definition grid_density : Z := 16.
Definition max_iterations : nat := 250.

Definition initial_extrema (r : Z) (N : nat) : list nat :=
  map (fun i => Z.to_nat (i * (Z.of_nat N - 1) / r)) (indices (r + 1)).

Section WithNum.
Context {F : Type} `{Num F}.

(** ** Step 2: the trial response through the candidates *)

(** The product of [x - y] over the nodes [y] of [l]. *)
Fixpoint prod_diff (x : F) (l : list F) : F :=
  match l with
  | [] => ofZ 1
  | y :: t => (x - y) * prod_diff x t
  end.

(** The interpolant through the nodes of [before ++ after], summed over
    the nodes of [after]. *)
Fixpoint lagrange (before after : list (F * F)) (x : F) : F :=
  match after with
  | [] => ofZ 0
  | (xk, ck) :: rest =>
      ck * prod_diff x (map fst (before ++ rest))
         / prod_diff xk (map fst (before ++ rest))
      + lagrange (before ++ [(xk, ck)]) rest x
  end.

(** The weights [1 / prod_(i <> k) (x_k - x_i)]. *)
Fixpoint bary (before after : list F) : list F :=
  match after with
  | [] => []
  | xk :: rest =>
      ofZ 1 / prod_diff xk (before ++ rest) :: bary (before ++ [xk]) rest
  end.

(** [s, -s, s, ...], [n] terms. *)
Fixpoint signs (n : nat) (s : F) : list F :=
  match n with
  | O => []
  | S n' => s :: signs n' (- s)
  end.

Definition dot (u v : list F) : F :=
  sumF (map (fun p => fst p * snd p) (combine u v)).

(** The common error magnitude. *)
Definition ripple (xs ds : list F) : F :=
  dot (bary [] xs) ds / dot (signs (length xs) (ofZ 1)) (bary [] xs).

(** The values of the trial response at the candidates. *)
Definition levels (xs ds : list F) : list F :=
  map (fun p => fst p - snd p * ripple xs ds)
      (combine ds (signs (length xs) (ofZ 1))).

Definition trial (xs ds : list F) (x : F) : F :=
  lagrange [] (combine xs (levels xs ds)) x.

(** ** Step 3: the exchange *)

Definition absF (x : F) : F := if x <? ofZ 0 then - x else x.

Definition same_sign (x y : F) : bool :=
  Bool.eqb (x <? ofZ 0) (y <? ofZ 0).

(** Having the same sign, as a relation. *)
Definition sign_eq (x y : F) : Prop := same_sign x y = true.

(** A point is at least as high as a neighbour of its sign ([strict]:
    higher than it); a neighbour of the other sign never hides it. *)
Definition higher (strict : bool) (e other : F) : bool :=
  if same_sign other e
  then if strict then absF other <? absF e else absF other <=? absF e
  else true.

Fixpoint peaks_from (i : nat) (prev : option F) (E : list F) : list nat :=
  match E with
  | [] => []
  | e :: rest =>
      let left := match prev with
                  | None => true
                  | Some p => higher false e p
                  end in
      let right := match rest with
                   | [] => true
                   | n :: _ => higher true e n
                   end in
      (if left && right then [i] else []) ++ peaks_from (S i) (Some e) rest
  end.

(** The peaks of every band: a band edge has no neighbour outside its
    band.  [chunk] is the number of grid points of a band. *)
Fixpoint band_peaks (chunk bands i : nat) (E : list F) : list nat :=
  match bands with
  | O => []
  | S b =>
      peaks_from i None (firstn chunk E)
      ++ band_peaks chunk b (i + chunk) (skipn chunk E)
  end.

Fixpoint alternate (E : list F) (cur : nat) (cands : list nat) : list nat :=
  match cands with
  | [] => [cur]
  | c :: rest =>
      if same_sign (nth cur E (ofZ 0)) (nth c E (ofZ 0))
      then alternate E
             (if absF (nth cur E (ofZ 0)) <? absF (nth c E (ofZ 0))
              then c else cur) rest
      else cur :: alternate E c rest
  end.

Fixpoint trim (fuel : nat) (E : list F) (n : nat) (S : list nat) : list nat :=
  match fuel with
  | O => S
  | Datatypes.S fuel' =>
      if (n <? length S)%nat
      then if absF (nth (hd O S) E (ofZ 0)) <? absF (nth (last S O) E (ofZ 0))
           then trim fuel' E n (tl S)
           else trim fuel' E n (removelast S)
      else S
  end.

Definition exchange_of (E : list F) (n chunk bands : nat)
  : option (list nat) :=
  match band_peaks chunk bands 0 E with
  | [] => None
  | p :: ps =>
      let A := alternate E p ps in
      let T := trim (length A) E n A in
      if (length T =? n)%nat then Some T else None
  end.

(** Neighbouring candidates have errors of opposite sign. *)
Fixpoint alternating (E : list F) (l : list nat) : bool :=
  match l with
  | a :: ((b :: _) as t) =>
      negb (same_sign (nth a E (ofZ 0)) (nth b E (ofZ 0))) && alternating E t
  | _ => true
  end.

Context `{!Round F} `{!Transc F}.

(** ** The grid *)

Definition band_grid (n : Z) (lo hi d : F) : list (F * F) :=
  map (fun i => (lo + ofZ i * (hi - lo) / ofZ n, d)) (indices (n + 1)).

Fixpoint dense (n : Z) (bands desired : list F) : list (F * F) :=
  match bands, desired with
  | lo :: hi :: bands', d :: desired' =>
      band_grid n lo hi d ++ dense n bands' desired'
  | _, _ => []
  end.

(** The variable of the trial response: [cos w] at frequency [f]. *)
Definition abscissa (nyquist f : F) : F := cosF (pi * f / nyquist).

Definition node_xs (nyquist : F) (grid : list (F * F)) (S : list nat) : list F :=
  map (fun i => abscissa nyquist (fst (nth i grid (ofZ 0, ofZ 0)))) S.

Definition node_ds (grid : list (F * F)) (S : list nat) : list F :=
  map (fun i => snd (nth i grid (ofZ 0, ofZ 0))) S.

Definition response_at (nyquist : F) (grid : list (F * F)) (S : list nat)
  : F -> F :=
  trial (node_xs nyquist grid S) (node_ds grid S).

Definition errors (nyquist : F) (grid : list (F * F)) (S : list nat) : list F :=
  map (fun g => snd g - response_at nyquist grid S (abscissa nyquist (fst g)))
      grid.

Definition exchange (nyquist : F) (grid : list (F * F)) (chunk : nat)
    (S : list nat) : option (list nat) :=
  exchange_of (errors nyquist grid S) (length S) chunk (length grid / chunk).

(** ** The loop *)

Fixpoint remez_loop (fuel iter : nat) (nyquist : F) (grid : list (F * F))
    (chunk : nat) (S : list nat) : remez_state :=
  match fuel with
  | O => {| rs_extrema := S; rs_iterations := iter; rs_converged := false |}
  | Datatypes.S fuel' =>
      match exchange nyquist grid chunk S with
      | None =>
          {| rs_extrema := S; rs_iterations := iter; rs_converged := false |}
      | Some S' =>
          if list_eq_dec Nat.eq_dec S' S
          then {| rs_extrema := S; rs_iterations := iter; rs_converged := true |}
          else remez_loop fuel' (Datatypes.S iter) nyquist grid chunk S'
      end
  end.

(** ** The taps *)

Definition remez_tap (M : Z) (A : F -> F) (n : Z) : F :=
  sumF (map (fun k => (if (k =? 0)%Z then ofZ 1 else ofZ 2)
                      * A (cosF (ofZ 2 * pi * ofZ k / ofZ M))
                      * cosF (ofZ 2 * pi * ofZ k / ofZ M * (ofZ n - center M)))
            (indices (unknowns M)))
  / ofZ M.

(** ** The designer (spec 4.4) *)

Definition remez (M : Z) (bands desired : list F) (nyquist : F)
  : result (remez_design F) :=
  (_ <- validate_bands nyquist bands ;;
   let r := unknowns M in
   let grid := dense (grid_density * r) bands desired in
   let st := remez_loop max_iterations 0 nyquist grid
                        (Z.to_nat (grid_density * r + 1))
                        (initial_extrema r (length grid)) in
   Ok {| rd_taps := map (remez_tap M (response_at nyquist grid (rs_extrema st)))
                        (indices M);
         rd_warning := if rs_converged st then None else Some NonConvergence |})%res.

Definition remez_run (c : remez_call F) : result (remez_design F) :=
  remez (rz_numtaps c) (rz_bands c) (rz_desired c) (nyquist_of (rz_fs c)).

(** ** The script's design (line 58) and its evaluation (lines 77, 83) *)

Definition h_remez : result (list F) :=
  (d <- remez_run h_remez_call ;; Ok (rd_taps d))%res.

Definition H_remez : result (list F * list (F * F)) := freqz h_remez.
Definition H_remez_dB : result (list (dB F)) := decibels H_remez.

End WithNum.

(** ** Lemmas: interpolation over the reals *)

Lemma prod_diff_zero (x : R) (l : list R) : In x l -> prod_diff x l = 0%R.
Proof.
  induction l as [|y t IH]; intros Hx; [contradiction|].
  cbn [prod_diff]. num_R. destruct Hx as [->|Hx]; [|rewrite IH by assumption]; lra.
Qed.

Lemma prod_diff_nonzero (x : R) (l : list R) :
  ~ In x l -> prod_diff x l <> 0%R.
Proof.
  induction l as [|y t IH]; intros Hx; cbn [prod_diff]; num_R; [lra|].
  apply Rmult_integral_contrapositive. split.
  - intros E. apply Hx. left. lra.
  - apply IH. intros Hin. apply Hx. now right.
Qed.

Lemma lagrange_before (before after : list (R * R)) (x : R) :
  In x (map fst before) -> lagrange before after x = 0%R.
Proof.
  revert before. induction after as [|[xk ck] rest IH]; intros before Hx;
    cbn [lagrange]; num_R; [reflexivity|].
  rewrite IH by (rewrite map_app; apply in_or_app; now left).
  rewrite prod_diff_zero by (rewrite map_app; apply in_or_app; now left).
  unfold Rdiv. lra.
Qed.

Lemma lagrange_at_node (before after : list (R * R)) (x c : R) :
  NoDup (map fst (before ++ after)) -> In (x, c) after ->
  lagrange before after x = c.
Proof.
  revert before. induction after as [|[xk ck] rest IH]; intros before Hnd Hin;
    [contradiction|]. cbn [lagrange]. num_R.
  assert (Hnd' : NoDup (map fst ((before ++ [(xk, ck)]) ++ rest)))
    by now rewrite <- app_assoc.
  rewrite map_app in Hnd. cbn [map fst] in Hnd.
  pose proof (NoDup_remove_2 _ _ _ Hnd) as Hfresh. rewrite <- map_app in Hfresh.
  destruct Hin as [[= -> ->]|Hin].
  - rewrite lagrange_before
      by (rewrite map_app; apply in_or_app; right; now left).
    field. now apply prod_diff_nonzero.
  - rewrite (IH _ Hnd' Hin).
    rewrite (prod_diff_zero x)
      by (rewrite map_app; apply in_or_app; right;
          now apply (in_map fst _ (x, c))).
    unfold Rdiv. lra.
Qed.

Lemma nth_signs (n k : nat) (s : R) :
  (k < n)%nat -> nth k (signs n s) 0%R = ((-1) ^ k * s)%R.
Proof.
  revert k s. induction n as [|n IH]; intros k s Hk; [lia|].
  destruct k as [|k]; cbn [signs nth].
  - rewrite pow_O. lra.
  - rewrite IH by lia. num_R. rewrite <- tech_pow_Rmult. ring.
Qed.

Lemma length_signs {F : Type} `{Num F} (n : nat) (s : F) :
  length (signs n s) = n.
Proof. revert s. induction n as [|n IH]; intros s; cbn; [|rewrite IH]; reflexivity. Qed.

Lemma length_levels (xs ds : list R) :
  length ds = length xs -> length (levels xs ds) = length xs.
Proof.
  intros Hl. unfold levels.
  rewrite length_map, length_combine, length_signs. lia.
Qed.

Lemma nth_levels (xs ds : list R) (k : nat) :
  length ds = length xs -> (k < length xs)%nat ->
  nth k (levels xs ds) 0%R = (nth k ds 0 - (-1) ^ k * ripple xs ds)%R.
Proof.
  intros Hl Hk. unfold levels.
  rewrite (nth_indep _ 0%R ((fun p : R * R => (fst p - snd p * ripple xs ds)%R) (0%R, 0%R)))
    by (rewrite length_map, length_combine, length_signs; lia).
  rewrite (map_nth (fun p : R * R => (fst p - snd p * ripple xs ds)%R)).
  rewrite combine_nth by (rewrite length_signs; assumption).
  cbn [fst snd]. rewrite nth_signs by assumption. num_R. ring.
Qed.

Lemma map_fst_combine_eq {A B : Type} (l : list A) (l' : list B) :
  length l = length l' -> map fst (combine l l') = l.
Proof.
  revert l'. induction l as [|a l IH]; intros [|b l'] Hl;
    try discriminate; [reflexivity|].
  cbn. f_equal. apply IH. now injection Hl.
Qed.

Lemma trial_at_node (xs ds : list R) (k : nat) :
  NoDup xs -> length ds = length xs -> (k < length xs)%nat ->
  trial xs ds (nth k xs 0%R) = nth k (levels xs ds) 0%R.
Proof.
  intros Hnd Hl Hk. unfold trial. pose proof (length_levels xs ds Hl) as Hll.
  apply lagrange_at_node.
  - cbn [app]. rewrite map_fst_combine_eq by (symmetry; assumption). assumption.
  - rewrite <- (combine_nth xs (levels xs ds) k 0%R 0%R) by (symmetry; assumption).
    apply nth_In. rewrite length_combine. lia.
Qed.

(** ** Lemmas: the taps and the loop *)

Lemma remez_tap_symmetric (M : Z) (A : R -> R) (n : Z) :
  remez_tap M A (M - 1 - n) = remez_tap M A n.
Proof.
  unfold remez_tap. f_equal. f_equal. apply map_ext. intros k.
  unfold center. num_R. f_equal.
  replace (2 * PI * IZR k / IZR M * (IZR (M - 1 - n) - IZR (M - 1) / 2))%R
    with (- (2 * PI * IZR k / IZR M * (IZR n - IZR (M - 1) / 2)))%R
    by (rewrite (minus_IZR (M - 1) n); lra).
  apply cos_neg.
Qed.

Lemma remez_inv {F : Type} `{Num F} `{!Round F} `{!Transc F}
    (M : Z) (bands desired : list F) (nyquist : F) (d : remez_design F) :
  remez M bands desired nyquist = Ok d ->
  validate_bands nyquist bands = Ok tt /\
  exists A st, rd_taps d = map (remez_tap M A) (indices M) /\
               rd_warning d = (if rs_converged st then None else Some NonConvergence).
Proof.
  intros E. unfold remez in E.
  destruct (validate_bands nyquist bands) as [[]|e]; [|discriminate].
  cbn [bind] in E. injection E as <-. split; [reflexivity|].
  do 2 eexists. cbn [rd_taps rd_warning]. split; reflexivity.
Qed.

Lemma remez_Err {F : Type} `{Num F} `{!Round F} `{!Transc F}
    (M : Z) (bands desired : list F) (nyquist : F) (e : error) :
  validate_bands nyquist bands = Err e ->
  remez M bands desired nyquist = Err e.
Proof. intros E. unfold remez. now rewrite E. Qed.

Lemma remez_validate_script_R :
  remez_validate (F:=R) h_remez_call = Err InvalidBandSpec.
Proof.
  unfold remez_validate, validate_bands. apply guard_Err. split; [|reflexivity].
  apply andb_false_iff. right. apply not_true_is_false. unfold ends_at.
  rewrite eqF_R. cbn [rz_fs rz_bands h_remez_call bands_remez last].
  unfold nyquist_of, Fs. num_R. lra.
Qed.

Lemma remez_Ok {F : Type} `{Num F} `{!Round F} `{!Transc F}
    (M : Z) (bands desired : list F) (nyquist : F) :
  validate_bands nyquist bands = Ok tt ->
  exists d, remez M bands desired nyquist = Ok d.
Proof. intros E. unfold remez. rewrite E. cbn [bind]. eauto. Qed.

Lemma length_bary {F : Type} `{Num F} (after : list F) : forall before,
  length (bary before after) = length after.
Proof.
  induction after as [|x rest IH]; intros before; cbn; [|rewrite IH]; reflexivity.
Qed.

Lemma dot_cons (b d : R) (bs ds : list R) :
  dot (b :: bs) (d :: ds) = (b * d + dot bs ds)%R.
Proof. reflexivity. Qed.

Lemma dot_levels (delta : R) : forall bs ds ss : list R,
  length ds = length bs -> length ss = length bs ->
  dot bs (map (fun p : R * R => (fst p - snd p * delta)%R) (combine ds ss))
  = (dot bs ds - delta * dot ss bs)%R.
Proof.
  induction bs as [|b bs IH]; intros [|d ds] [|s ss] Hd Hs; try discriminate.
  - unfold dot. cbn. lra.
  - injection Hd as Hd. injection Hs as Hs.
    cbn [combine map fst snd]. rewrite !dot_cons, (IH ds ss Hd Hs). ring.
Qed.

Lemma validate_bands_halfband :
  validate_bands (F:=R) 1%R [0; 2 / 5; 3 / 5; 1]%R = Ok tt.
Proof.
  unfold validate_bands. apply guard_Ok. rewrite !andb_true_iff.
  unfold ends_at. cbn [starts_at_zero last].
  rewrite !eqF_R, bands_ok_wf. cbn [bands_wf]. num_R. repeat split; lra.
Qed.

(** ** Lemmas: the exchange *)

Section Exchange.
Context {F : Type} `{Num F}.

#[global] Instance sign_eq_equiv : Equivalence (sign_eq (F:=F)).
Proof.
  unfold sign_eq, same_sign. split.
  - intros x. apply eqb_reflx.
  - intros x y. rewrite !eqb_true_iff. congruence.
  - intros x y z. rewrite !eqb_true_iff. congruence.
Qed.

#[global] Instance same_sign_proper :
  Proper (sign_eq ==> sign_eq ==> eq) (same_sign (F:=F)).
Proof.
  intros x x' Hx y y' Hy. unfold sign_eq, same_sign in *.
  apply (proj1 (eqb_true_iff _ _)) in Hx. apply (proj1 (eqb_true_iff _ _)) in Hy.
  now rewrite Hx, Hy.
Qed.

(** [alternate] returns an alternating list that starts with a candidate
    of the sign of [cur]. *)
Lemma alternate_spec (E : list F) (cands : list nat) : forall cur,
  alternating E (alternate E cur cands) = true /\
  sign_eq (nth cur E (ofZ 0))
          (nth (hd O (alternate E cur cands)) E (ofZ 0)).
Proof.
  induction cands as [|c rest IH]; intros cur; cbn [alternate].
  - split; reflexivity.
  - destruct (same_sign (nth cur E (ofZ 0)) (nth c E (ofZ 0))) eqn:Hs.
    + destruct (absF (nth cur E (ofZ 0)) <? absF (nth c E (ofZ 0)));
        [destruct (IH c) as [A B]|destruct (IH cur) as [A B]];
        split; try assumption. now transitivity (nth c E (ofZ 0)).
    + destruct (IH c) as [A B]. split; [|reflexivity].
      destruct (alternate E c rest) as [|a t] eqn:Ha; [reflexivity|].
      cbn [alternating hd] in *. now rewrite A, <- B, Hs.
Qed.

Lemma alternating_tl (E : list F) (l : list nat) :
  alternating E l = true -> alternating E (tl l) = true.
Proof.
  destruct l as [|a [|b t]]; cbn [alternating tl]; try reflexivity.
  now intros [_ Ht]%andb_true_iff.
Qed.

Lemma alternating_removelast (E : list F) (l : list nat) :
  alternating E l = true -> alternating E (removelast l) = true.
Proof.
  induction l as [|a [|b t] IH]; try reflexivity.
  intros [Hab Ht]%andb_true_iff. specialize (IH Ht).
  destruct t as [|c t]; [reflexivity|].
  change (removelast (a :: b :: c :: t)) with (a :: b :: removelast (c :: t)).
  change (removelast (b :: c :: t)) with (b :: removelast (c :: t)) in IH.
  cbn [alternating] in *. now rewrite Hab.
Qed.

Lemma trim_alternating (E : list F) (n fuel : nat) : forall l,
  alternating E l = true -> alternating E (trim fuel E n l) = true.
Proof.
  induction fuel as [|fuel IH]; intros l Hl; cbn [trim]; [assumption|].
  destruct (n <? length l)%nat; [|assumption].
  destruct (absF _ <? absF _); apply IH;
    [now apply alternating_tl|now apply alternating_removelast].
Qed.

End Exchange.

(** ** Properties *)

(** C17. After step 2 the error of the trial response at the candidates
    alternates in sign with the common magnitude [ripple], whenever the
    candidates are distinct; and, the divisor of [ripple] not being zero,
    the weighted sum of the levels that is the coefficient of the highest
    power of the interpolant vanishes, so the response needs no more than
    [r] cosine terms. *)
Theorem trial_equiripple (xs ds : list R) :
  NoDup xs -> length ds = length xs ->
  (forall k, (k < length xs)%nat ->
     (nth k ds 0 - trial xs ds (nth k xs 0) = (-1) ^ k * ripple xs ds)%R) /\
  (dot (signs (length xs) 1%R) (bary [] xs) <> 0%R ->
   dot (bary [] xs) (levels xs ds) = 0%R).
Proof.
  intros Hnd Hl. split.
  - intros k Hk. rewrite trial_at_node, nth_levels by assumption. ring.
  - intros Hden. unfold levels.
    rewrite dot_levels by (rewrite ?length_signs, length_bary; auto).
    unfold ripple. num_R. now field.
Qed.

(** One candidate in each band of the script, at frequency zero and at
    the Nyquist frequency, with the gains of line 54. *)
Lemma trial_equiripple_witness :
  let xs := [1; -1]%R in
  let ds := desired_amps_remez (F:=R) in
  (forall k, (k < length xs)%nat ->
     (nth k ds 0 - trial xs ds (nth k xs 0) = (-1) ^ k * ripple xs ds)%R) /\
  (dot (signs (length xs) 1%R) (bary [] xs) <> 0%R ->
   dot (bary [] xs) (levels xs ds) = 0%R).
Proof.
  apply (trial_equiripple [1; -1]%R desired_amps_remez); [|reflexivity].
  repeat constructor; cbn [In]; intros Hin; decompose [or] Hin; lra.
Defined.

(** C18. The exchange loop stops within its fuel: it counts at most [fuel]
    exchanges, reports convergence only when the exchange returns the
    candidates it was given, and otherwise either spent the fuel or found
    no admissible exchange. *)
Theorem remez_loop_stops {F : Type} `{Num F} `{!Round F} `{!Transc F}
    (nyquist : F) (grid : list (F * F)) (chunk fuel : nat) :
  forall (iter : nat) (S : list nat),
  let st := remez_loop fuel iter nyquist grid chunk S in
  (iter <= rs_iterations st <= iter + fuel)%nat /\
  (rs_converged st = true ->
   exchange nyquist grid chunk (rs_extrema st) = Some (rs_extrema st)) /\
  (rs_converged st = false ->
   rs_iterations st = (iter + fuel)%nat \/
   exchange nyquist grid chunk (rs_extrema st) = None).
Proof.
  induction fuel as [|fuel IH]; intros iter S; cbn [remez_loop].
  - cbn. split; [lia|]. split; [discriminate|]. intros _. left. lia.
  - destruct (exchange nyquist grid chunk S) as [S'|] eqn:E.
    + destruct (list_eq_dec Nat.eq_dec S' S) as [->|Hne].
      * cbn. split; [lia|]. split; [now intros _|discriminate].
      * specialize (IH (Datatypes.S iter) S'). cbv zeta in IH.
        destruct IH as ([I1 I2] & I3 & I4).
        split; [lia|]. split; [assumption|].
        intros Hc. destruct (I4 Hc) as [->|]; [left; lia|now right].
    + cbn. split; [lia|]. split; [discriminate|]. intros _. now right.
Qed.

(** The loop of the designer on the band list and the gains of lines
    53-54, read against Nyquist 1, with the length of line 47. *)
Lemma remez_loop_stops_witness :
  let r := unknowns (M_remez (F:=R)) in
  let grid := dense (grid_density * r) (bands_remez (F:=R)) desired_amps_remez in
  let chunk := Z.to_nat (grid_density * r + 1) in
  let st := remez_loop max_iterations 0 1%R grid chunk
                       (initial_extrema r (length grid)) in
  (0 <= rs_iterations st <= 0 + max_iterations)%nat /\
  (rs_converged st = true ->
   exchange 1%R grid chunk (rs_extrema st) = Some (rs_extrema st)) /\
  (rs_converged st = false ->
   rs_iterations st = (0 + max_iterations)%nat \/
   exchange 1%R grid chunk (rs_extrema st) = None).
Proof.
  intros r grid chunk.
  exact (remez_loop_stops 1%R grid chunk max_iterations 0
           (initial_extrema r (length grid))).
Defined.

(** C21. A design of [remez] has exactly the requested number of taps, is
    symmetric about its centre, and carries no warning other than
    [NonConvergence]; the only error of the designer is
    [InvalidBandSpec]. *)
Theorem remez_design_shape (M : Z) (bands desired : list R) (nyquist : R)
    (d : remez_design R) :
  remez M bands desired nyquist = Ok d ->
  length (rd_taps d) = Z.to_nat M /\ rev (rd_taps d) = rd_taps d /\
  (rd_warning d = None \/ rd_warning d = Some NonConvergence) /\
  validate_bands nyquist bands = Ok tt.
Proof.
  intros E. apply remez_inv in E as (Hv & A & st & -> & ->).
  split; [now rewrite length_map, length_indices|].
  split; [apply rev_map_indices; intros n _; apply remez_tap_symmetric|].
  split; [destruct (rs_converged st); auto|assumption].
Qed.

Lemma remez_design_shape_witness :
  exists d : remez_design R,
    remez (M_remez (F:=R)) bands_remez desired_amps_remez 1%R = Ok d /\
    length (rd_taps d) = Z.to_nat (M_remez (F:=R)) /\
    rev (rd_taps d) = rd_taps d /\
    (rd_warning d = None \/ rd_warning d = Some NonConvergence) /\
    validate_bands 1%R (bands_remez (F:=R)) = Ok tt.
Proof.
  assert (V : validate_bands 1%R (bands_remez (F:=R)) = Ok tt)
    by (rewrite bands_remez_R; exact validate_bands_halfband).
  destruct (remez_Ok (M_remez (F:=R)) bands_remez desired_amps_remez 1%R V)
    as [d E].
  exists d. split; [exact E|].
  exact (remez_design_shape (M_remez (F:=R)) _ _ _ d E).
Defined.

(** An admissible exchange returns exactly the requested number of
    candidates, and the errors at neighbouring candidates have opposite
    signs. *)
Theorem exchange_alternates {F : Type} `{Num F}
    (E : list F) (n chunk bands : nat) (T : list nat) :
  exchange_of E n chunk bands = Some T ->
  length T = n /\ alternating E T = true.
Proof.
  unfold exchange_of. destruct (band_peaks chunk bands 0 E) as [|p ps];
    [discriminate|]. cbv zeta.
  destruct (length _ =? n)%nat eqn:Hl; [|discriminate].
  intros [= <-]. split; [now apply Nat.eqb_eq|].
  apply trim_alternating, alternate_spec.
Qed.

Lemma exchange_alternates_witness :
  length [1; 2; 3]%nat = 3%nat /\
  alternating [1; -1; 2; -3]%Q [1; 2; 3]%nat = true.
Proof.
  apply (exchange_alternates (F:=Q) [1; -1; 2; -3]%Q 3 4 1 [1; 2; 3]%nat).
  vm_compute. reflexivity.
Defined.
