(* ===== verification/RemezInv.v ===== *)
(** * RemezInv: what every state of the exchange loop satisfies

    The loop of [Remez.remez_loop] carries a list of indices into the dense
    grid, the candidates for the extrema of the error.  The trial response
    of step 2 divides by the differences of the abscissas at these indices,
    so it is only meaningful when the candidates are distinct points of
    the grid.  This file states that as the predicate [wf_extrema] (the
    requested number of indices, strictly increasing, inside the grid) and
    shows that the initial candidates satisfy it and that the search for
    peaks, the selection of an alternating subsequence, the trimming and
    therefore the exchange and the loop preserve it.

    Over the reals, for a grid of strictly increasing frequencies between
    0 and the Nyquist frequency, well-formed candidates have distinct
    abscissas, since the cosine is strictly decreasing there; so at every
    turn of the loop the error on the grid at the candidates equals the
    common magnitude [ripple] with alternating sign. *)

From Stdlib Require Import ZArith QArith Reals Lra Lia Bool List Sorted.
From S2P Require Import Prelude.
From S2P Require Import Numeric.
From S2P Require Import Kaiser.
From S2P Require Import Designs.
From S2P Require Import Window.
From S2P Require Import Remez.
Import ListNotations.

(** ** Definitions *)

(** [n] grid indices, strictly increasing, below the size [N] of the
    grid. *)
Definition wf_extrema (N n : nat) (S : list nat) : Prop :=
  length S = n /\ StronglySorted lt S /\ Forall (fun i => (i < N)%nat) S.

(** The same as a test. *)
Fixpoint increasingb (l : list nat) : bool :=
  match l with
  | a :: ((b :: _) as t) => (a <? b)%nat && increasingb t
  | _ => true
  end.

Definition wf_extremab (N n : nat) (S : list nat) : bool :=
  (length S =? n)%nat && increasingb S && forallb (fun i => (i <? N)%nat) S.

(** Bands that do not touch: each has [lo < hi] and ends below the start
    of the next. *)
Fixpoint bands_apart (l : list R) : Prop :=
  match l with
  | [] => True
  | [_] => False
  | lo :: hi :: rest =>
      (lo < hi)%R /\ (hi < hd (hi + 1) rest)%R /\ bands_apart rest
  end.

(** The frequencies of a grid rise strictly and lie between 0 and the
    Nyquist frequency. *)
Definition grid_increasing (nyquist : R) (grid : list (R * R)) : Prop :=
  StronglySorted Rlt (map fst grid) /\
  Forall (fun f => (0 <= f <= nyquist)%R) (map fst grid).

(** ** Lemmas: sorted lists of indices *)

Lemma StronglySorted_app (l1 l2 : list nat) :
  StronglySorted lt l1 -> StronglySorted lt l2 ->
  (forall a b, In a l1 -> In b l2 -> (a < b)%nat) ->
  StronglySorted lt (l1 ++ l2).
Proof.
  induction l1 as [|a l1 IH]; intros H1 H2 H; [assumption|].
  inv H1. cbn. constructor.
  - apply IH; [assumption..|]. intros x y Hx Hy. apply H; [now right|assumption].
  - apply Forall_app. split; [assumption|].
    apply Forall_forall. intros y Hy. apply H; [now left|assumption].
Qed.

Lemma StronglySorted_incl_cons (a : nat) (l l' : list nat) :
  StronglySorted lt (a :: l) -> StronglySorted lt l' -> incl l' l ->
  StronglySorted lt (a :: l').
Proof.
  intros Ha Hl' Hi. inv Ha. constructor; [assumption|].
  apply Forall_forall. intros x Hx. apply Hi in Hx.
  rewrite Forall_forall in H2. now apply H2.
Qed.

Lemma StronglySorted_skip (a b : nat) (l : list nat) :
  StronglySorted lt (a :: b :: l) ->
  StronglySorted lt (a :: l) /\ StronglySorted lt (b :: l).
Proof.
  intros Hs. apply StronglySorted_inv in Hs as [Hb Ha]. split; [|assumption].
  apply StronglySorted_inv in Hb as [Hl _]. apply Forall_inv_tail in Ha.
  now constructor.
Qed.

Lemma StronglySorted_tl (l : list nat) :
  StronglySorted lt l -> StronglySorted lt (tl l).
Proof. intros H. destruct l; [constructor|now inv H]. Qed.

Lemma incl_removelast (l : list nat) : incl (removelast l) l.
Proof.
  induction l as [|a [|b t] IH]; [easy|easy|].
  change (removelast (a :: b :: t)) with (a :: removelast (b :: t)).
  intros x [->|Hx]; [now left|right; now apply IH].
Qed.

Lemma StronglySorted_removelast (l : list nat) :
  StronglySorted lt l -> StronglySorted lt (removelast l).
Proof.
  induction l as [|a [|b t] IH]; intros H; [constructor|constructor|].
  change (removelast (a :: b :: t)) with (a :: removelast (b :: t)).
  apply StronglySorted_incl_cons with (b :: t); [assumption| |apply incl_removelast].
  apply IH. now inv H.
Qed.

Lemma increasingb_sorted (l : list nat) :
  increasingb l = true <-> StronglySorted lt l.
Proof.
  split.
  - induction l as [|a [|b t] IH]; intros H; [constructor|repeat constructor|].
    cbn [increasingb] in H. apply andb_true_iff in H as [Hab Ht].
    apply Nat.ltb_lt in Hab. specialize (IH Ht). constructor; [assumption|].
    constructor; [assumption|]. inv IH.
    eapply Forall_impl; [|eassumption]. intros x Hx. lia.
  - induction l as [|a [|b t] IH]; intros H; [reflexivity|reflexivity|].
    inv H. inv H3. cbn [increasingb]. apply andb_true_iff. split; [now apply Nat.ltb_lt|].
    now apply IH.
Qed.

Lemma wf_extremab_spec (N n : nat) (S : list nat) :
  wf_extremab N n S = true <-> wf_extrema N n S.
Proof.
  unfold wf_extremab, wf_extrema.
  rewrite !andb_true_iff, Nat.eqb_eq, increasingb_sorted, forallb_forall, Forall_forall.
  split.
  - intros [[A B] C]. repeat split; try assumption.
    intros x Hx. now apply Nat.ltb_lt, C.
  - intros (A & B & C). repeat split; try assumption.
    intros x Hx. now apply Nat.ltb_lt, C.
Qed.

(** ** Lemmas: the steps of the exchange *)

Section Exchange.
Context {F : Type} `{Num F}.

Lemma peaks_from_wf (E : list F) : forall i prev,
  StronglySorted lt (peaks_from i prev E) /\
  Forall (fun k => (i <= k < i + length E)%nat) (peaks_from i prev E).
Proof.
  induction E as [|e rest IH]; intros i prev; cbn [peaks_from]; cbv zeta.
  - split; constructor.
  - destruct (IH (S i) (Some e)) as [Hs Hf].
    assert (Hf' : Forall (fun k => (S i <= k < i + length (e :: rest))%nat)
                         (peaks_from (S i) (Some e) rest)).
    { eapply Forall_impl; [|exact Hf]. cbn [length]. intros; lia. }
    assert (Hr : Forall (fun k => (i <= k < i + length (e :: rest))%nat)
                        (peaks_from (S i) (Some e) rest)).
    { eapply Forall_impl; [|exact Hf']. cbn beta. intros; lia. }
    destruct (_ && _); cbn [app]; [|now split].
    split; constructor; try assumption; [|cbn [length]; lia].
    eapply Forall_impl; [|exact Hf']. cbn beta. intros; lia.
Qed.

Lemma band_peaks_wf (chunk : nat) : forall bands i (E : list F),
  StronglySorted lt (band_peaks chunk bands i E) /\
  Forall (fun k => (i <= k < i + length E)%nat) (band_peaks chunk bands i E).
Proof.
  induction bands as [|b IH]; intros i E; cbn [band_peaks]; [split; constructor|].
  destruct (peaks_from_wf (firstn chunk E) i None) as [S1 F1].
  destruct (IH (i + chunk)%nat (skipn chunk E)) as [S2 F2].
  rewrite length_firstn in F1. rewrite length_skipn in F2.
  rewrite Forall_forall in F1, F2. split.
  - apply StronglySorted_app; [assumption..|].
    intros x y Hx Hy. specialize (F1 x Hx). specialize (F2 y Hy). lia.
  - apply Forall_app. split; apply Forall_forall; intros x Hx;
      [specialize (F1 x Hx)|specialize (F2 x Hx)]; lia.
Qed.

Lemma alternate_incl (E : list F) (cands : list nat) : forall cur,
  incl (alternate E cur cands) (cur :: cands).
Proof.
  induction cands as [|c rest IH]; intros cur; cbn [alternate]; [apply incl_refl|].
  destruct (same_sign _ _).
  - destruct (absF _ <? absF _)%num; intros x Hx; apply IH in Hx;
      destruct Hx as [->|Hx]; cbn; auto.
  - intros x [->|Hx]; [now left|right; now apply IH].
Qed.

Lemma alternate_sorted (E : list F) (cands : list nat) : forall cur,
  StronglySorted lt (cur :: cands) -> StronglySorted lt (alternate E cur cands).
Proof.
  induction cands as [|c rest IH]; intros cur Hs; cbn [alternate]; [assumption|].
  destruct (StronglySorted_skip _ _ _ Hs) as [Ha Hc]. destruct (same_sign _ _).
  - destruct (absF _ <? absF _)%num; now apply IH.
  - apply StronglySorted_incl_cons with (c :: rest);
      [assumption|now apply IH|apply alternate_incl].
Qed.

Lemma trim_incl (E : list F) (n fuel : nat) : forall S, incl (trim fuel E n S) S.
Proof.
  induction fuel as [|fuel IH]; intros S; cbn [trim]; [apply incl_refl|].
  destruct (n <? length S)%nat; [|apply incl_refl].
  destruct (absF _ <? absF _)%num; intros x Hx; apply IH in Hx.
  - destruct S; [assumption|now right].
  - now apply incl_removelast.
Qed.

Lemma trim_sorted (E : list F) (n fuel : nat) : forall S,
  StronglySorted lt S -> StronglySorted lt (trim fuel E n S).
Proof.
  induction fuel as [|fuel IH]; intros S HS; cbn [trim]; [assumption|].
  destruct (n <? length S)%nat; [|assumption].
  destruct (absF _ <? absF _)%num; apply IH;
    [now apply StronglySorted_tl|now apply StronglySorted_removelast].
Qed.

Lemma exchange_of_wf (E : list F) (n chunk bands : nat) (T : list nat) :
  exchange_of E n chunk bands = Some T -> wf_extrema (length E) n T.
Proof.
  unfold exchange_of. destruct (band_peaks_wf chunk bands 0 E) as [Hs Hf].
  destruct (band_peaks chunk bands 0 E) as [|p ps]; [discriminate|]. cbv zeta.
  destruct (length _ =? n)%nat eqn:Hl; [|discriminate].
  intros [= <-]. split; [now apply Nat.eqb_eq|]. split.
  - now apply trim_sorted, alternate_sorted.
  - apply Forall_forall. intros x Hx.
    apply trim_incl, alternate_incl in Hx.
    rewrite Forall_forall in Hf. specialize (Hf x Hx). lia.
Qed.

End Exchange.

(** ** Lemmas: the initial candidates *)

Lemma StronglySorted_map_seq {A : Type} (rel : A -> A -> Prop) (g : nat -> A) :
  forall n a,
  (forall i j, (a <= i < j)%nat -> (j < a + n)%nat -> rel (g i) (g j)) ->
  StronglySorted rel (map g (seq a n)).
Proof.
  induction n as [|n IH]; intros a Hg; cbn [seq map]; constructor.
  - apply IH. intros i j Hi Hj. apply Hg; lia.
  - apply Forall_forall. intros y Hy. apply in_map_iff in Hy as (j & <- & Hj).
    apply in_seq in Hj. apply Hg; lia.
Qed.

Lemma spread_increasing (r n i j : Z) :
  (1 <= r <= n)%Z -> (0 <= i < j)%Z -> (i * n / r < j * n / r)%Z.
Proof.
  intros Hr Hij.
  assert (A : (i * n / r + 1 = (i * n + 1 * r) / r)%Z) by (rewrite Z.div_add; lia).
  assert (B : ((i * n + 1 * r) / r <= j * n / r)%Z) by (apply Z.div_le_mono; nia).
  lia.
Qed.

Lemma spread_bounds (r n i : Z) :
  (1 <= r)%Z -> (0 <= n)%Z -> (0 <= i <= r)%Z -> (0 <= i * n / r <= n)%Z.
Proof.
  intros Hr Hn Hi. split; [apply Z.div_pos; nia|].
  rewrite <- (Z.div_mul n r) at 2 by lia. apply Z.div_le_mono; nia.
Qed.

Lemma initial_extrema_wf (r : Z) (N : nat) :
  (1 <= r)%Z -> (Z.to_nat r < N)%nat ->
  wf_extrema N (Z.to_nat (r + 1)) (initial_extrema r N).
Proof.
  intros Hr HN. unfold initial_extrema, indices. rewrite map_map.
  split; [now rewrite length_map, length_seq|]. split.
  - apply StronglySorted_map_seq. intros i j Hi Hj.
    apply Z2Nat.inj_lt; [apply spread_bounds; lia..|].
    apply spread_increasing; lia.
  - apply Forall_forall. intros y Hy. apply in_map_iff in Hy as (j & <- & Hj).
    apply in_seq in Hj.
    pose proof (spread_bounds r (Z.of_nat N - 1) (Z.of_nat j)
                  ltac:(lia) ltac:(lia) ltac:(lia)). lia.
Qed.

(** ** Lemmas: the exchange and the loop *)

Section Loop.
Context {F : Type} `{Num F} `{!Round F} `{!Transc F}.

Lemma length_errors (nyquist : F) (grid : list (F * F)) (S : list nat) :
  length (errors nyquist grid S) = length grid.
Proof. apply length_map. Qed.

Lemma exchange_wf (nyquist : F) (grid : list (F * F)) (chunk : nat) (S S' : list nat) :
  exchange nyquist grid chunk S = Some S' ->
  wf_extrema (length grid) (length S) S'.
Proof.
  intros E. apply exchange_of_wf in E. now rewrite length_errors in E.
Qed.

Lemma remez_loop_wf (nyquist : F) (grid : list (F * F)) (chunk n fuel : nat) :
  forall iter S,
  wf_extrema (length grid) n S ->
  wf_extrema (length grid) n (rs_extrema (remez_loop fuel iter nyquist grid chunk S)).
Proof.
  induction fuel as [|fuel IH]; intros iter S HS; cbn [remez_loop]; [exact HS|].
  destruct (exchange nyquist grid chunk S) as [S'|] eqn:E; [|exact HS].
  destruct (list_eq_dec Nat.eq_dec S' S); [exact HS|].
  apply IH. apply exchange_wf in E. destruct HS as [Hn _]. now rewrite Hn in E.
Qed.

End Loop.

(** ** Lemmas: distinct abscissas *)

Lemma StronglySorted_nth_lt (l : list R) : forall i j,
  StronglySorted Rlt l -> (i < j < length l)%nat ->
  (nth i l 0 < nth j l 0)%R.
Proof.
  induction l as [|a l IH]; intros i j Hs Hij; [cbn in Hij; lia|].
  apply StronglySorted_inv in Hs as [Hl Ha]. destruct j as [|j]; [lia|].
  destruct i as [|i]; cbn [nth].
  - rewrite Forall_forall in Ha. apply Ha, nth_In. cbn in Hij. lia.
  - apply IH; [assumption|cbn in Hij; lia].
Qed.

Lemma abscissa_decreasing (nyquist f1 f2 : R) :
  (0 < nyquist)%R -> (0 <= f1 < f2)%R -> (f2 <= nyquist)%R ->
  (abscissa nyquist f2 < abscissa nyquist f1)%R.
Proof.
  intros Hn Hf H2. unfold abscissa. num_R. pose proof PI_RGT_0 as Hpi.
  assert (Hi : (0 < / nyquist)%R) by now apply Rinv_0_lt_compat.
  assert (B : forall f, (0 <= f <= nyquist)%R -> (0 <= PI * f / nyquist <= PI)%R).
  { intros f Hf'. unfold Rdiv. split.
    - apply Rmult_le_pos; [apply Rmult_le_pos|]; lra.
    - rewrite Rmult_assoc. rewrite <- (Rmult_1_r PI) at 2.
      apply Rmult_le_compat_l; [lra|].
      apply Rmult_le_reg_r with nyquist; [assumption|].
      rewrite Rmult_assoc, Rinv_l by lra. lra. }
  apply cos_decreasing_1; try apply B; try lra.
  unfold Rdiv. apply Rmult_lt_compat_r; [assumption|].
  apply Rmult_lt_compat_l; lra.
Qed.

Lemma StronglySorted_Rgt_NoDup (l : list R) : StronglySorted Rgt l -> NoDup l.
Proof.
  induction 1 as [|a l Hl IH Ha]; constructor; [|assumption].
  intros Hin. rewrite Forall_forall in Ha. specialize (Ha a Hin).
  unfold Rgt in Ha. lra.
Qed.

Lemma grid_frequency (grid : list (R * R)) (i : nat) :
  fst (nth i grid (0%R, 0%R)) = nth i (map fst grid) 0%R.
Proof. symmetry. apply (map_nth fst grid (0%R, 0%R)). Qed.

Lemma node_xs_decreasing (nyquist : R) (grid : list (R * R)) (S : list nat) :
  (0 < nyquist)%R -> grid_increasing nyquist grid ->
  StronglySorted lt S -> Forall (fun i => (i < length grid)%nat) S ->
  StronglySorted Rgt (node_xs nyquist grid S).
Proof.
  intros Hn [Hg Hr] HS. induction HS as [|a S HS IH Ha]; intros Hlt; cbn; constructor.
  - apply IH. now apply Forall_inv_tail in Hlt.
  - apply Forall_map. apply Forall_forall. intros b Hb.
    rewrite Forall_forall in Ha, Hlt, Hr.
    pose proof (Ha b Hb) as Hab. pose proof (Hlt b (or_intror Hb)) as Hbl.
    change (@ofZ R _ 0) with 0%R. rewrite !grid_frequency.
    assert (L : length (map fst grid) = length grid) by apply length_map.
    apply abscissa_decreasing; [assumption| |].
    + split; [apply Hr, nth_In; lia|]. apply StronglySorted_nth_lt; [assumption|lia].
    + apply Hr, nth_In. lia.
Qed.

Lemma node_xs_NoDup (nyquist : R) (grid : list (R * R)) (n : nat) (S : list nat) :
  (0 < nyquist)%R -> grid_increasing nyquist grid ->
  wf_extrema (length grid) n S -> NoDup (node_xs nyquist grid S).
Proof.
  intros Hn Hg (_ & HS & Hlt).
  now apply StronglySorted_Rgt_NoDup, node_xs_decreasing.
Qed.

Lemma nth_map_lt {A : Type} (g : A -> R) (l : list A) (d : A) (i : nat) :
  (i < length l)%nat -> nth i (map g l) 0%R = g (nth i l d).
Proof.
  intros Hi. rewrite (nth_indep _ 0%R (g d)) by now rewrite length_map.
  apply map_nth.
Qed.

Lemma nth_errors (nyquist : R) (grid : list (R * R)) (S : list nat) (k : nat) :
  (k < length S)%nat -> Forall (fun i => (i < length grid)%nat) S ->
  nth (nth k S O) (errors nyquist grid S) 0%R
  = (nth k (node_ds grid S) 0
     - trial (node_xs nyquist grid S) (node_ds grid S)
             (nth k (node_xs nyquist grid S) 0))%R.
Proof.
  intros Hk Hlt. rewrite Forall_forall in Hlt.
  pose proof (Hlt _ (nth_In S O Hk)) as Hi.
  assert (Ed : nth k (node_ds grid S) 0%R = snd (nth (nth k S O) grid (0%R, 0%R)))
    by exact (nth_map_lt _ S O k Hk).
  assert (Ex : nth k (node_xs nyquist grid S) 0%R
               = abscissa nyquist (fst (nth (nth k S O) grid (0%R, 0%R))))
    by exact (nth_map_lt _ S O k Hk).
  rewrite Ed, Ex. unfold errors. now rewrite (nth_map_lt _ grid (0%R, 0%R)).
Qed.

(** ** Lemmas: the dense grid *)

Lemma StronglySorted_Rlt_app (l1 l2 : list R) :
  StronglySorted Rlt l1 -> StronglySorted Rlt l2 ->
  (forall a b, In a l1 -> In b l2 -> (a < b)%R) ->
  StronglySorted Rlt (l1 ++ l2).
Proof.
  induction l1 as [|a l1 IH]; intros H1 H2 Hab; [assumption|].
  apply StronglySorted_inv in H1 as [Hl Ha]. cbn. constructor.
  - apply IH; [assumption..|]. intros x y Hx Hy. apply Hab; [now right|assumption].
  - apply Forall_app. split; [assumption|].
    apply Forall_forall. intros y Hy. apply Hab; [now left|assumption].
Qed.

Lemma band_grid_frequencies (n : Z) (lo hi d : R) :
  (1 <= n)%Z -> (lo < hi)%R ->
  StronglySorted Rlt (map fst (band_grid n lo hi d)) /\
  Forall (fun f => (lo <= f <= hi)%R) (map fst (band_grid n lo hi d)).
Proof.
  intros Hn Hlh. unfold band_grid, indices. rewrite !map_map. cbn [fst].
  assert (Hp : (0 < IZR n)%R) by (apply IZR_lt; lia).
  assert (Hs : forall i j : nat, (i < j)%nat ->
            (lo + IZR (Z.of_nat i) * (hi - lo) / IZR n
             < lo + IZR (Z.of_nat j) * (hi - lo) / IZR n)%R).
  { intros i j Hij. apply Rplus_lt_compat_l. unfold Rdiv.
    apply Rmult_lt_compat_r; [now apply Rinv_0_lt_compat|].
    apply Rmult_lt_compat_r; [lra|]. apply IZR_lt. lia. }
  split.
  - apply StronglySorted_map_seq. intros i j Hi _. num_R. apply Hs. lia.
  - apply Forall_forall. intros f Hf. apply in_map_iff in Hf as (i & <- & Hi).
    apply in_seq in Hi. num_R.
    assert (H0 : (0 <= IZR (Z.of_nat i) <= IZR n)%R) by (split; apply IZR_le; lia).
    assert (Hq : (0 <= IZR (Z.of_nat i) / IZR n <= 1)%R).
    { split; [apply Rmult_le_pos; [lra|left; now apply Rinv_0_lt_compat]|].
      apply Rmult_le_reg_r with (IZR n); [assumption|].
      unfold Rdiv. rewrite Rmult_assoc, Rinv_l by lra. lra. }
    replace (IZR (Z.of_nat i) * (hi - lo) / IZR n)%R
      with ((hi - lo) * (IZR (Z.of_nat i) / IZR n))%R by (field; lra).
    nra.
Qed.

Lemma bands_apart_sorted : forall bands : list R,
  bands_apart bands -> StronglySorted Rlt bands.
Proof.
  intros bands. induction bands as [| |lo hi rest IH] using list_pair_ind;
    intros Hb; [constructor|contradiction|].
  destruct Hb as (Hlh & Hgap & Hrest). specialize (IH Hrest).
  assert (Hhi : Forall (Rlt hi) rest).
  { destruct rest as [|lo' rest']; [constructor|]. cbn [hd] in Hgap.
    apply StronglySorted_inv in IH as [_ Hlo]. constructor; [assumption|].
    eapply Forall_impl; [|exact Hlo]. cbn beta. intros; lra. }
  constructor; [now constructor|]. constructor; [assumption|].
  eapply Forall_impl; [|exact Hhi]. cbn beta. intros; lra.
Qed.

Lemma StronglySorted_le_last (l : list R) (d : R) : forall x,
  StronglySorted Rlt l -> In x l -> (x <= last l d)%R.
Proof.
  induction l as [|a l IH]; intros x Hs Hx; [contradiction|].
  apply StronglySorted_inv in Hs as [Hl Ha]. destruct l as [|b l'].
  - destruct Hx as [->|[]]. cbn. lra.
  - change (last (a :: b :: l') d) with (last (b :: l') d).
    destruct Hx as [->|Hx]; [|now apply IH].
    apply Forall_inv in Ha. specialize (IH b Hl (or_introl eq_refl)). lra.
Qed.

Lemma dense_frequencies (n : Z) : forall bands desired : list R,
  (1 <= n)%Z -> bands_apart bands ->
  StronglySorted Rlt (map fst (dense n bands desired)) /\
  Forall (fun f => (hd 0 bands <= f <= last bands 0)%R)
         (map fst (dense n bands desired)).
Proof.
  intros bands. induction bands as [| |lo hi rest IH] using list_pair_ind;
    intros desired Hn Hb; try (split; constructor).
  pose proof (bands_apart_sorted _ Hb) as Hs.
  pose proof (StronglySorted_le_last _ 0%R hi Hs (or_intror (or_introl eq_refl))) as Hl.
  destruct Hb as (Hlh & Hgap & Hrest).
  destruct desired as [|d desired]; [split; constructor|]. cbn [dense].
  destruct (band_grid_frequencies n lo hi d Hn Hlh) as [S1 F1].
  destruct (IH desired Hn Hrest) as [S2 F2]. rewrite map_app.
  rewrite Forall_forall in F1, F2. split.
  - apply StronglySorted_Rlt_app; [assumption..|].
    intros a b Ha Hb. specialize (F1 a Ha). specialize (F2 b Hb).
    destruct rest as [|lo' rest']; [cbn in Hb; contradiction|]. cbn [hd] in *. lra.
  - apply Forall_app. split; apply Forall_forall; intros f Hf; cbn [hd].
    + specialize (F1 f Hf). lra.
    + specialize (F2 f Hf). destruct rest as [|lo' rest']; [cbn in Hf; contradiction|].
      change (last (lo :: hi :: lo' :: rest') 0%R) with (last (lo' :: rest') 0%R).
      cbn [hd] in *. lra.
Qed.

Lemma dense_grid_increasing (n : Z) (bands desired : list R) (nyquist : R) :
  (1 <= n)%Z -> bands_apart bands ->
  hd 0%R bands = 0%R -> last bands 0%R = nyquist ->
  grid_increasing nyquist (dense n bands desired).
Proof.
  intros Hn Hb H0 Hl. destruct (dense_frequencies n bands desired Hn Hb) as [Hs Hf].
  split; [assumption|]. now rewrite H0, Hl in Hf.
Qed.

Lemma length_dense_lower (n : Z) (bands desired : list R) :
  bands_apart bands -> bands <> [] -> desired <> [] ->
  (Z.to_nat (n + 1) <= length (dense n bands desired))%nat.
Proof.
  intros Hb Hne Hd. destruct bands as [|lo [|hi rest]]; [congruence|contradiction|].
  destruct desired as [|d desired]; [congruence|]. cbn [dense].
  rewrite length_app. unfold band_grid. rewrite length_map, length_indices. lia.
Qed.

(** At well-formed candidates on a grid of rising frequencies the error
    of the trial response is the common magnitude with alternating
    sign. *)
Lemma candidates_equiripple (nyquist : R) (grid : list (R * R)) (n : nat) (S : list nat) :
  (0 < nyquist)%R -> grid_increasing nyquist grid -> wf_extrema (length grid) n S ->
  forall k, (k < n)%nat ->
    nth (nth k S O) (errors nyquist grid S) 0%R
    = ((-1) ^ k * ripple (node_xs nyquist grid S) (node_ds grid S))%R.
Proof.
  intros Hn Hg HS k Hk. pose proof (node_xs_NoDup nyquist grid n S Hn Hg HS) as Hnd.
  destruct HS as (Hl & _ & Hlt). subst n.
  assert (Lx : length (node_xs nyquist grid S) = length S) by apply length_map.
  assert (Ld : length (node_ds grid S) = length (node_xs nyquist grid S))
    by (unfold node_ds, node_xs; now rewrite !length_map).
  rewrite nth_errors, trial_at_node, nth_levels by (assumption || lia). ring.
Qed.

(** ** Properties *)

(** C20. An admissible exchange returns the requested number of candidates,
    strictly increasing, inside the grid, with errors of opposite sign at
    neighbouring candidates. *)
Theorem exchange_candidates {F : Type} `{Num F}
    (E : list F) (n chunk bands : nat) (T : list nat) :
  exchange_of E n chunk bands = Some T ->
  wf_extrema (length E) n T /\ alternating E T = true.
Proof.
  intros HT. split; [eapply exchange_of_wf; eassumption|].
  unfold exchange_of in HT. destruct (band_peaks chunk bands 0 E) as [|p ps];
    [discriminate|]. cbv zeta in HT.
  destruct (length _ =? n)%nat; [|discriminate]. injection HT as <-.
  apply trim_alternating, alternate_spec.
Qed.

(** C19. On bands that do not touch and run from 0 to the Nyquist frequency,
    the candidates the loop of the designer ends with are [r + 1] distinct
    points of the grid, whatever the number of exchanges, and the error of
    the trial response through them, read on the grid, equals the common
    magnitude at each of them with alternating sign. *)
Theorem remez_extrema_equiripple (M : Z) (bands desired : list R) (nyquist : R) :
  (1 <= M)%Z -> (0 < nyquist)%R -> bands_apart bands -> desired <> [] ->
  hd 0%R bands = 0%R -> last bands 0%R = nyquist ->
  let r := unknowns M in
  let grid := dense (grid_density * r) bands desired in
  let S := rs_extrema (remez_loop max_iterations 0 nyquist grid
                         (Z.to_nat (grid_density * r + 1))
                         (initial_extrema r (length grid))) in
  wf_extrema (length grid) (Z.to_nat (r + 1)) S /\
  forall k, (k < Z.to_nat (r + 1))%nat ->
    nth (nth k S O) (errors nyquist grid S) 0%R
    = ((-1) ^ k * ripple (node_xs nyquist grid S) (node_ds grid S))%R.
Proof.
  intros HM Hn Hb Hd H0 Hl r grid S.
  assert (Hr : (1 <= r)%Z) by (unfold r, unknowns; apply Z.div_le_lower_bound; lia).
  assert (Hne : bands <> []) by (intros ->; cbn in Hl; lra).
  pose proof (length_dense_lower (grid_density * r) bands desired Hb Hne Hd) as Hlen.
  fold grid in Hlen. unfold grid_density in Hlen.
  assert (HS : wf_extrema (length grid) (Z.to_nat (r + 1)) S).
  { apply remez_loop_wf, initial_extrema_wf; [assumption|lia]. }
  split; [assumption|].
  apply candidates_equiripple; [assumption| |assumption].
  apply dense_grid_increasing; [unfold grid_density; lia|assumption..].
Qed.

(** The error of the constant response 1/2 on a grid of four points in
    each band of the script. *)
Lemma exchange_candidates_witness :
  let E := map (fun g => (snd g - (1 # 2))%Q)
               (dense 3 (bands_remez (F:=Q)) desired_amps_remez) in
  wf_extrema (length E) 2 [3; 7]%nat /\ alternating E [3; 7]%nat = true.
Proof.
  intros E.
  apply (exchange_candidates E 2 4 (length (desired_amps_remez (F:=Q)))).
  vm_compute. reflexivity.
Defined.

(** The designer on the band list and the gains of lines 53-54, read
    against Nyquist 1, with the length of line 47. *)
Lemma remez_extrema_equiripple_witness :
  let r := unknowns (M_remez (F:=R)) in
  let grid := dense (grid_density * r) (bands_remez (F:=R)) desired_amps_remez in
  let S := rs_extrema (remez_loop max_iterations 0 1%R grid
                         (Z.to_nat (grid_density * r + 1))
                         (initial_extrema r (length grid))) in
  wf_extrema (length grid) (Z.to_nat (r + 1)) S /\
  forall k, (k < Z.to_nat (r + 1))%nat ->
    nth (nth k S O) (errors 1%R grid S) 0%R
    = ((-1) ^ k * ripple (node_xs 1%R grid S) (node_ds grid S))%R.
Proof.
  apply (remez_extrema_equiripple (M_remez (F:=R)) bands_remez
           desired_amps_remez 1%R); rewrite ?bands_remez_R;
    try reflexivity; try discriminate; try lra.
  - unfold M_remez. rewrite M_kaiser_R. lia.
  - cbn. lra.
Defined.
