(* ===== verification/Nyquist.v ===== *)
(** * Nyquist: what an even length does to a symmetric design

    Lines 47 and 62 of [src/66.py] pass the even length [M_kaiser] = 18 to
    the Remez and the frequency-sampling designers, which return symmetric
    taps.  A symmetric filter of even length has a zero of its transfer
    function at the Nyquist frequency: the terms of the transform at
    [w = PI] are the taps with alternating signs, and the symmetry pairs
    each tap with one of the opposite sign.  This file proves that for
    every list of taps and draws the consequences for the two designers
    and for the conversion to decibels of lines 81-84, which yields minus
    infinity there. *)

From Stdlib Require Import ZArith Reals Lra Lia Bool List.
From S2P Require Import Prelude.
From S2P Require Import Numeric.
From S2P Require Import Normalizer.
From S2P Require Import Kaiser.
From S2P Require Import Designs.
From S2P Require Import Window.
From S2P Require Import FreqResponse.
From S2P Require Import FreqSampling.
From S2P Require Import Remez.
Import ListNotations.

Local Open Scope R_scope.

(** ** Definitions *)

(** The taps with alternating signs, summed: the transform at [w = PI]. *)
Fixpoint alt_sum (h : list R) : R :=
  match h with
  | [] => 0
  | x :: t => x - alt_sum t
  end.

(** The frequency response of a design at the Nyquist frequency of the
    sampling rate [fs]. *)
Definition at_nyquist (h : list R) (fs : R) : R := response h (omega fs (fs / 2)).

(** ** Lemmas: the transform at [PI] *)

Lemma cos_nat_PI (k : nat) : cos (PI * INR k) = (-1) ^ k.
Proof.
  induction k as [|k IH]; [rewrite Rmult_0_r; apply cos_0|].
  rewrite S_INR, Rmult_plus_distr_l, Rmult_1_r, neg_cos, IH.
  rewrite <- tech_pow_Rmult. ring.
Qed.

Lemma sin_nat_PI (k : nat) : sin (PI * INR k) = 0.
Proof.
  induction k as [|k IH]; [rewrite Rmult_0_r; apply sin_0|].
  rewrite S_INR, Rmult_plus_distr_l, Rmult_1_r, neg_sin, IH. ring.
Qed.

Lemma dtft_PI (h : list R) : forall k : nat,
  dtft_re (Z.of_nat k) h PI = (-1) ^ k * alt_sum h /\
  dtft_im (Z.of_nat k) h PI = 0.
Proof.
  induction h as [|x h IH]; intros k; cbn [dtft_re dtft_im alt_sum]; num_R.
  - split; ring.
  - replace (Z.of_nat k + 1)%Z with (Z.of_nat (S k)) by lia.
    destruct (IH (S k)) as [-> ->].
    rewrite <- INR_IZR_INZ, cos_nat_PI, sin_nat_PI, <- tech_pow_Rmult. split; ring.
Qed.

Lemma omega_nyquist (fs : R) : fs <> 0 -> omega fs (fs / 2) = PI.
Proof. intros Hfs. unfold omega. num_R. now field. Qed.

(** ** Lemmas: alternating sums of symmetric lists *)

Lemma alt_sum_snoc (h : list R) (x : R) :
  alt_sum (h ++ [x]) = alt_sum h + (-1) ^ length h * x.
Proof.
  induction h as [|y h IH]; cbn [app alt_sum length]; [cbn; ring|].
  rewrite IH, <- tech_pow_Rmult. ring.
Qed.

Lemma alt_sum_rev (h : list R) :
  alt_sum (rev h) = (-1) ^ S (length h) * alt_sum h.
Proof.
  induction h as [|x h IH]; cbn [rev alt_sum length]; [ring|].
  rewrite alt_sum_snoc, length_rev, IH, <- !tech_pow_Rmult. ring.
Qed.

Lemma pow_minus_one_even (n : nat) : Nat.even n = true -> (-1) ^ n = 1.
Proof.
  intros Hn. apply Nat.even_spec in Hn as [m ->]. rewrite pow_mult.
  replace ((-1) ^ 2) with 1 by ring. apply pow1.
Qed.

Lemma alt_sum_symmetric_even (h : list R) :
  rev h = h -> Nat.even (length h) = true -> alt_sum h = 0.
Proof.
  intros Hs He. pose proof (alt_sum_rev h) as E.
  rewrite Hs, <- tech_pow_Rmult, (pow_minus_one_even _ He) in E. lra.
Qed.

Lemma response_PI (h : list R) : response h PI = Rabs (alt_sum h).
Proof.
  unfold response, transfer. cbn [fst snd].
  destruct (dtft_PI h 0) as [E1 E2]. cbn [Z.of_nat] in E1, E2.
  rewrite E1, E2, pow_O, Rmult_1_l. apply cabs_real.
Qed.

(** A symmetric list of taps of even length has no response at [PI]. *)
Lemma response_symmetric_even (h : list R) :
  rev h = h -> Nat.even (length h) = true -> response h PI = 0.
Proof.
  intros Hs He. now rewrite response_PI, alt_sum_symmetric_even, Rabs_R0.
Qed.

Lemma even_to_nat (M : Z) : (0 <= M)%Z -> Z.even M = true -> Nat.even (Z.to_nat M) = true.
Proof.
  intros HM He. apply Nat.even_spec. apply Z.even_spec in He as [m ->].
  exists (Z.to_nat m). lia.
Qed.

Lemma at_nyquist_symmetric_even (h : list R) (fs : R) :
  fs <> 0 -> rev h = h -> Nat.even (length h) = true -> at_nyquist h fs = 0.
Proof.
  intros Hfs Hs He. unfold at_nyquist.
  now rewrite omega_nyquist, response_symmetric_even.
Qed.

Lemma firwin2_even_nyquist (M : Z) (freq gain : list R) (nyquist fs : R)
    (t : taper) (h : list R) :
  Z.even M = true -> (1 < M)%Z -> fs <> 0 ->
  firwin2 M freq gain nyquist t = Ok h -> at_nyquist h fs = 0.
Proof.
  intros He HM Hfs E. apply firwin2_inv in E as (_ & _ & ->).
  apply at_nyquist_symmetric_even; [assumption| |].
  - apply rev_map_indices. intros n _.
    now rewrite taper_coeff_symmetric, sampled_tap_symmetric.
  - rewrite length_map, length_indices. apply even_to_nat; [lia|assumption].
Qed.

Lemma remez_even_nyquist (M : Z) (bands desired : list R) (nyquist fs : R)
    (d : remez_design R) :
  Z.even M = true -> (1 < M)%Z -> fs <> 0 ->
  remez M bands desired nyquist = Ok d -> at_nyquist (rd_taps d) fs = 0.
Proof.
  intros He HM Hfs E. apply remez_inv in E as (_ & A & st & -> & _).
  apply at_nyquist_symmetric_even; [assumption| |].
  - apply rev_map_indices. intros n _. apply remez_tap_symmetric.
  - rewrite length_map, length_indices. apply even_to_nat; [lia|assumption].
Qed.

(** ** Properties *)

(** Symmetric taps of even length have no response at the Nyquist
    frequency: lines 81-84 read minus infinity there and the clamped
    conversion of the spec -240 dB. *)
Theorem even_symmetric_nyquist (h : list R) (fs : R) :
  fs <> 0 -> rev h = h -> Nat.even (length h) = true ->
  at_nyquist h fs = 0 /\
  to_dB (at_nyquist h fs) = MinusInf /\
  to_dB_clamped (at_nyquist h fs) = -240.
Proof.
  intros Hfs Hs He. rewrite (at_nyquist_symmetric_even h fs Hfs Hs He).
  split; [reflexivity|]. split; [apply to_dB_nonpos; lra|].
  apply to_dB_clamped_low, floor_magnitude_pos.
Qed.

(** C24. With an even length, every design of the frequency-sampling designer
    and every design of the Remez designer blocks the Nyquist frequency
    entirely; so does the design of line 70, with the 18 taps the script
    asks for and either taper, where the expression of lines 81-84 yields
    minus infinity. *)
Theorem even_designs_nyquist (M : Z) (fs : R) :
  Z.even M = true -> (1 < M)%Z -> fs <> 0 ->
  (forall freq gain nyquist t h,
     firwin2 M freq gain nyquist t = Ok h -> at_nyquist h fs = 0) /\
  (forall bands desired nyquist d,
     remez M bands desired nyquist = Ok d -> at_nyquist (rd_taps d) fs = 0) /\
  (M = M_firls (F:=R) -> fs = IZR Fs ->
   forall t, exists h, h_firls t = Ok h /\ to_dB (at_nyquist h fs) = MinusInf).
Proof.
  intros He HM Hfs. split; [|split].
  - intros freq gain nyquist t h. now apply firwin2_even_nyquist.
  - intros bands desired nyquist d. now apply remez_even_nyquist.
  - intros -> -> t. destruct h_firls_breakpoints as [Hi Hl].
    eexists. split.
    + unfold h_firls, firwin2_run, h_firls_call. cbn [f2_numtaps f2_freq f2_gain f2_fs].
      now apply firwin2_Ok.
    + rewrite (firwin2_even_nyquist (M_firls (F:=R)) bands_firls desired_amps_firls
                 (nyquist_of (ofZ Fs)) (IZR Fs) t); try assumption.
      * apply to_dB_nonpos. lra.
      * now apply firwin2_Ok.
Qed.

Lemma even_symmetric_nyquist_witness :
  at_nyquist [1; 2; 2; 1] 2 = 0 /\
  to_dB (at_nyquist [1; 2; 2; 1] 2) = MinusInf /\
  to_dB_clamped (at_nyquist [1; 2; 2; 1] 2) = -240.
Proof.
  apply (even_symmetric_nyquist [1; 2; 2; 1] 2); [lra|reflexivity|reflexivity].
Defined.

Lemma even_designs_nyquist_witness :
  (forall freq gain nyquist t h,
     firwin2 18 freq gain nyquist t = Ok h -> at_nyquist h 5000 = 0) /\
  (forall bands desired nyquist d,
     remez 18 bands desired nyquist = Ok d -> at_nyquist (rd_taps d) 5000 = 0) /\
  (18%Z = M_firls (F:=R) -> 5000 = IZR Fs ->
   forall t, exists h, h_firls t = Ok h /\ to_dB (at_nyquist h 5000) = MinusInf).
Proof. apply (even_designs_nyquist 18 5000); [reflexivity|lia|lra]. Defined.
