(* ===== verification/Report.v ===== *)
(** * Report: what the script hands to the figure and prints

    Lines 89-92 of [src/66.py] label the four curves, lines 96-100 draw the
    requirement lines, lines 106-107 fix the axes and lines 113-117 print
    the lengths.  Rendering is I/O; the data is modelled: the decimal
    printer of integers, the two-decimal format of the shape parameter, the
    labels, the segments of the requirement lines, the axis limits and the
    lines of the summary.

    Proved here: the printer round-trips; the exact text of the labels and
    of the summary, which report the even length 18 for three designs; the
    requirement lines tile [0, Fs/2] at the breakpoints of line 65 and lie
    inside the axes. *)

From Stdlib Require Import ZArith QArith Qreals Reals Lra Lia Bool List String.
From Stdlib Require Import Ascii DecimalString DecimalZ Zfloor SpecFloat.
From S2P Require Import Prelude.
From S2P Require Import Numeric.
From S2P Require Import Floats.
From S2P Require Import Normalizer.
From S2P Require Import Kaiser.
From S2P Require Import Designs.
Import ListNotations.

Local Open Scope string_scope.

(** ** Printing numbers *)

(** [str(n)] and [f"{n}"] for a Python integer. *)
Definition string_of_Z (z : Z) : string :=
  NilZero.string_of_int (Z.to_int z).

Definition Z_of_string (s : string) : option Z :=
  option_map Z.of_int (NilZero.int_of_string s).

(** Nearest integer, ties to even. *)
Definition round_half_even (x : R) : Z :=
  let f := Zfloor x in
  if Rltb (x - IZR f) (1 / 2) then f
  else if Rltb (1 / 2) (x - IZR f) then (f + 1)%Z
  else if Z.even f then f else (f + 1)%Z.

Definition pad2 (n : Z) : string :=
  if (n <? 10)%Z then "0" ++ string_of_Z n else string_of_Z n.

(** The format [:.2f], applied to the real value: Python formats the
    binary64 value, which for the shape parameter of line 90 lies in the
    same interval (2.115, 2.125) and prints the same digits. *)
Definition format_2f (x : R) : string :=
  let h := round_half_even (Rabs x * 100) in
  (if Rltb x 0 then "-" else "")
  ++ string_of_Z (h / 100) ++ "." ++ pad2 (h mod 100).

(** ** Printing floats *)

(** [repr(x)], which is also what an f-string without a format prints, on
    the floats it is modelled for: zeros, infinities, NaN, and the
    integers below [2^53] in magnitude, which Python writes in full with
    [.0] appended.  [None] on the other floats. *)
Definition repr_float (x : b64) : option string :=
  match x with
  | S754_zero s => Some (if s then "-0.0" else "0.0")
  | S754_infinity s => Some (if s then "-inf" else "inf")
  | S754_nan => Some "nan"
  | S754_finite _ _ _ =>
      match b64_integer x with
      | Some n => if (Z.abs n <? 2 ^ 53)%Z then Some (string_of_Z n ++ ".0") else None
      | None => None
      end
  end.

(** [float(s)] on the texts above: an optional sign, digits, and [.0]. *)
Definition float_of_digits (neg : bool) (body : string) : option b64 :=
  let k := (String.length body - 2)%nat in
  if String.eqb (substring k 2 body) ".0" && (2 <? String.length body)%nat
  then match Z_of_string (substring 0 k body) with
       | Some n => if (0 <=? n)%Z
                   then Some (if neg then SFopp (b64_of_Z n) else b64_of_Z n)
                   else None
       | None => None
       end
  else None.

Definition float_of_string (s : string) : option b64 :=
  if String.eqb s "nan" then Some S754_nan
  else if String.eqb s "inf" then Some (S754_infinity false)
  else if String.eqb s "-inf" then Some (S754_infinity true)
  else match s with
       | String c t => if Ascii.eqb c "-" then float_of_digits true t
                       else float_of_digits false s
       | EmptyString => None
       end.

(** ** The title (line 103) *)

(** [Fs/1000]: the division of two integers is that of the floats. *)
Definition Fs_kHz : b64 := (ofZ Fs / ofZ 1000)%num.

Definition title : option string :=
  option_map (fun t => "Charakterystyka Amplitudowa Filtrów FIR (Fs=" ++ t ++ " kHz)")
             (repr_float Fs_kHz).

(** ** The legend (lines 89-92) *)

Definition label_window : string :=
  "Window (Hanning, M=" ++ string_of_Z M_window ++ ")".

Definition label_kaiser : string :=
  "Kaiser (M=" ++ string_of_Z (M_kaiser (F:=R)) ++ ", β="
  ++ format_2f beta_kaiser ++ ")".

Definition label_remez : string :=
  "Remez (Parks-McClellan, M=" ++ string_of_Z (M_remez (F:=R)) ++ ")".

Definition label_firls : string :=
  "FIRLS (Least Squares, M=" ++ string_of_Z (M_firls (F:=R)) ++ ")".

(** The labels of the four curves, in plotting order. *)
Definition curve_labels : list string :=
  [label_window; label_kaiser; label_remez; label_firls].

(** Lines 104-105. *)
Definition xlabel : string := "Częstotliwość [Hz]".
Definition ylabel : string := "Amplituda [dB]".

(** ** The requirement lines (lines 96-100) and the axes (lines 106-107) *)

Record segment (F : Type) : Type := {
  seg_x0 : F;
  seg_x1 : F;
  seg_y : F;
  seg_style : string;
  seg_label : option string;
  seg_width : option Z
}.

Arguments seg_x0 {F} _.
Arguments seg_x1 {F} _.
Arguments seg_y {F} _.
Arguments seg_style {F} _.
Arguments seg_label {F} _.
Arguments seg_width {F} _.

Section WithNum.
Context {F : Type} `{Num F}.
Local Open Scope num_scope.

(** Line 96: the upper edge of the passband, without a label. *)
Definition req_pass_upper : segment F :=
  {| seg_x0 := ofZ 0; seg_x1 := ofZ F_pass; seg_y := ofZ Rp; seg_style := "k--";
     seg_label := None; seg_width := None |}.

(** Line 97: the lower edge of the passband. *)
Definition req_pass_lower : segment F :=
  {| seg_x0 := ofZ 0; seg_x1 := ofZ F_pass; seg_y := ofZ (- Rp); seg_style := "k--";
     seg_label := Some "_nolegend_"; seg_width := None |}.

(** Line 99: the attenuation required in the stopband. *)
Definition req_stop : segment F :=
  {| seg_x0 := ofZ F_stop; seg_x1 := ofZ Fs / ofZ 2; seg_y := ofZ (- Rs);
     seg_style := "r--"; seg_label := Some "Wymagane Rs"; seg_width := Some 2%Z |}.

(** Line 100: the transition band. *)
Definition req_transition : segment F :=
  {| seg_x0 := ofZ F_pass; seg_x1 := ofZ F_stop; seg_y := ofZ 0; seg_style := "g--";
     seg_label := Some "_nolegend_"; seg_width := None |}.

Definition requirement_lines : list (segment F) :=
  [req_pass_upper; req_pass_lower; req_stop; req_transition].

Definition xlim : F * F := (ofZ 0, ofZ Fs / ofZ 2).
Definition ylim : F * F := (ofZ (-60), ofZ 5).

(** Line 88 and line 108. *)
Definition figsize : Z * Z := (12, 6)%Z.
Definition grid_args : string * string * string := ("both", "both", "--").

Definition inside (lim : F * F) (v : F) : bool :=
  (fst lim <=? v) && (v <=? snd lim).

Definition visible (s : segment F) : bool :=
  inside xlim (seg_x0 s) && inside xlim (seg_x1 s) && inside ylim (seg_y s).

(** The abscissas at which requirement lines start or end, in order. *)
Definition requirement_edges : list F :=
  [ofZ 0; ofZ F_pass; ofZ F_stop; ofZ Fs / ofZ 2].

End WithNum.

(** ** The summary (lines 113-117) *)

Definition summary : list string :=
  [ String "010"%char "### Podsumowanie Długości Filtrów (M) ###";
    "Długość M (Window Hanning): " ++ string_of_Z M_window;
    "Długość M (Kaiser): " ++ string_of_Z (M_kaiser (F:=R));
    "Długość M (Remez): " ++ string_of_Z (M_remez (F:=R)) ++ " (Wybór projektanta)";
    "Długość M (FIRLS): " ++ string_of_Z (M_firls (F:=R)) ++ " (Wybór projektanta)" ].

(** ** Lemmas: printing *)

Lemma Z_to_int_not_nil (z : Z) :
  Z.to_int z <> Decimal.Pos Decimal.Nil /\ Z.to_int z <> Decimal.Neg Decimal.Nil.
Proof.
  assert (H : forall p, Pos.to_uint p <> Decimal.Nil).
  { intros p E. pose proof (DecimalPos.Unsigned.to_uint_nonnil p). contradiction. }
  destruct z as [|p|p]; simpl; split; try discriminate;
    intros [= E]; exact (H p E).
Qed.

(** ** Lemmas: strings *)

Lemma length_append (a b : string) :
  String.length (a ++ b) = (String.length a + String.length b)%nat.
Proof. induction a; cbn; congruence. Qed.

Lemma substring_all (b : string) : substring 0 (String.length b) b = b.
Proof. induction b; cbn; congruence. Qed.

Lemma substring_append_l (a b : string) : substring 0 (String.length a) (a ++ b) = a.
Proof. induction a; cbn; [now destruct b|congruence]. Qed.

Lemma substring_append_r (a b : string) :
  substring (String.length a) (String.length b) (a ++ b) = b.
Proof. induction a; cbn; [apply substring_all|assumption]. Qed.

Lemma string_of_uint_head (d : Decimal.uint) :
  exists c t, NilZero.string_of_uint d = String c t /\
              Ascii.eqb c "-" = false /\ Ascii.eqb c "n" = false /\ Ascii.eqb c "i" = false.
Proof. destruct d; cbn; eauto 8. Qed.

Lemma string_of_Z_sign (p : positive) :
  string_of_Z (Zpos p) = NilZero.string_of_uint (Pos.to_uint p) /\
  string_of_Z (Zneg p) = String "-" (NilZero.string_of_uint (Pos.to_uint p)).
Proof. split; reflexivity. Qed.

Lemma Z_of_string_of_Z (z : Z) : Z_of_string (string_of_Z z) = Some z.
Proof.
  unfold Z_of_string, string_of_Z.
  destruct (Z_to_int_not_nil z) as [H1 H2].
  rewrite NilZero.isi by assumption. simpl. now rewrite DecimalZ.of_to.
Qed.

(** ** Lemmas: reading a float *)

Lemma float_of_digits_integral (neg : bool) (p : positive) :
  float_of_digits neg (string_of_Z (Zpos p) ++ ".0")
  = Some (if neg then SFopp (b64_of_Z (Zpos p)) else b64_of_Z (Zpos p)).
Proof.
  unfold float_of_digits. set (a := string_of_Z (Zpos p)).
  assert (Hk : (String.length (a ++ ".0") - 2 = String.length a)%nat).
  { rewrite length_append. cbn. lia. }
  rewrite Hk, substring_append_l.
  rewrite (substring_append_r a ".0" : substring (String.length a) 2 (a ++ ".0") = ".0").
  subst a. rewrite Z_of_string_of_Z. cbn [String.eqb Ascii.eqb Bool.eqb andb Z.leb Z.compare].
  replace (2 <? _)%nat with true; [reflexivity|].
  symmetry. apply Nat.ltb_lt. rewrite length_append, (proj1 (string_of_Z_sign p)).
  destruct (string_of_uint_head (Pos.to_uint p)) as (c & t & -> & _). cbn. lia.
Qed.

Lemma float_of_string_integral (n : Z) :
  float_of_string (string_of_Z n ++ ".0")
  = Some (if (n <? 0)%Z then SFopp (b64_of_Z (- n)) else b64_of_Z n).
Proof.
  destruct n as [|p|p]; [reflexivity| |].
  - transitivity (float_of_digits false (string_of_Z (Zpos p) ++ ".0"));
      [|apply float_of_digits_integral].
    unfold float_of_string. rewrite (proj1 (string_of_Z_sign p)).
    destruct (string_of_uint_head (Pos.to_uint p)) as (c & t & -> & Hm & Hn & Hi).
    cbn [append String.eqb]. now rewrite Hn, Hi, Hm.
  - transitivity (float_of_digits true (string_of_Z (Zpos p) ++ ".0"));
      [|apply float_of_digits_integral].
    unfold float_of_string. rewrite (proj2 (string_of_Z_sign p)), (proj1 (string_of_Z_sign p)).
    destruct (string_of_uint_head (Pos.to_uint p)) as (c & t & -> & Hm & Hn & Hi).
    cbn [append String.eqb Ascii.eqb Bool.eqb]. now rewrite Hi.
Qed.

(** ** Lemmas: formats *)

Lemma round_half_even_between (x : R) (n : Z) :
  (IZR n - 1 / 2 < x < IZR n + 1 / 2)%R -> round_half_even x = n.
Proof.
  intros [H1 H2]. unfold round_half_even.
  pose proof (Zfloor_bound x) as [Hf1 Hf2].
  set (f := Zfloor x) in *.
  destruct (Rltb_spec (x - IZR f) (1 / 2)) as [Hlt|Hge].
  - assert (A : (IZR (n - 1) < IZR f)%R) by (rewrite minus_IZR; lra).
    assert (B : (IZR f < IZR (n + 1))%R) by (rewrite plus_IZR; lra).
    apply lt_IZR in A, B. lia.
  - assert (A : (IZR (n - 2) < IZR f)%R) by (rewrite minus_IZR; lra).
    assert (B : (IZR f < IZR n)%R) by lra.
    apply lt_IZR in A, B. assert (E : f = (n - 1)%Z) by lia.
    rewrite E, minus_IZR in *. rewrite (proj2 (Rltb_lt _ _)) by lra. lia.
Qed.

Lemma format_2f_between (x : R) (h : Z) :
  (0 <= x)%R -> (IZR h - 1 / 2 < x * 100 < IZR h + 1 / 2)%R ->
  format_2f x = string_of_Z (h / 100) ++ "." ++ pad2 (h mod 100).
Proof.
  intros Hx Hh. unfold format_2f.
  rewrite Rabs_pos_eq by assumption.
  rewrite (round_half_even_between _ h Hh).
  now rewrite (proj2 (Rltb_ge x 0) Hx).
Qed.

Lemma title_text :
  title = Some "Charakterystyka Amplitudowa Filtrów FIR (Fs=5.0 kHz)".
Proof. reflexivity. Qed.

Lemma label_texts :
  label_window = "Window (Hanning, M=47)" /\
  label_kaiser = "Kaiser (M=18, β=2.12)" /\
  label_remez = "Remez (Parks-McClellan, M=18)" /\
  label_firls = "FIRLS (Least Squares, M=18)".
Proof.
  unfold label_window, label_kaiser, label_remez, label_firls, M_remez, M_firls.
  rewrite M_kaiser_R. pose proof beta_kaiser_enclosure as Hb.
  rewrite (format_2f_between _ 212) by lra. repeat split.
Qed.

Lemma curve_labels_text :
  curve_labels =
  [ "Window (Hanning, M=47)"; "Kaiser (M=18, β=2.12)";
    "Remez (Parks-McClellan, M=18)"; "FIRLS (Least Squares, M=18)" ].
Proof.
  destruct label_texts as (E1 & E2 & E3 & E4).
  unfold curve_labels. now rewrite E1, E2, E3, E4.
Qed.

(** ** Properties *)

(** Printing an integer and reading the text back returns the
    integer. *)
Theorem string_of_Z_roundtrip (z : Z) : Z_of_string (string_of_Z z) = Some z.
Proof. exact (Z_of_string_of_Z z). Qed.

(** C23. Reading back the text Python prints for a float returns the float:
    for zeros, infinities, NaN and every float of the format whose value
    is an integer below [2^53] in magnitude, which is printed in full
    with [.0] appended. *)
Theorem repr_float_roundtrip (x : b64) (s : string) :
  b64_valid x = true -> repr_float x = Some s -> float_of_string s = Some x.
Proof.
  intros Hv Hs. destruct x as [sg|sg| |sg m e].
  - injection Hs as <-. now destruct sg.
  - injection Hs as <-. now destruct sg.
  - now injection Hs as <-.
  - unfold repr_float in Hs.
    destruct (b64_integer (S754_finite sg m e)) as [n|] eqn:En; [|discriminate].
    destruct (Z.ltb_spec (Z.abs n) (2 ^ 53)) as [Hlt|]; [|discriminate].
    injection Hs as <-. rewrite float_of_string_integral.
    destruct (b64_integer_exact sg m e n Hv En Hlt) as (p & -> & Ep).
    specialize (Ep false).
    destruct sg; cbn [cond_Zopp Z.opp Z.ltb Z.compare] in *; now rewrite Ep.
Qed.

Lemma repr_float_roundtrip_witness : float_of_string "5.0" = Some Fs_kHz.
Proof. exact (repr_float_roundtrip Fs_kHz "5.0" eq_refl eq_refl). Defined.


(** The summary reports length 47 for the Hann design and the even
    length 18 for the Kaiser, Remez and frequency-sampling designs. *)
Theorem summary_text :
  summary =
  [ String "010"%char "### Podsumowanie Długości Filtrów (M) ###";
    "Długość M (Window Hanning): 47";
    "Długość M (Kaiser): 18";
    "Długość M (Remez): 18 (Wybór projektanta)";
    "Długość M (FIRLS): 18 (Wybór projektanta)" ].
Proof.
  unfold summary, M_remez, M_firls. rewrite M_kaiser_R. reflexivity.
Qed.

(** The legend shows the Kaiser design with M=18 and the shape
    parameter rounded to 2.12. *)
Theorem label_kaiser_text : label_kaiser = "Kaiser (M=18, β=2.12)".
Proof. exact (proj1 (proj2 label_texts)). Qed.

(** The requirement lines start and end at the breakpoints of the
    frequency-sampling design, and each lies inside the axes of the
    figure. *)
Theorem requirement_lines_visible :
  forallb visible (requirement_lines (F:=Q)) = true /\
  forallb visible (requirement_lines (F:=b64)) = true /\
  requirement_edges (F:=R) = bands_firls /\
  map seg_y (requirement_lines (F:=Q)) = [1; -1; -30; 0]%Q.
Proof.
  split; [|split; [|split]]; try reflexivity; vm_compute; reflexivity.
Qed.
