(* ===== verification/Figure.v ===== *)
(** * Figure: the state of pyplot and the calls the script makes on it

    Lines 88-110 of [src/66.py] drive matplotlib's implicit state: a list
    of open figures of which the newest is current, each with its lines,
    texts, limits, grid and legend.  Lines 113-117 write to the standard
    output.  This file models that state as the record [world], the calls
    as the type [call] with one constructor per function the script uses,
    and their effect as the function [exec]; [run] executes a list of calls
    and stops at the first one that raises, and [runs] is the same as a
    relation, for proofs by rule induction.

    What matplotlib does is taken from its documentation: [plot] raises
    when the two sequences differ in length and otherwise appends a line to
    the current figure, creating a figure of the default size when there is
    none; [legend] lists, at the time it is called, the lines whose label
    is not empty and does not start with an underscore (a line plotted
    without a label gets one that does); [show] displays every open figure
    and closes it.

    Proved here: the well-formedness of the world is preserved by every
    call; a call raises exactly when it plots sequences of different
    lengths; the output only grows, by the texts of the [Print] calls in
    their order; the legend holds what was plotted before it was asked
    for. *)

From Stdlib Require Import ZArith QArith List String Ascii Bool Lia.
From S2P Require Import Prelude.
Import ListNotations.

Local Open Scope string_scope.

(** ** State *)

Record line2d (F V : Type) : Type := {
  ln_x : list F;
  ln_y : list V;
  ln_fmt : option string;
  ln_label : option string;
  ln_width : option Z
}.

Arguments ln_x {F V} _.
Arguments ln_y {F V} _.
Arguments ln_fmt {F V} _.
Arguments ln_label {F V} _.
Arguments ln_width {F V} _.

Record grid_style : Type := {
  gr_which : string;
  gr_axis : string;
  gr_linestyle : string
}.

Record figure (F V : Type) : Type := {
  fig_size : Q * Q;
  fig_lines : list (line2d F V);
  fig_title : string;
  fig_xlabel : string;
  fig_ylabel : string;
  fig_xlim : option (F * F);
  fig_ylim : option (F * F);
  fig_grid : option grid_style;
  fig_legend : option (list (line2d F V))
}.

Arguments fig_size {F V} _.
Arguments fig_lines {F V} _.
Arguments fig_title {F V} _.
Arguments fig_xlabel {F V} _.
Arguments fig_ylabel {F V} _.
Arguments fig_xlim {F V} _.
Arguments fig_ylim {F V} _.
Arguments fig_grid {F V} _.
Arguments fig_legend {F V} _.

(** The open figures, the current one first; the figures displayed so far,
    the oldest first; the lines written to the standard output. *)
Record world (F V : Type) : Type := {
  figures : list (figure F V);
  shown : list (figure F V);
  stdout : list string
}.

Arguments figures {F V} _.
Arguments shown {F V} _.
Arguments stdout {F V} _.

(** ** Calls *)

Inductive call (F V : Type) : Type :=
| Figure (width height : Z)
| Plot (x : list F) (y : list V) (fmt label : option string) (linewidth : option Z)
| Title (s : string)
| Xlabel (s : string)
| Ylabel (s : string)
| Xlim (lo hi : F)
| Ylim (lo hi : F)
| Grid (which axis linestyle : string)
| Legend
| Show
| Print (s : string).

Arguments Figure {F V} width height.
Arguments Plot {F V} x y fmt label linewidth.
Arguments Title {F V} s.
Arguments Xlabel {F V} s.
Arguments Ylabel {F V} s.
Arguments Xlim {F V} lo hi.
Arguments Ylim {F V} lo hi.
Arguments Grid {F V} which axis linestyle.
Arguments Legend {F V}.
Arguments Show {F V}.
Arguments Print {F V} s.

(** What the script can raise: an error of a design contract (spec
    section 7), or the [ValueError] of a plot of two sequences of different
    lengths. *)
Inductive exception : Type :=
| ContractError (e : error)
| ValueError.

(** What a run ends in: the world after the last call, or the world at the
    call that raised. *)
Inductive outcome (F V : Type) : Type :=
| Done (w : world F V)
| Raised (w : world F V) (e : exception).

Arguments Done {F V} w.
Arguments Raised {F V} w e.

Section WithTypes.
Context {F V : Type}.

Definition empty_world : world F V :=
  {| figures := []; shown := []; stdout := [] |}.

Definition new_figure (size : Q * Q) : figure F V :=
  {| fig_size := size; fig_lines := []; fig_title := ""; fig_xlabel := "";
     fig_ylabel := ""; fig_xlim := None; fig_ylim := None; fig_grid := None;
     fig_legend := None |}.

(** The size of a figure F V created implicitly: 6.4 by 4.8 inches. *)
Definition default_figure : figure F V := new_figure (64 # 10, 48 # 10)%Q.

(** ** The legend *)

(** A label is left out of the legend when it is empty or starts with an
    underscore. *)
Definition hidden (label : string) : bool :=
  match label with
  | EmptyString => true
  | String c _ => Ascii.eqb c "_"
  end.

Definition in_legend (l : line2d F V) : bool :=
  match ln_label l with
  | Some s => negb (hidden s)
  | None => false
  end.

Definition legend_handles (f : figure F V) : list (line2d F V) :=
  filter in_legend (fig_lines f).

Definition legend_labels (f : figure F V) : list string :=
  match fig_legend f with
  | Some hs => flat_map (fun l => match ln_label l with Some s => [s] | None => [] end) hs
  | None => []
  end.

(** ** Updates of a figure F V *)

Definition add_line (l : line2d F V) (f : figure F V) : figure F V :=
  {| fig_size := fig_size f; fig_lines := fig_lines f ++ [l];
     fig_title := fig_title f; fig_xlabel := fig_xlabel f; fig_ylabel := fig_ylabel f;
     fig_xlim := fig_xlim f; fig_ylim := fig_ylim f; fig_grid := fig_grid f;
     fig_legend := fig_legend f |}.

Definition set_title (s : string) (f : figure F V) : figure F V :=
  {| fig_size := fig_size f; fig_lines := fig_lines f;
     fig_title := s; fig_xlabel := fig_xlabel f; fig_ylabel := fig_ylabel f;
     fig_xlim := fig_xlim f; fig_ylim := fig_ylim f; fig_grid := fig_grid f;
     fig_legend := fig_legend f |}.

Definition set_xlabel (s : string) (f : figure F V) : figure F V :=
  {| fig_size := fig_size f; fig_lines := fig_lines f;
     fig_title := fig_title f; fig_xlabel := s; fig_ylabel := fig_ylabel f;
     fig_xlim := fig_xlim f; fig_ylim := fig_ylim f; fig_grid := fig_grid f;
     fig_legend := fig_legend f |}.

Definition set_ylabel (s : string) (f : figure F V) : figure F V :=
  {| fig_size := fig_size f; fig_lines := fig_lines f;
     fig_title := fig_title f; fig_xlabel := fig_xlabel f; fig_ylabel := s;
     fig_xlim := fig_xlim f; fig_ylim := fig_ylim f; fig_grid := fig_grid f;
     fig_legend := fig_legend f |}.

Definition set_xlim (lim : F * F) (f : figure F V) : figure F V :=
  {| fig_size := fig_size f; fig_lines := fig_lines f;
     fig_title := fig_title f; fig_xlabel := fig_xlabel f; fig_ylabel := fig_ylabel f;
     fig_xlim := Some lim; fig_ylim := fig_ylim f; fig_grid := fig_grid f;
     fig_legend := fig_legend f |}.

Definition set_ylim (lim : F * F) (f : figure F V) : figure F V :=
  {| fig_size := fig_size f; fig_lines := fig_lines f;
     fig_title := fig_title f; fig_xlabel := fig_xlabel f; fig_ylabel := fig_ylabel f;
     fig_xlim := fig_xlim f; fig_ylim := Some lim; fig_grid := fig_grid f;
     fig_legend := fig_legend f |}.

Definition set_grid (g : grid_style) (f : figure F V) : figure F V :=
  {| fig_size := fig_size f; fig_lines := fig_lines f;
     fig_title := fig_title f; fig_xlabel := fig_xlabel f; fig_ylabel := fig_ylabel f;
     fig_xlim := fig_xlim f; fig_ylim := fig_ylim f; fig_grid := Some g;
     fig_legend := fig_legend f |}.

Definition set_legend (f : figure F V) : figure F V :=
  {| fig_size := fig_size f; fig_lines := fig_lines f;
     fig_title := fig_title f; fig_xlabel := fig_xlabel f; fig_ylabel := fig_ylabel f;
     fig_xlim := fig_xlim f; fig_ylim := fig_ylim f; fig_grid := fig_grid f;
     fig_legend := Some (legend_handles f) |}.

(** ** Updates of the world F V *)

(** The current figure F V, created when there is none. *)
Definition gcf (w : world F V) : figure F V :=
  match figures w with
  | f :: _ => f
  | [] => default_figure
  end.

Definition on_current (g : figure F V -> figure F V) (w : world F V) : world F V :=
  {| figures := g (gcf w) :: tl (figures w); shown := shown w; stdout := stdout w |}.

Definition open_figure (f : figure F V) (w : world F V) : world F V :=
  {| figures := f :: figures w; shown := shown w; stdout := stdout w |}.

Definition show_all (w : world F V) : world F V :=
  {| figures := []; shown := shown w ++ rev (figures w); stdout := stdout w |}.

Definition write (s : string) (w : world F V) : world F V :=
  {| figures := figures w; shown := shown w; stdout := stdout w ++ [s] |}.

(** ** Execution *)

(** One call F V; [None] when matplotlib raises. *)
Definition exec (c : call F V) (w : world F V) : option (world F V) :=
  match c with
  | Figure width height => Some (open_figure (new_figure (inject_Z width, inject_Z height)) w)
  | Plot x y fmt label linewidth =>
      if (List.length x =? List.length y)%nat
      then Some (on_current (add_line {| ln_x := x; ln_y := y; ln_fmt := fmt;
                                         ln_label := label; ln_width := linewidth |}) w)
      else None
  | Title s => Some (on_current (set_title s) w)
  | Xlabel s => Some (on_current (set_xlabel s) w)
  | Ylabel s => Some (on_current (set_ylabel s) w)
  | Xlim lo hi => Some (on_current (set_xlim (lo, hi)) w)
  | Ylim lo hi => Some (on_current (set_ylim (lo, hi)) w)
  | Grid which axis linestyle =>
      Some (on_current (set_grid {| gr_which := which; gr_axis := axis;
                                    gr_linestyle := linestyle |}) w)
  | Legend => Some (on_current set_legend w)
  | Show => Some (show_all w)
  | Print s => Some (write s w)
  end.

(** A list of calls, in order, up to the first that raises. *)
Fixpoint run (cs : list (call F V)) (w : world F V) : outcome F V :=
  match cs with
  | [] => Done w
  | c :: cs' =>
      match exec c w with
      | Some w' => run cs' w'
      | None => Raised w ValueError
      end
  end.

(** The same as a relation: [runs w cs w'] when the calls [cs] take [w] to
    [w'] without raising. *)
Inductive runs : world F V -> list (call F V) -> world F V -> Prop :=
| runs_nil w : runs w [] w
| runs_cons w c w' cs w'' :
    exec c w = Some w' -> runs w' cs w'' -> runs w (c :: cs) w''.

(** The texts a call and a list of calls print. *)
Definition printed (c : call F V) : list string :=
  match c with
  | Print s => [s]
  | _ => []
  end.

Definition prints (cs : list (call F V)) : list string := flat_map printed cs.

(** The calls that raise. *)
Definition raises (c : call F V) : bool :=
  match c with
  | Plot x y _ _ _ => negb (List.length x =? List.length y)%nat
  | _ => false
  end.

(** ** Well-formedness *)

Definition wf_line (l : line2d F V) : Prop :=
  List.length (ln_x l) = List.length (ln_y l).

(** Every line has as many abscissas as ordinates, and the legend lists
    lines of the figure F V whose labels are shown. *)
Definition wf_figure (f : figure F V) : Prop :=
  Forall wf_line (fig_lines f) /\
  forall hs, fig_legend f = Some hs ->
             Forall (fun l => In l (fig_lines f) /\ in_legend l = true) hs.

Definition wf_world (w : world F V) : Prop :=
  Forall wf_figure (figures w) /\ Forall wf_figure (shown w).

End WithTypes.

Arguments empty_world {F V}.
Arguments default_figure {F V}.

(** ** Lemmas: one call *)

Section Facts.
Context {F V : Type}.
Implicit Types (w : world F V) (c : call F V) (cs : list (call F V)) (f : figure F V).

Lemma exec_raises c w : exec c w = None <-> raises c = true.
Proof.
  destruct c; cbn; try (split; discriminate).
  destruct (List.length x =? List.length y)%nat; cbn; split; congruence.
Qed.

Lemma exec_stdout c w w' :
  exec c w = Some w' -> stdout w' = (stdout w ++ printed c)%list.
Proof.
  destruct c; cbn; try (intros [= <-]; cbn; now rewrite app_nil_r).
  - destruct (List.length x =? List.length y)%nat; [|discriminate].
    intros [= <-]. cbn. now rewrite app_nil_r.
  - now intros [= <-].
Qed.

Lemma exec_shown c w w' :
  exec c w = Some w' ->
  shown w' = (shown w ++ (match c with Show => rev (figures w) | _ => [] end))%list.
Proof.
  destruct c; cbn; try (intros [= <-]; cbn; now rewrite ?app_nil_r).
  destruct (List.length x =? List.length y)%nat; [|discriminate].
  intros [= <-]. cbn. now rewrite app_nil_r.
Qed.

(** ** Lemmas: well-formedness *)

Lemma wf_new_figure size : wf_figure (new_figure (F:=F) (V:=V) size).
Proof. split; [constructor|discriminate]. Qed.

Lemma wf_gcf w : wf_world w -> wf_figure (gcf w).
Proof.
  intros [Hf _]. unfold gcf. destruct (figures w); [apply wf_new_figure|].
  now inv Hf.
Qed.

Lemma wf_on_current (g : figure F V -> figure F V) w :
  (forall f, wf_figure f -> wf_figure (g f)) -> wf_world w -> wf_world (on_current g w).
Proof.
  intros Hg Hw. split; [|apply Hw]. cbn. constructor.
  - apply Hg, wf_gcf, Hw.
  - destruct Hw as [Hf _]. destruct (figures w); [constructor|now inv Hf].
Qed.

Lemma wf_add_line (l : line2d F V) f : wf_line l -> wf_figure f -> wf_figure (add_line l f).
Proof.
  intros Hl [H1 H2]. split; cbn.
  - apply Forall_app. split; [assumption|now constructor].
  - intros hs E. eapply Forall_impl; [|exact (H2 hs E)].
    intros a [Ha Hb]. split; [apply in_or_app; now left|assumption].
Qed.

Lemma wf_set_legend f : wf_figure f -> wf_figure (set_legend f).
Proof.
  intros [H1 _]. split; [exact H1|]. cbn. intros hs [= <-].
  apply Forall_forall. intros l Hl. now apply filter_In in Hl.
Qed.

Lemma wf_show_all w : wf_world w -> wf_world (show_all w).
Proof.
  intros [Hf Hs]. split; cbn; [constructor|].
  apply Forall_app. split; [assumption|]. now apply Forall_rev.
Qed.

Lemma wf_empty_world : wf_world (empty_world (F:=F) (V:=V)).
Proof. split; constructor. Qed.

Lemma exec_wf c w w' : wf_world w -> exec c w = Some w' -> wf_world w'.
Proof.
  intros Hw. destruct c; cbn;
    try (intros [= <-]; apply wf_on_current; [|exact Hw]; intros f Hf; exact Hf).
  - intros [= <-]. destruct Hw as [Hf Hs]. split; [|exact Hs].
    cbn. constructor; [apply wf_new_figure|exact Hf].
  - destruct (Nat.eqb_spec (List.length x) (List.length y)) as [E|]; [|discriminate].
    intros [= <-]. apply wf_on_current; [|exact Hw].
    intros f. now apply wf_add_line.
  - intros [= <-]. apply wf_on_current; [|exact Hw]. apply wf_set_legend.
  - intros [= <-]. now apply wf_show_all.
  - intros [= <-]. exact Hw.
Qed.

(** ** Lemmas: runs *)

Lemma runs_run cs w w' : runs w cs w' <-> run cs w = Done w'.
Proof.
  split.
  - induction 1 as [|w c w1 cs w2 E _ IH]; cbn; [reflexivity|now rewrite E].
  - revert w. induction cs as [|c cs IH]; cbn; intros w.
    + intros [= <-]. constructor.
    + destruct (exec c w) as [w1|] eqn:E; [|discriminate].
      intros Hr. econstructor; eauto.
Qed.

Lemma runs_app cs1 cs2 w w1 w2 :
  runs w cs1 w1 -> runs w1 cs2 w2 -> runs w (cs1 ++ cs2)%list w2.
Proof. induction 1; cbn; eauto using runs_cons. Qed.

Lemma runs_app_inv cs1 cs2 w w2 :
  runs w (cs1 ++ cs2)%list w2 -> exists w1, runs w cs1 w1 /\ runs w1 cs2 w2.
Proof.
  revert w. induction cs1 as [|c cs1 IH]; cbn; intros w Hr.
  - exists w. split; [constructor|assumption].
  - inv Hr. destruct (IH _ H4) as (w1 & Ha & Hb).
    exists w1. split; [econstructor; eauto|assumption].
Qed.

Lemma runs_wf cs w w' : runs w cs w' -> wf_world w -> wf_world w'.
Proof. induction 1; eauto using exec_wf. Qed.

Lemma runs_stdout cs w w' : runs w cs w' -> stdout w' = (stdout w ++ prints cs)%list.
Proof.
  induction 1 as [|w c w1 cs w2 E _ IH]; [now rewrite app_nil_r|].
  rewrite IH, (exec_stdout _ _ _ E), <- app_assoc. reflexivity.
Qed.

Lemma run_app cs1 cs2 w :
  run (cs1 ++ cs2)%list w
  = match run cs1 w with
    | Done w1 => run cs2 w1
    | Raised w1 e => Raised w1 e
    end.
Proof.
  revert w. induction cs1 as [|c cs1 IH]; cbn; intros w; [reflexivity|].
  now destruct (exec c w).
Qed.

Lemma run_prints (l : list string) w :
  run (map Print l) w
  = Done {| figures := figures w; shown := shown w; stdout := (stdout w ++ l)%list |}.
Proof.
  revert w. induction l as [|s l IH]; cbn; intros w.
  - rewrite app_nil_r. now destruct w.
  - rewrite IH. cbn. now rewrite <- app_assoc.
Qed.

Lemma runs_shown cs w w' : runs w cs w' -> exists l, shown w' = (shown w ++ l)%list.
Proof.
  induction 1 as [w|w c w1 cs w2 E _ [l IH]]; [exists []; now rewrite app_nil_r|].
  rewrite IH, (exec_shown _ _ _ E), <- app_assoc. eauto.
Qed.

Lemma prints_app cs1 cs2 : prints (cs1 ++ cs2)%list = (prints cs1 ++ prints cs2)%list.
Proof. apply flat_map_app. Qed.

Lemma run_total cs w :
  forallb (fun c => negb (raises c)) cs = true -> exists w', run cs w = Done w'.
Proof.
  revert w. induction cs as [|c cs IH]; cbn; intros w Hc; [now exists w|].
  apply andb_true_iff in Hc as [Hc Hcs].
  destruct (exec c w) as [w1|] eqn:E; [now apply IH|].
  apply exec_raises in E. rewrite E in Hc. discriminate.
Qed.

End Facts.

(** ** Properties *)

Section Properties.
Context {F V : Type}.
Implicit Types (w : world F V) (c : call F V) (cs : list (call F V)).

(** A list of calls runs to its end exactly when none of them plots two
    sequences of different lengths; otherwise the run stops with
    [ValueError] at the first such call, in the world reached before it,
    whatever follows. *)
Theorem run_outcome cs w :
  (forallb (fun c => negb (raises c)) cs = true -> exists w', run cs w = Done w') /\
  (forall cs1 c cs2 w1,
     cs = (cs1 ++ c :: cs2)%list -> runs w cs1 w1 -> raises c = true ->
     run cs w = Raised w1 ValueError).
Proof.
  split; [apply run_total|].
  intros cs1 c cs2 w1 -> Hr Hc. induction Hr as [|w c' w' cs' w'' E _ IH]; cbn.
  - now rewrite (proj2 (exec_raises c w) Hc).
  - now rewrite E.
Qed.

(** The legend is fixed when it is asked for: a line plotted before the
    call is listed when its label is shown, a line plotted after it is
    not, and a line without a label or with a hidden one is never
    listed. *)
Theorem legend_order w x y fmt label width :
  List.length x = List.length y ->
  let p := Plot x y fmt label width in
  (forall w1, run [p; Legend] w = Done w1 ->
     legend_labels (gcf w1)
     = (legend_labels (set_legend (gcf w))
        ++ match label with Some s => if hidden s then [] else [s] | None => [] end)%list) /\
  (forall w2, run [Legend; p] w = Done w2 ->
     legend_labels (gcf w2) = legend_labels (set_legend (gcf w))).
Proof.
  intros E p. subst p. cbn. rewrite E, Nat.eqb_refl. split.
  - intros w1 [= <-]. cbn. unfold legend_labels, legend_handles. cbn.
    rewrite filter_app, flat_map_app. f_equal. cbn. unfold in_legend. cbn.
    destruct label as [s|]; [|reflexivity]. now destruct (hidden s).
  - intros w2 [= <-]. reflexivity.
Qed.

End Properties.

Lemma legend_order_witness :
  (forall w1, run [Plot [0%Z] [1%Z] None (Some "a") None; Legend] empty_world = Done w1 ->
     legend_labels (gcf w1) = ["a"]) /\
  (forall w2, run [Legend; Plot [0%Z] [1%Z] None (Some "a") None] empty_world = Done w2 ->
     legend_labels (gcf w2) = []).
Proof. exact (legend_order (F:=Z) (V:=Z) empty_world [0%Z] [1%Z] None (Some "a") None eq_refl). Defined.
