(* ===== verification/Script.v ===== *)
(** * Script: the program from its first design to its last print

    [src/66.py] is straight-line code: four designs (lines 27, 43, 58, 70),
    four evaluations (lines 75-78), four conversions to decibels (lines
    81-84), one figure (lines 88-110) and five prints (lines 113-117).
    The files before this one model each part; this file composes them in
    the order of the lines.  [curves_of] is the numeric part in the result
    monad, so that the first contract that fails decides the error;
    [presentation] and [printing] are the calls on pyplot and on the
    standard output; [program] runs the calls on the empty world when the
    numeric part succeeded, and [script] is the program at the script's
    four designs, for the taper [t] that line 70 leaves to the designer.

    Proved here: the script itself stops at the Kaiser design of line 43,
    with nothing drawn and nothing printed; whenever the four designs
    succeed the program runs to its end, with one figure displayed and the
    summary printed; the figure then holds the eight lines, the five legend
    entries and the texts of the source, and no line of the summary is
    printed before the figure has been displayed. *)

From Stdlib Require Import ZArith QArith Reals Lra Lia Bool List String Ascii.
From S2P Require Import Prelude.
From S2P Require Import Numeric.
From S2P Require Import Normalizer.
From S2P Require Import Kaiser.
From S2P Require Import Designs.
From S2P Require Import Window.
From S2P Require Import FreqResponse.
From S2P Require Import FreqSampling.
From S2P Require Import Remez.
From S2P Require Import Report.
From S2P Require Import Figure.
Import ListNotations.

Local Open Scope string_scope.
Local Open Scope list_scope.

(** ** The curves handed to the figure *)

(** The abscissas [w] as left by line 78 and the four arrays of lines
    81-84. *)
Record curves (F : Type) : Type := {
  cv_w : list F;
  cv_window : list (dB F);
  cv_kaiser : list (dB F);
  cv_remez : list (dB F);
  cv_firls : list (dB F)
}.

Arguments cv_w {F} _.
Arguments cv_window {F} _.
Arguments cv_kaiser {F} _.
Arguments cv_remez {F} _.
Arguments cv_firls {F} _.

(** The error a sequence of computations stops at: that of the first
    that fails. *)
Fixpoint first_error {A : Type} (rs : list (result A)) : option error :=
  match rs with
  | [] => None
  | Ok _ :: rs' => first_error rs'
  | Err e :: _ => Some e
  end.

Section WithNum.
Context {F : Type} `{Num F} `{!Round F} `{!Transc F}.

(** ** The numeric part (lines 27-84) *)

(** The designs in the order of lines 27, 43, 58 and 70, then the
    evaluations of lines 75-78, then the conversions of lines 81-84. *)
Definition curves_of (dw dk dr df : result (list F)) : result (curves F) :=
  (hw <- dw ;; hk <- dk ;; hr <- dr ;; hf <- df ;;
   Hw <- freqz (Ok hw) ;; Hk <- freqz (Ok hk) ;;
   Hr <- freqz (Ok hr) ;; Hf <- freqz (Ok hf) ;;
   a <- decibels (Ok Hw) ;; b <- decibels (Ok Hk) ;;
   c <- decibels (Ok Hr) ;; d <- decibels (Ok Hf) ;;
   Ok {| cv_w := fst Hf; cv_window := a; cv_kaiser := b; cv_remez := c;
         cv_firls := d |})%res.

(** ** The figure (lines 88-110) *)

(** Lines 89-92: a curve with a label and the default style. *)
Definition plot_curve (w : list F) (y : list (dB F)) (label : string)
  : call F (dB F) :=
  Plot w y None (Some label) None.

(** Lines 96-100: a horizontal line between two abscissas. *)
Definition plot_segment (s : segment F) : call F (dB F) :=
  Plot [seg_x0 s; seg_x1 s] [Finite (seg_y s); Finite (seg_y s)]
       (Some (seg_style s)) (seg_label s) (seg_width s).

Definition presentation (t : string) (c : curves F) : list (call F (dB F)) :=
  [ Figure (fst figsize) (snd figsize);
    plot_curve (cv_w c) (cv_window c) label_window;
    plot_curve (cv_w c) (cv_kaiser c) label_kaiser;
    plot_curve (cv_w c) (cv_remez c) label_remez;
    plot_curve (cv_w c) (cv_firls c) label_firls ]
  ++ map plot_segment requirement_lines
  ++ [ Title t; Xlabel xlabel; Ylabel ylabel;
       Xlim (fst xlim) (snd xlim); Ylim (fst ylim) (snd ylim);
       Grid (fst (fst grid_args)) (snd (fst grid_args)) (snd grid_args);
       Legend; Show ].

(** ** The summary (lines 113-117) *)

Definition printing : list (call F (dB F)) := map Print summary.

(** ** The program *)

(** The calls of lines 88-117; [None] when the text of the title is not
    modelled. *)
Definition statements (c : curves F) : option (list (call F (dB F))) :=
  option_map (fun t => presentation t c ++ printing) title.

(** Lines 27-117 as a function of the four designs. *)
Definition program (dw dk dr df : result (list F)) : option (outcome F (dB F)) :=
  match curves_of dw dk dr df with
  | Err e => Some (Raised empty_world (ContractError e))
  | Ok c => option_map (fun cs => run cs empty_world) (statements c)
  end.

Definition script (t : taper) : option (outcome F (dB F)) :=
  program h_window h_kaiser h_remez (h_firls t).

(** ** What the figure must hold *)

(** The curves have the length of the grid. *)
Definition curves_wf (c : curves F) : Prop :=
  List.length (cv_w c) = Z.to_nat N_fft /\
  List.length (cv_window c) = Z.to_nat N_fft /\
  List.length (cv_kaiser c) = Z.to_nat N_fft /\
  List.length (cv_remez c) = Z.to_nat N_fft /\
  List.length (cv_firls c) = Z.to_nat N_fft.

Definition curve_line (w : list F) (y : list (dB F)) (label : string)
  : line2d F (dB F) :=
  {| ln_x := w; ln_y := y; ln_fmt := None; ln_label := Some label; ln_width := None |}.

Definition segment_line (s : segment F) : line2d F (dB F) :=
  {| ln_x := [seg_x0 s; seg_x1 s]; ln_y := [Finite (seg_y s); Finite (seg_y s)];
     ln_fmt := Some (seg_style s); ln_label := seg_label s; ln_width := seg_width s |}.

(** The figure the source describes: four curves in the order of lines
    89-92, the requirement lines in the order of lines 96-100, the texts
    and limits of lines 103-108 and a legend of the curves and of the one
    requirement line that has a visible label. *)
Definition rendered (t : string) (c : curves F) : figure F (dB F) :=
  let curves := [ curve_line (cv_w c) (cv_window c) label_window;
                  curve_line (cv_w c) (cv_kaiser c) label_kaiser;
                  curve_line (cv_w c) (cv_remez c) label_remez;
                  curve_line (cv_w c) (cv_firls c) label_firls ] in
  {| fig_size := (inject_Z 12, inject_Z 6);
     fig_lines := curves ++ map segment_line requirement_lines;
     fig_title := t; fig_xlabel := xlabel; fig_ylabel := ylabel;
     fig_xlim := Some xlim; fig_ylim := Some ylim;
     fig_grid := Some {| gr_which := "both"; gr_axis := "both"; gr_linestyle := "--" |};
     fig_legend := Some (curves ++ [segment_line req_stop]) |}.

End WithNum.

(** ** Lemmas: the numeric part *)

Section Facts.
Context {F : Type} `{Num F} `{!Round F} `{!Transc F}.

Lemma curves_of_Ok (hw hk hr hf : list F) :
  exists c, curves_of (Ok hw) (Ok hk) (Ok hr) (Ok hf) = Ok c /\ curves_wf c.
Proof.
  eexists. split; [reflexivity|]. unfold curves_wf, spectrum. cbn [cv_w cv_window cv_kaiser cv_remez cv_firls fst snd].
  rewrite !length_map, !length_freq_grid. repeat split; reflexivity.
Qed.

Lemma curves_of_Err (dw dk dr df : result (list F)) (e : error) :
  curves_of dw dk dr df = Err e <->
  dw = Err e \/
  (is_ok dw = true /\ dk = Err e) \/
  (is_ok dw = true /\ is_ok dk = true /\ dr = Err e) \/
  (is_ok dw = true /\ is_ok dk = true /\ is_ok dr = true /\ df = Err e).
Proof.
  destruct dw as [hw|e1], dk as [hk|e2], dr as [hr|e3], df as [hf|e4]; cbn;
    try (destruct (curves_of_Ok hw hk hr hf) as (c & -> & _));
    intuition congruence.
Qed.

(** ** Lemmas: the figure *)

Lemma run_presentation (t : string) (c : curves F) :
  curves_wf c ->
  run (presentation t c) empty_world
  = Done {| figures := []; shown := [rendered t c]; stdout := [] |}.
Proof.
  intros (Hw & Ha & Hb & Hc & Hd).
  unfold presentation, plot_curve, rendered.
  cbn [app map run exec plot_segment requirement_lines List.length Nat.eqb].
  now rewrite Hw, Ha, Hb, Hc, Hd, Nat.eqb_refl.
Qed.

Lemma run_statements (t : string) (c : curves F) :
  curves_wf c ->
  run (presentation t c ++ printing) empty_world
  = Done {| figures := []; shown := [rendered t c]; stdout := summary |}.
Proof.
  intros Hc. rewrite run_app, (run_presentation t c Hc). apply run_prints.
Qed.

Lemma program_Ok (hw hk hr hf : list F) :
  exists c t,
    curves_of (Ok hw) (Ok hk) (Ok hr) (Ok hf) = Ok c /\
    curves_wf c /\ title = Some t /\
    program (Ok hw) (Ok hk) (Ok hr) (Ok hf)
    = Some (Done {| figures := []; shown := [rendered t c]; stdout := summary |}).
Proof.
  destruct (curves_of_Ok hw hk hr hf) as (c & E & Hc).
  exists c. eexists. split; [exact E|]. split; [exact Hc|]. split; [exact title_text|].
  unfold program, statements. rewrite E, title_text. cbn [option_map].
  now rewrite run_statements.
Qed.

(** The numeric part succeeds exactly when the four designs do, in
    whatever order they are run. *)
Lemma curves_of_is_ok (dw dk dr df : result (list F)) :
  is_ok (curves_of dw dk dr df) = is_ok dw && is_ok dk && is_ok dr && is_ok df.
Proof.
  destruct dw as [hw|], dk as [hk|], dr as [hr|], df as [hf|]; reflexivity.
Qed.

End Facts.

Lemma prints_presentation {F : Type} `{Num F} `{!Round F} `{!Transc F}
    (t : string) (c : curves F) :
  prints (presentation t c) = [].
Proof. reflexivity. Qed.

Lemma runs_printing {F V : Type} (l : list (call F V)) (w w' : world F V) :
  Forall (fun c => exists s, c = Print s) l -> runs w l w' ->
  figures w' = figures w /\ shown w' = shown w.
Proof.
  intros Hl Hr. induction Hr as [|w c w1 cs w2 E _ IH]; [now split|].
  inv Hl. destruct H1 as [s ->]. cbn in E. injection E as <-. now apply IH.
Qed.

Lemma script_designs :
  h_window (F:=R) <> Err InvalidLength /\ is_ok (h_window (F:=R)) = true /\
  h_kaiser (F:=R) = Err InvalidLength.
Proof.
  assert (E : is_ok (h_window (F:=R)) = true).
  { unfold h_window, firwin_run, h_window_call. cbn [fw_numtaps fw_cutoff fw_window].
    unfold M_window. now rewrite firwin_Ok by (reflexivity || lia). }
  split; [|split; [exact E|]].
  - intros E'. rewrite E' in E. discriminate.
  - unfold h_kaiser, firwin_run, h_kaiser_call. cbn [fw_numtaps fw_cutoff fw_window].
    apply firwin_Err. left. exact M_kaiser_even_R.
Qed.

(** ** Properties *)

Section Properties.
Context {F : Type} `{Num F} `{!Round F} `{!Transc F}.

(** C10. Whenever the four designs succeed, whatever taps they return, the
    program reaches its last line: the figure is displayed and closed and
    the five lines of the summary are on the output, with the even length
    18 for three of the designs. *)
Theorem program_completes (hw hk hr hf : list F) :
  exists fig,
    program (Ok hw) (Ok hk) (Ok hr) (Ok hf)
    = Some (Done {| figures := []; shown := [fig];
                    stdout := [ String "010"%char "### Podsumowanie Długości Filtrów (M) ###";
                                "Długość M (Window Hanning): 47";
                                "Długość M (Kaiser): 18";
                                "Długość M (Remez): 18 (Wybór projektanta)";
                                "Długość M (FIRLS): 18 (Wybór projektanta)" ] |}).
Proof.
  destruct (program_Ok hw hk hr hf) as (c & t & _ & _ & _ & E).
  rewrite summary_text in E. eauto.
Qed.

(** C11. The figure that is displayed has the eight lines of the source in
    their order, of which the first four hold the abscissas and the four
    arrays of decibels as computed; the title with the sampling rate
    printed as the float 5.0; the axes from 0 to Fs/2 and from -60 to 5;
    and a legend of five entries: the four designs and the stopband
    requirement.  The three other requirement lines are drawn and not
    listed. *)
Theorem figure_content (hw hk hr hf : list F) :
  exists w fig c,
    program (Ok hw) (Ok hk) (Ok hr) (Ok hf) = Some (Done w) /\
    shown w = [fig] /\
    curves_of (Ok hw) (Ok hk) (Ok hr) (Ok hf) = Ok c /\
    map (fun l => (ln_x l, ln_y l)) (firstn 4 (fig_lines fig))
    = [ (cv_w c, cv_window c); (cv_w c, cv_kaiser c);
        (cv_w c, cv_remez c); (cv_w c, cv_firls c) ] /\
    map ln_fmt (fig_lines fig)
    = [None; None; None; None; Some "k--"; Some "k--"; Some "r--"; Some "g--"] /\
    legend_labels fig
    = [ "Window (Hanning, M=47)"; "Kaiser (M=18, β=2.12)";
        "Remez (Parks-McClellan, M=18)"; "FIRLS (Least Squares, M=18)";
        "Wymagane Rs" ] /\
    fig_title fig = "Charakterystyka Amplitudowa Filtrów FIR (Fs=5.0 kHz)" /\
    fig_xlim fig = Some (ofZ 0, ofZ 5000 / ofZ 2)%num /\
    fig_ylim fig = Some (ofZ (-60), ofZ 5).
Proof.
  destruct (program_Ok hw hk hr hf) as (c & t & Ec & _ & Ht & E).
  rewrite title_text in Ht. injection Ht as <-.
  eexists. eexists. exists c. split; [exact E|]. split; [reflexivity|].
  split; [exact Ec|].
  destruct label_texts as (L1 & L2 & L3 & L4).
  unfold legend_labels, rendered. rewrite L1, L2, L3, L4. cbn.
  repeat split.
Qed.

(** C22. At every point of a run of the figure and the summary, either nothing
    has been printed yet or the figure has already been displayed and
    closed: the summary follows the figure. *)
Theorem summary_after_show (t : string) (c : curves F) cs1 cs2 w :
  curves_wf c -> presentation t c ++ printing = cs1 ++ cs2 ->
  runs empty_world cs1 w ->
  stdout w = [] \/ (figures w = [] /\ shown w = [rendered t c]).
Proof.
  intros Hc E Hr. apply app_eq_app in E as (l & [[E ->]|[-> E]]).
  - left. rewrite (runs_stdout _ _ _ Hr). cbn.
    pose proof (prints_presentation t c) as P. rewrite E, prints_app in P.
    now apply app_eq_nil in P.
  - right. apply runs_app_inv in Hr as (w1 & H1 & H2).
    apply runs_run in H1. rewrite (run_presentation t c Hc) in H1. injection H1 as <-.
    refine (runs_printing l _ w _ H2).
    assert (A : Forall (fun c => exists s, c = Print s) (l ++ cs2)).
    { rewrite <- E. unfold printing. apply Forall_forall. intros x Hx.
      apply in_map_iff in Hx as (s & <- & _). eauto. }
    now apply Forall_app in A.
Qed.

End Properties.

(** C3. The script stops at the Kaiser design of line 43, whose even length
    the designer rejects: no figure is opened or displayed and nothing is
    printed.  The Hann design before it succeeds, and the error of the
    Remez call of line 58 is never reached. *)
Theorem script_raises (t : taper) :
  script (F:=R) t = Some (Raised empty_world (ContractError InvalidLength)) /\
  first_error [h_window (F:=R); h_kaiser; h_remez; h_firls t]
  = Some InvalidLength /\
  h_remez (F:=R) = Err InvalidBandSpec.
Proof.
  destruct script_designs as (_ & Hw & Hk).
  unfold script, program, curves_of. rewrite Hk.
  destruct (h_window (F:=R)) as [hw|e]; [|discriminate].
  repeat split. unfold h_remez, remez_run.
  now rewrite (remez_Err _ _ _ _ _ remez_validate_script_R).
Qed.

Lemma summary_after_show_witness :
  let c := {| cv_w := repeat 0%R 2048; cv_window := repeat MinusInf 2048;
              cv_kaiser := repeat MinusInf 2048; cv_remez := repeat MinusInf 2048;
              cv_firls := repeat MinusInf 2048 |} in
  let w := {| figures := []; shown := [rendered "t" c]; stdout := summary |} in
  stdout w = [] \/ (figures w = [] /\ shown w = [rendered "t" c]).
Proof.
  intros c w.
  assert (Hc : curves_wf c) by (repeat split; apply repeat_length).
  apply (summary_after_show "t" c (presentation "t" c ++ printing) [] w Hc).
  - symmetry. apply app_nil_r.
  - apply runs_run. exact (run_statements "t" c Hc).
Defined.
